(** * AI-assistance layer of the request inspector: streaming ingestion and
      structured extraction

    A shallow embedding of [js/modules/ai.js] and
    [js/modules/attack-surface.js], together with the parts of the host
    platform these modules rely on ([TextDecoder], [String.prototype]
    methods, [JSON.parse], the one regular expression of [parseCategories]),
    followed by theorems about the stream readers, the category extractor
    and the batch orchestrator.

    Conventions of the embedding
    - a JavaScript string is the list of its UTF-16 code units ([jsstring]);
    - a byte chunk delivered by [reader.read()] is a [list byte]; the body
      of a response is the chunks its reader delivers and the way the
      reads end, with [done] or with a rejection;
    - a JavaScript value is a [jsval]; numbers are IEEE-754 doubles kept as
      exact dyadic rationals ([number]);
    - an exception is the [Throw] outcome of a [completion];
    - callbacks are observers: every invocation is recorded in a trace and
      returns normally;
    - [localStorage] is a finite map keyed by strings; the object built by
      [analyzeAttackSurface] is the finite map of its own properties
      together with its prototype. *)

From Stdlib Require Import ZArith NArith List Bool Lia.
From Stdlib Require Import Strings.String Strings.Byte.
From stdpp Require Import base option list gmap.

Import ListNotations.
Local Open Scope N_scope.

Set Warnings "-register-all".

(* ===================================================================== *)
(** * Strings as sequences of UTF-16 code units                          *)
(* ===================================================================== *)

Definition jsstring : Type := list N.

(** ** The host's UTF-8 decoder ([new TextDecoder()], WHATWG Encoding)    *)

Module Utf8.

Record state : Type := State {
  code_point : N;
  bytes_seen : N;
  bytes_needed : N;
  lower : N;
  upper : N
}.

Definition init : state := State 0 0 0 128 191.

Definition in_range (lo hi b : N) : bool := (lo <=? b) && (b <=? hi).

(** The handler when no continuation byte is awaited. *)
Definition lead (b : N) : state * list N :=
  if in_range 0 127 b then (init, [b])
  else if in_range 194 223 b then (State (N.land b 31) 0 1 128 191, [])
  else if in_range 224 239 b then
    (State (N.land b 15) 0 2
           (if b =? 224 then 160 else 128)
           (if b =? 237 then 159 else 191), [])
  else if in_range 240 244 b then
    (State (N.land b 7) 0 3
           (if b =? 240 then 144 else 128)
           (if b =? 244 then 143 else 191), [])
  else (init, [65533]).

(** One byte of input: the new state and the scalar values emitted.  A
    byte outside the awaited range yields U+FFFD and is then handled
    again from the initial state. *)
Definition step (st : state) (b : N) : state * list N :=
  if bytes_needed st =? 0 then lead b
  else if negb (in_range (lower st) (upper st) b) then
    let '(st', out) := lead b in (st', 65533 :: out)
  else
    let cp := N.lor (N.shiftl (code_point st) 6) (N.land b 63) in
    let seen := bytes_seen st + 1 in
    if seen =? bytes_needed st then (init, [cp])
    else (State cp seen (bytes_needed st) 128 191, []).

Fixpoint run (st : state) (bs : list N) : state * list N :=
  match bs with
  | [] => (st, [])
  | b :: bs' =>
      let '(st1, o1) := step st b in
      let '(st2, o2) := run st1 bs' in
      (st2, o1 ++ o2)
  end.

(** A scalar value as UTF-16 code units. *)
Definition utf16 (cp : N) : jsstring :=
  if cp <? 65536 then [cp]
  else [55296 + N.shiftr (cp - 65536) 10; 56320 + N.land (cp - 65536) 1023].

End Utf8.

(** ** [TextDecoder]: the decoder state carried across [decode] calls     *)

Record TextDecoder : Type := MkTextDecoder {
  td_utf8 : Utf8.state;
  td_bom_seen : bool
}.

Definition new_TextDecoder : TextDecoder := MkTextDecoder Utf8.init false.

(** Serialisation of the decoded scalar values: the first scalar value the
    decoder ever produces is dropped when it is U+FEFF. *)
Definition serialize (bom_seen : bool) (out : list N) : bool * jsstring :=
  match out with
  | [] => (bom_seen, [])
  | c :: out' =>
      if bom_seen then (true, concat (map Utf8.utf16 out))
      else if c =? 65279 then (true, concat (map Utf8.utf16 out'))
      else (true, concat (map Utf8.utf16 out))
  end.

(** [decoder.decode(value, { stream: true })] *)
Definition decode_stream (d : TextDecoder) (value : list byte)
  : TextDecoder * jsstring :=
  let '(st, out) := Utf8.run (td_utf8 d) (map Byte.to_N value) in
  let '(seen, text) := serialize (td_bom_seen d) out in
  (MkTextDecoder st seen, text).

(** ** String literals

    [js] reads a source literal (UTF-8 bytes) as a JavaScript string; in
    [jsq] every apostrophe of the literal stands for a double quote. *)

Definition bytes (s : string) : list byte := list_byte_of_string s.

Definition js (s : string) : jsstring :=
  concat (map Utf8.utf16 (snd (Utf8.run Utf8.init (map Byte.to_N (bytes s))))).

Definition jsq (s : string) : jsstring :=
  map (fun c => if c =? 39 then 34 else c) (js s).

Arguments js : simpl never.
Arguments jsq : simpl never.

(** The same convention for the bytes of a response body. *)
Definition bytesq (s : string) : list byte :=
  map (fun b => if Byte.eqb b "'"%byte then x22 else b) (bytes s).

(** ** [String.prototype] methods used by the modules                     *)

Definition str_eqb (a b : jsstring) : bool := bool_decide (a = b).

(** [s.startsWith(p)] *)
Fixpoint startsWith (s p : jsstring) {struct p} : bool :=
  match p with
  | [] => true
  | x :: p' =>
      match s with
      | [] => false
      | c :: s' => (c =? x) && startsWith s' p'
      end
  end.

(** [s.slice(n)] for a non-negative [n] *)
Definition slice (n : nat) (s : jsstring) : jsstring := drop n s.

(** [s.split(sep)] for a separator of one code unit *)
Fixpoint split (sep : N) (s : jsstring) : list jsstring :=
  match s with
  | [] => [[]]
  | c :: s' =>
      if c =? sep then [] :: split sep s'
      else match split sep s' with
           | l :: ls => (c :: l) :: ls
           | [] => [[c]]
           end
  end.

Definition LF : N := 10.

(** WhiteSpace and LineTerminator code points: what [trim] strips and what
    the class [\s] of a regular expression matches. *)
Definition is_white_space (c : N) : bool :=
  (c =? 9) || (c =? 10) || (c =? 11) || (c =? 12) || (c =? 13) || (c =? 32)
  || (c =? 160) || (c =? 5760) || ((8192 <=? c) && (c <=? 8202))
  || (c =? 8232) || (c =? 8233) || (c =? 8239) || (c =? 8287)
  || (c =? 12288) || (c =? 65279).

Fixpoint trimStart (s : jsstring) : jsstring :=
  match s with
  | c :: s' => if is_white_space c then trimStart s' else s
  | [] => []
  end.

(** [s.trim()] *)
Definition trim (s : jsstring) : jsstring :=
  rev (trimStart (rev (trimStart s))).

(* ===================================================================== *)
(** * Numbers                                                            *)
(* ===================================================================== *)

(** A double: [(-1)^neg * m * 2^e], or an infinity.  [JSON.parse] never
    yields NaN.  Finite values are kept normalised: [m = 0], or
    [2^52 <= m < 2^53] with [-1074 <= e <= 971], or [m < 2^52] with
    [e = -1074]. *)
Inductive number : Type :=
| Finite (neg : bool) (m : N) (e : Z)
| Infinity (neg : bool).

Module Double.

Local Open Scope Z_scope.

(** [a / b] rounded to the nearest integer, ties to even ([0 < b]). *)
Definition div_nearest_even (a b : Z) : Z :=
  let q := a / b in
  let r := a mod b in
  if 2 * r <? b then q
  else if b <? 2 * r then q + 1
  else if Z.even q then q else q + 1.

(** The double nearest to the positive rational [p / q]. *)
Definition round_pos (neg : bool) (p q : Z) : number :=
  let d := Z.log2 p - Z.log2 q in
  (* 2^(d-1) < p/q < 2^(d+1): the binary exponent is d - 1 or d *)
  let below := if 0 <=? d then p <? q * 2 ^ d else p * 2 ^ (- d) <? q in
  let e1 := if below then d - 53 else d - 52 in
  let e := Z.max e1 (-1074) in
  let m := if 0 <=? e then div_nearest_even p (q * 2 ^ e)
           else div_nearest_even (p * 2 ^ (- e)) q in
  let '(m, e) := if m =? 2 ^ 53 then (2 ^ 52, e + 1) else (m, e) in
  if 971 <? e then Infinity neg
  else if m =? 0 then Finite neg 0 0
  else Finite neg (Z.to_N m) e.

(** The Number value of [(-1)^neg * m * 10^e]. *)
Definition of_decimal (neg : bool) (m : N) (e : Z) : number :=
  if (m =? 0)%N then Finite neg 0 0
  else if 0 <=? e then round_pos neg (Z.of_N m * 10 ^ e) 1
  else round_pos neg (Z.of_N m) (10 ^ (- e)).

Definition is_zero (x : number) : bool :=
  match x with
  | Finite _ m _ => (m =? 0)%N
  | Infinity _ => false
  end.

Definition num_eqb (x y : number) : bool :=
  match x, y with
  | Finite s m e, Finite s' m' e' =>
      Bool.eqb s s' && (m =? m')%N && (e =? e')
  | Infinity s, Infinity s' => Bool.eqb s s'
  | _, _ => false
  end.

(** Decimal digits of a natural number, most significant first. *)
Fixpoint digits_fuel (fuel : nat) (n : Z) (acc : jsstring) : jsstring :=
  match fuel with
  | O => acc
  | S fuel' =>
      let acc' := Z.to_N (48 + n mod 10) :: acc in
      if n <? 10 then acc' else digits_fuel fuel' (n / 10) acc'
  end.

Definition digits (n : Z) : jsstring :=
  digits_fuel (S (Z.to_nat (Z.log2 n))) n [].

(** The decimal position [n] of a positive rational: [10^(n-1) <= a/b < 10^n]. *)
Definition position (a b : Z) : Z :=
  let d := Z.of_nat (length (digits a)) - Z.of_nat (length (digits b)) in
  if 0 <=? d then (if b * 10 ^ d <=? a then d + 1 else d)
  else (if b <=? a * 10 ^ (- d) then d + 1 else d).

(** [s * 10^x] as the Number value it denotes ([0 < s]). *)
Definition of_scaled (s x : Z) : number :=
  of_decimal false (Z.to_N s) x.

(** The candidates with [k] digits next to [a / b], whose position is [n]:
    the result is the chosen [s], when one of them denotes [x]. *)
Definition candidate (x : number) (a b n k : Z) : option Z :=
  let sh := k - n in
  let '(num, den) := if 0 <=? sh then (a * 10 ^ sh, b) else (a, b * 10 ^ (- sh)) in
  let lo := num / den in
  let hi := lo + 1 in
  let ok_lo := (0 <? lo) && num_eqb (of_scaled lo (n - k)) x in
  let ok_hi := num_eqb (of_scaled hi (n - k)) x in
  (* distances to a/b, scaled by den: num - lo*den and hi*den - num *)
  let dlo := num - lo * den in
  let dhi := hi * den - num in
  match ok_lo, ok_hi with
  | true, true =>
      if dlo <? dhi then Some lo
      else if dhi <? dlo then Some hi
      else if Z.even lo then Some lo else Some hi
  | true, false => Some lo
  | false, true => Some hi
  | false, false => None
  end.

Fixpoint shortest (fuel : nat) (x : number) (a b n k : Z) : Z * Z :=
  match fuel with
  | O => (a / b, k)
  | S fuel' =>
      match candidate x a b n k with
      | Some s => (s, k)
      | None => shortest fuel' x a b n (k + 1)
      end
  end.

Definition zeros (n : Z) : jsstring := repeat 48%N (Z.to_nat n).

(** Number::toString of a positive finite double [m * 2^e]. *)
Definition to_string_pos (m : N) (e : Z) : jsstring :=
  let '(a, b) := if 0 <=? e then (Z.of_N m * 2 ^ e, 1) else (Z.of_N m, 2 ^ (- e)) in
  let n0 := position a b in
  let '(s0, k0) := shortest 17 (Finite false m e) a b n0 1 in
  (* a candidate equal to 10^k denotes 1 * 10^n with one digit *)
  let '(s, k, n) := if s0 =? 10 ^ k0 then (1, 1, n0 + 1) else (s0, k0, n0) in
  let ds := digits s in
  if (k <=? n) && (n <=? 21) then ds ++ zeros (n - k)
  else if (0 <? n) && (n <=? 21) then
    take (Z.to_nat n) ds ++ [46%N] ++ drop (Z.to_nat n) ds
  else if (-6 <? n) && (n <=? 0) then
    [48%N; 46%N] ++ zeros (- n) ++ ds
  else
    let ex := n - 1 in
    let sign := if 0 <=? ex then 43%N else 45%N in
    let mant := match ds with
                | d :: ((_ :: _) as rest) => d :: 46%N :: rest
                | _ => ds
                end in
    mant ++ [101%N; sign] ++ digits (Z.abs ex).

(** Number::toString *)
Definition to_string (x : number) : jsstring :=
  match x with
  | Finite neg m e =>
      if (m =? 0)%N then [48%N]
      else (if neg then [45%N] else []) ++ to_string_pos m e
  | Infinity neg =>
      (if neg then [45%N] else []) ++ js "Infinity"
  end.

End Double.

(* ===================================================================== *)
(** * Values                                                             *)
(* ===================================================================== *)

Inductive jsval : Type :=
| JUndefined
| JNull
| JBool (b : bool)
| JNumber (x : number)
| JString (s : jsstring)
| JArray (elems : list jsval)
| JObject (members : list (jsstring * jsval)).

Inductive exn : Type :=
| TypeError
| SyntaxError
| Error (message : jsstring).

(** The outcome of an evaluation that may throw. *)
Inductive completion (A : Type) : Type :=
| Normal (a : A)
| Throw (e : exn).
Arguments Normal {A} a.
Arguments Throw {A} e.

Definition bind {A B} (c : completion A) (f : A -> completion B) : completion B :=
  match c with
  | Normal a => f a
  | Throw e => Throw e
  end.

Notation "'let!' x ':=' c 'in' k" := (bind c (fun x => k))
  (at level 10, x name, c at level 100, k at level 200).

(** ToBoolean *)
Definition truthy (v : jsval) : bool :=
  match v with
  | JUndefined | JNull => false
  | JBool b => b
  | JNumber x => negb (Double.is_zero x)
  | JString s => negb (str_eqb s [])
  | JArray _ | JObject _ => true
  end.

Fixpoint join (sep : jsstring) (l : list jsstring) : jsstring :=
  match l with
  | [] => []
  | [s] => s
  | s :: l' => s ++ sep ++ join sep l'
  end.

(** The binding of [k] among the members of a parsed object: a later
    duplicate overrides an earlier one. *)
Fixpoint lookup_member (k : jsstring) (ms : list (jsstring * jsval)) : option jsval :=
  match ms with
  | [] => None
  | (k', v) :: ms' =>
      match lookup_member k ms' with
      | Some x => Some x
      | None => if str_eqb k' k then Some v else None
      end
  end.

(** ToString, which [s += v], [new Error(v)] and a property key [o[v]]
    apply to [v].  An array is joined with commas, its [null] and
    [undefined] elements contributing nothing.  An object is converted by
    its [toString]: the inherited one gives [[object Object]]; an own
    member of that name is no function in a value that [JSON.parse]
    yields, the inherited [valueOf] gives back the object, and the
    conversion throws a [TypeError]. *)
Fixpoint ToString (v : jsval) : completion jsstring :=
  match v with
  | JUndefined => Normal (js "undefined")
  | JNull => Normal (js "null")
  | JBool b => Normal (if b then js "true" else js "false")
  | JNumber x => Normal (Double.to_string x)
  | JString s => Normal s
  | JArray l =>
      let! parts :=
        (fix elements (l : list jsval) : completion (list jsstring) :=
           match l with
           | [] => Normal []
           | e :: l' =>
               let! s := match e with
                         | JUndefined | JNull => Normal []
                         | _ => ToString e
                         end in
               let! ss := elements l' in
               Normal (s :: ss)
           end) l in
      Normal (join [44] parts)
  | JObject ms =>
      match lookup_member (js "toString") ms with
      | Some _ => Throw TypeError
      | None => Normal (js "[object Object]")
      end
  end.

(** [a || b] *)
Definition or_else (a b : jsval) : jsval := if truthy a then a else b.

Definition is_digit (c : N) : bool := (48 <=? c) && (c <=? 57).

Definition number_of_digits (ds : jsstring) : N :=
  fold_left (fun acc d => 10 * acc + (d - 48)) ds 0.

(** A canonical array index: decimal digits without a leading zero. *)
Definition array_index (k : jsstring) : option nat :=
  match k with
  | [] => None
  | c :: r =>
      if forallb is_digit k && (negb (c =? 48) || str_eqb r [])
      then Some (N.to_nat (number_of_digits k)) else None
  end.

Definition number_of_nat (n : nat) : number :=
  Double.of_decimal false (N.of_nat n) 0.

(** [v[k]] for the property names the modules use (none of them names a
    method of a prototype): own properties of objects, elements and
    [length] of arrays and strings; [undefined] otherwise; a [TypeError] on
    [null] and [undefined]. *)
Definition get (v : jsval) (k : jsstring) : completion jsval :=
  match v with
  | JUndefined | JNull => Throw TypeError
  | JBool _ | JNumber _ => Normal JUndefined
  | JString s =>
      match array_index k with
      | Some i => Normal (match s !! i with Some c => JString [c] | None => JUndefined end)
      | None => if str_eqb k (js "length") then Normal (JNumber (number_of_nat (length s)))
                else Normal JUndefined
      end
  | JArray l =>
      match array_index k with
      | Some i => Normal (default JUndefined (l !! i))
      | None => if str_eqb k (js "length") then Normal (JNumber (number_of_nat (length l)))
                else Normal JUndefined
      end
  | JObject ms => Normal (default JUndefined (lookup_member k ms))
  end.

(** [v?.[k]] *)
Definition get_opt (v : jsval) (k : jsstring) : completion jsval :=
  match v with
  | JUndefined | JNull => Normal JUndefined
  | _ => get v k
  end.

(* ===================================================================== *)
(** * [JSON.parse]                                                       *)
(* ===================================================================== *)

Module JSON.

Definition is_ws (c : N) : bool :=
  (c =? 9) || (c =? 10) || (c =? 13) || (c =? 32).

Fixpoint skip_ws (s : jsstring) : jsstring :=
  match s with
  | c :: s' => if is_ws c then skip_ws s' else s
  | [] => []
  end.

Definition hex_digit (c : N) : option N :=
  if is_digit c then Some (c - 48)
  else if (97 <=? c) && (c <=? 102) then Some (c - 87)
  else if (65 <=? c) && (c <=? 70) then Some (c - 55)
  else None.

Definition hex4 (a b c d : N) : option N :=
  match hex_digit a, hex_digit b, hex_digit c, hex_digit d with
  | Some x, Some y, Some z, Some w => Some (4096 * x + 256 * y + 16 * z + w)
  | _, _, _, _ => None
  end.

Definition push (c : N) (r : option (jsstring * jsstring)) :=
  match r with
  | Some (t, rest) => Some (c :: t, rest)
  | None => None
  end.

(** The characters of a string literal after its opening quote, up to
    and including the closing quote. *)
Fixpoint parse_chars (s : jsstring) : option (jsstring * jsstring) :=
  match s with
  | [] => None
  | c :: r =>
      if c =? 34 then Some ([], r)
      else if c =? 92 then
        match r with
        | [] => None
        | e :: r' =>
            if e =? 34 then push 34 (parse_chars r')
            else if e =? 92 then push 92 (parse_chars r')
            else if e =? 47 then push 47 (parse_chars r')
            else if e =? 98 then push 8 (parse_chars r')
            else if e =? 102 then push 12 (parse_chars r')
            else if e =? 110 then push 10 (parse_chars r')
            else if e =? 114 then push 13 (parse_chars r')
            else if e =? 116 then push 9 (parse_chars r')
            else if e =? 117 then
              match r' with
              | a :: b :: c' :: d :: r'' =>
                  match hex4 a b c' d with
                  | Some u => push u (parse_chars r'')
                  | None => None
                  end
              | _ => None
              end
            else None
        end
      else if c <? 32 then None
      else push c (parse_chars r)
  end.

Fixpoint span_digits (s : jsstring) : jsstring * jsstring :=
  match s with
  | c :: s' =>
      if is_digit c then let '(ds, r) := span_digits s' in (c :: ds, r)
      else ([], s)
  | [] => ([], [])
  end.

(** The integer part: [0], or a non-zero digit followed by digits. *)
Definition parse_int (s : jsstring) : option (jsstring * jsstring) :=
  match s with
  | c :: s' =>
      if c =? 48 then Some ([c], s')
      else if is_digit c then let '(ds, r) := span_digits s' in Some (c :: ds, r)
      else None
  | [] => None
  end.

Definition parse_frac (s : jsstring) : option (jsstring * jsstring) :=
  match s with
  | c :: s' =>
      if c =? 46 then
        match span_digits s' with
        | ([], _) => None
        | (ds, r) => Some (ds, r)
        end
      else Some ([], s)
  | [] => Some ([], [])
  end.

Definition parse_exp (s : jsstring) : option (Z * jsstring) :=
  match s with
  | c :: s' =>
      if (c =? 101) || (c =? 69) then
        let '(neg, s'') :=
          match s' with
          | g :: t => if g =? 45 then (true, t)
                      else if g =? 43 then (false, t) else (false, s')
          | [] => (false, s')
          end in
        match span_digits s'' with
        | ([], _) => None
        | (ds, r) =>
            let x := Z.of_N (number_of_digits ds) in
            Some (if neg then (- x)%Z else x, r)
        end
      else Some (0%Z, s)
  | [] => Some (0%Z, [])
  end.

Definition parse_number (s : jsstring) : option (number * jsstring) :=
  let '(neg, s1) := match s with
                    | c :: t => if c =? 45 then (true, t) else (false, s)
                    | [] => (false, s)
                    end in
  match parse_int s1 with
  | None => None
  | Some (ip, s2) =>
      match parse_frac s2 with
      | None => None
      | Some (fp, s3) =>
          match parse_exp s3 with
          | None => None
          | Some (ex, s4) =>
              Some (Double.of_decimal neg (number_of_digits (ip ++ fp))
                      (ex - Z.of_nat (length fp)), s4)
          end
      end
  end.

Definition parse_literal (s : jsstring) : option (jsval * jsstring) :=
  if startsWith s (js "true") then Some (JBool true, drop 4 s)
  else if startsWith s (js "false") then Some (JBool false, drop 5 s)
  else if startsWith s (js "null") then Some (JNull, drop 4 s)
  else None.

(** A value, after optional whitespace.  [parse_elements] reads the
    elements of a non-empty array up to and including its closing
    bracket, [parse_members] the members of a non-empty object. *)
Fixpoint parse_value (fuel : nat) (s : jsstring) : option (jsval * jsstring) :=
  match fuel with
  | O => None
  | S fuel' =>
      match skip_ws s with
      | [] => None
      | c :: r =>
          if c =? 34 then
            match parse_chars r with
            | Some (t, rest) => Some (JString t, rest)
            | None => None
            end
          else if c =? 91 then
            match skip_ws r with
            | c' :: r' =>
                if c' =? 93 then Some (JArray [], r')
                else match parse_elements fuel' r with
                     | Some (vs, rest) => Some (JArray vs, rest)
                     | None => None
                     end
            | [] => None
            end
          else if c =? 123 then
            match skip_ws r with
            | c' :: r' =>
                if c' =? 125 then Some (JObject [], r')
                else match parse_members fuel' r with
                     | Some (ms, rest) => Some (JObject ms, rest)
                     | None => None
                     end
            | [] => None
            end
          else if (c =? 45) || is_digit c then
            match parse_number (c :: r) with
            | Some (x, rest) => Some (JNumber x, rest)
            | None => None
            end
          else parse_literal (c :: r)
      end
  end
with parse_elements (fuel : nat) (s : jsstring) : option (list jsval * jsstring) :=
  match fuel with
  | O => None
  | S fuel' =>
      match parse_value fuel' s with
      | None => None
      | Some (v, r) =>
          match skip_ws r with
          | c :: r' =>
              if c =? 44 then
                match parse_elements fuel' r' with
                | Some (vs, rest) => Some (v :: vs, rest)
                | None => None
                end
              else if c =? 93 then Some ([v], r')
              else None
          | [] => None
          end
      end
  end
with parse_members (fuel : nat) (s : jsstring)
  : option (list (jsstring * jsval) * jsstring) :=
  match fuel with
  | O => None
  | S fuel' =>
      match skip_ws s with
      | q :: r0 =>
          if q =? 34 then
            match parse_chars r0 with
            | None => None
            | Some (k, r1) =>
                match skip_ws r1 with
                | c1 :: r2 =>
                    if c1 =? 58 then
                      match parse_value fuel' r2 with
                      | None => None
                      | Some (v, r3) =>
                          match skip_ws r3 with
                          | c :: r4 =>
                              if c =? 44 then
                                match parse_members fuel' r4 with
                                | Some (ms, rest) => Some ((k, v) :: ms, rest)
                                | None => None
                                end
                              else if c =? 125 then Some ([(k, v)], r4)
                              else None
                          | [] => None
                          end
                      end
                    else None
                | [] => None
                end
            end
          else None
      | [] => None
      end
  end.

(** [JSON.parse(text)]: [None] stands for the [SyntaxError]. *)
Definition parse (text : jsstring) : option jsval :=
  match parse_value (2 * length text + 2) text with
  | Some (v, rest) =>
      match skip_ws rest with
      | [] => Some v
      | _ :: _ => None
      end
  | None => None
  end.

End JSON.

(* ===================================================================== *)
(** * Regular expressions (backtracking matcher)                         *)
(* ===================================================================== *)

Module RegExp.

Inductive regex : Type :=
  | Lit (c : N)                (* one literal code unit *)
  | Class (p : N -> bool)      (* a character class *)
  | Seq (r1 r2 : regex)
  | Opt (r : regex)            (* r?  greedy *)
  | Star (r : regex)           (* r*  greedy *)
  | LazyStar (r : regex)       (* r*? *)
  | Group (r : regex).         (* capturing group 1 *)

Section Matcher.
Context {X : Type}.

(** A continuation receives the rest of the input and the capture. *)
Definition cont : Type := jsstring -> option jsstring -> option X.

Definition shorter (s' s : jsstring) : bool := Nat.ltb (length s') (length s).

(** [rmatch r s cap k]: the first way, in backtracking order, of
  matching [r] at the head of [s] for which [k] succeeds on what
  follows.  An iteration of a star that consumes nothing is rejected. *)
Fixpoint rmatch (r : regex) (s : jsstring) (cap : option jsstring) (k : cont)
  : option X :=
  match r with
  | Lit c =>
    match s with
    | x :: s' => if x =? c then k s' cap else None
    | [] => None
    end
  | Class p =>
    match s with
    | x :: s' => if p x then k s' cap else None
    | [] => None
    end
  | Seq r1 r2 => rmatch r1 s cap (fun s' cap' => rmatch r2 s' cap' k)
  | Opt r1 =>
    match rmatch r1 s cap k with
    | Some x => Some x
    | None => k s cap
    end
  | Star r1 =>
    (fix star (n : nat) (s : jsstring) (cap : option jsstring) : option X :=
       match n with
       | O => k s cap
       | S n' =>
           match rmatch r1 s cap
                   (fun s' cap' => if shorter s' s then star n' s' cap' else None)
           with
           | Some x => Some x
           | None => k s cap
           end
       end) (length s) s cap
  | LazyStar r1 =>
    (fix lazy (n : nat) (s : jsstring) (cap : option jsstring) : option X :=
       match k s cap with
       | Some x => Some x
       | None =>
           match n with
           | O => None
           | S n' =>
               rmatch r1 s cap
                 (fun s' cap' => if shorter s' s then lazy n' s' cap' else None)
           end
       end) (length s) s cap
  | Group r1 =>
    rmatch r1 s cap
      (fun s' _ => k s' (Some (take (length s - length s') s)))
  end.
End Matcher.

(** The literal text [c :: l]. *)
Fixpoint lits (c : N) (l : jsstring) : regex :=
  match l with
  | [] => Lit c
  | c' :: l' => Seq (Lit c) (lits c' l')
  end.

(** [s.match(r)] for a non-global [r]: the capture of the leftmost match
    ([Some None] when the group took no part in it). *)
Fixpoint exec (r : regex) (s : jsstring) : option (option jsstring) :=
  match rmatch r s None (fun _ cap => Some cap) with
  | Some cap => Some cap
  | None =>
      match s with
      | [] => None
      | _ :: s' => exec r s'
      end
  end.

End RegExp.

(* ===================================================================== *)
(** * Host services taken as given                                       *)
(* ===================================================================== *)

Definition ascii_lower (c : N) : N :=
  if (65 <=? c) && (c <=? 90) then c + 32 else c.

(** The parts of the platform that are tables rather than algorithms: the
    Unicode lower-casing of [String.prototype.toLowerCase], known here only
    through its action on ASCII text, and the URL parser, known through the
    query-parameter names of a URL ([None] when [new URL(url)] throws). *)
Class Host : Type := {
  toLowerCase : jsstring -> jsstring;
  toLowerCase_ascii :
    forall s, forallb (fun c => c <? 128) s = true -> toLowerCase s = map ascii_lower s;
  searchParams_keys : jsstring -> option (list jsstring)
}.

(** A host that lower-cases ASCII letters only and parses no URL: enough
    to run the modules on ASCII input. *)
Definition ascii_host : Host :=
  {| toLowerCase := map ascii_lower;
     toLowerCase_ascii := fun _ _ => eq_refl;
     searchParams_keys := fun _ => None |}.

(* ===================================================================== *)
(** * The environment of a call                                          *)
(* ===================================================================== *)

(** An integer literal of the source as a Number value. *)
Definition num (n : N) : number := Double.of_decimal false n 0.

(** The second argument of [fetch]; [body] is the object handed to
    [JSON.stringify]. *)
Record Request : Type := MkRequest {
  url : jsstring;
  method : jsstring;
  headers : list (jsstring * jsstring);
  body : jsval
}.

(** The body of a response as its reader hands it over: the chunks of the
    [read()] calls that deliver one, in order, and how the reads end: with
    [done], or with a rejection (a connection lost part-way). *)
Record Body : Type := MkBody {
  chunks : list (list byte);
  ending : completion unit
}.

(** What the modules observe of a [Response]: its [ok] flag, the outcome of
    [response.json()], and [response.body], which is [null] for a response
    without a body. *)
Record Response : Type := MkResponse {
  ok : bool;
  json : completion jsval;
  response_body : option Body
}.

(** The network: the outcome of awaiting [fetch]. *)
Definition Network : Type := Request -> completion Response.

(** [localStorage] *)
Abbreviation Storage := (gmap jsstring jsstring).

(** What the category mapping holds for a request index. *)
Record CategoryFields : Type := MkFields {
  f_category : jsval;
  f_confidence : jsval;
  f_reasoning : jsval;
  f_icon : jsval
}.

(** The category mapping, an object created as [{}]: its own properties,
    and its prototype once an assignment under [__proto__] has replaced
    [Object.prototype] ([None] stands for [Object.prototype]). *)
Record CategoryMap : Type := MkCategoryMap {
  entries : gmap jsstring CategoryFields;
  prototype : option CategoryFields
}.

(** The argument of an [onProgress] call: its [status] and payload. *)
Inductive progress : Type :=
| BuildingPrompt (count : nat)
| Analyzing (count : nat)
| Streaming (text : jsstring)
| Parsing (text : jsstring)
| Complete (categories : CategoryMap).

(** What a call does to the outside, in order. *)
Inductive event : Type :=
| Fetch (r : Request)
| OnUpdate (text : jsstring)
| OnProgress (p : progress).

(** A computation over a mutable state that may throw.  What was done to
    the state before a throw stays done. *)
Definition M (S A : Type) : Type := S -> S * completion A.

Definition ret {S A} (a : A) : M S A := fun s => (s, Normal a).

Definition throw {S A} (e : exn) : M S A := fun s => (s, Throw e).

Definition bindM {S A B} (m : M S A) (f : A -> M S B) : M S B :=
  fun s => match m s with
           | (s', Normal a) => f a s'
           | (s', Throw e) => (s', Throw e)
           end.

Definition lift {S A} (c : completion A) : M S A := fun s => (s, c).

(** [try { m } catch (e) { }] *)
Definition try_ignore {S} (m : M S unit) : M S unit :=
  fun s => (fst (m s), Normal tt).

Notation "'do!' x ':=' c 'in' k" := (bindM c (fun x => k))
  (at level 10, x name, c at level 100, k at level 200).
Notation "c ';;;' k" := (bindM c (fun _ => k))
  (at level 100, k at level 200, right associativity).

(** [for (const x of l) { f x }] *)
Fixpoint for_of {S A} (l : list A) (f : A -> M S unit) : M S unit :=
  match l with
  | [] => ret tt
  | x :: l' => f x ;;; for_of l' f
  end.

(* ===================================================================== *)
(** * js/modules/ai.js                                                   *)
(* ===================================================================== *)

Record AISettings : Type := MkSettings {
  provider : jsstring;
  apiKey : jsstring;
  model : jsstring
}.

(** [localStorage.getItem(k) || d] *)
Definition getItem_or (ls : Storage) (k d : jsstring) : jsstring :=
  match ls !! k with
  | Some v => if str_eqb v [] then d else v
  | None => d
  end.

Definition getAISettings (ls : Storage) : AISettings :=
  let provider := getItem_or ls (js "ai_provider") (js "anthropic") in
  if str_eqb provider (js "gemini") then
    MkSettings (js "gemini")
               (getItem_or ls (js "gemini_api_key") [])
               (getItem_or ls (js "gemini_model") (js "gemini-flash-latest"))
  else
    MkSettings (js "anthropic")
               (getItem_or ls (js "anthropic_api_key") [])
               (getItem_or ls (js "anthropic_model") (js "claude-3-5-sonnet-20241022")).

Definition saveAISettings (provider apiKey model : jsstring) (ls : Storage) : Storage :=
  let ls := <[js "ai_provider" := provider]> ls in
  if str_eqb provider (js "gemini") then
    <[js "gemini_model" := model]> (<[js "gemini_api_key" := apiKey]> ls)
  else
    <[js "anthropic_model" := model]> (<[js "anthropic_api_key" := apiKey]> ls).

(** ** The state of one streaming call *)

Record stream : Type := MkStream {
  fullText : jsstring;          (* let fullText = '' *)
  updates : list jsstring       (* the arguments of the onUpdate calls so far *)
}.

(** [fullText += v; onUpdate(fullText);]: when [v] cannot be converted
    the addition throws and nothing is assigned. *)
Definition append_delta (v : jsval) : M stream unit :=
  fun st =>
    match ToString v with
    | Normal text =>
        let fullText' := fullText st ++ text in
        (MkStream fullText' (updates st ++ [fullText']), Normal tt)
    | Throw e => (st, Throw e)
    end.

Definition JSON_parse {S} (text : jsstring) : M S jsval :=
  match JSON.parse text with
  | Some v => ret v
  | None => throw SyntaxError
  end.

(** [a === 'str'] *)
Definition is_string (v : jsval) (s : jsstring) : bool :=
  match v with
  | JString t => str_eqb t s
  | _ => false
  end.

(** ** Anthropic *)

Definition explain_system_prompt : jsstring :=
  js "You are an expert security researcher and web developer. Explain the following HTTP request in detail, highlighting interesting parameters, potential security implications, and what this request is likely doing. Be concise but thorough.".

Definition anthropic_headers (apiKey : jsstring) : list (jsstring * jsstring) :=
  [ (js "x-api-key", apiKey);
    (js "anthropic-version", js "2023-06-01");
    (js "content-type", js "application/json");
    (js "anthropic-dangerous-direct-browser-access", js "true") ].

Definition anthropic_request (apiKey model : jsstring) (max_tokens : N)
    (system content : jsstring) : Request :=
  MkRequest (js "https://api.anthropic.com/v1/messages") (js "POST")
    (anthropic_headers apiKey)
    (JObject
       [ (js "model", JString model);
         (js "max_tokens", JNumber (num max_tokens));
         (js "system", JString system);
         (js "stream", JBool true);
         (js "messages",
           JArray [JObject [ (js "role", JString (js "user"));
                             (js "content", JString content) ]]) ]).

(** The body of [for (const line of lines)] in both Anthropic readers. *)
Definition claude_line (line : jsstring) : M stream unit :=
  if startsWith line (js "data: ") then
    let dataStr := slice 6 line in
    if str_eqb dataStr (js "[DONE]") then ret tt
    else
      try_ignore
        (do! data := JSON_parse dataStr in
         do! type := lift (get data (js "type")) in
         if is_string type (js "content_block_delta") then
           do! delta := lift (get data (js "delta")) in
           do! text := lift (get delta (js "text")) in
           if truthy text then append_delta text else ret tt
         else ret tt)
  else ret tt.

(** The read loop: [while (true) { read; if (done) break; decode; split;
    for ... }], over the chunks the reader delivers; the read after the
    last chunk reports [done], or is rejected and the rejection leaves the
    loop. *)
Fixpoint read_loop (on_line : jsstring -> M stream unit)
    (decoder : TextDecoder) (chunks : list (list byte)) (ending : completion unit)
  : M stream unit :=
  match chunks with
  | [] => lift ending
  | value :: rest =>
      let '(decoder', chunk) := decode_stream decoder value in
      let lines := split LF chunk in
      for_of lines on_line ;;; read_loop on_line decoder' rest ending
  end.

(** [new Error(errorData.error?.message || fallback)]: the [Error] to
    throw, unless building it throws. *)
Definition api_error (errorData : jsval) (fallback : jsstring) : completion exn :=
  let! error := get errorData (js "error") in
  let! message := get_opt error (js "message") in
  let! text := ToString (or_else message (JString fallback)) in
  Normal (Error text).

(** The result of a streaming entry point: what it did, and how it ended. *)
Record outcome : Type := MkOutcome {
  events : list event;
  result : completion jsstring
}.

(** The part every entry point shares after building its request: the
    status check and the read loop. *)
Definition stream_response (net : Network) (req : Request)
    (fallback : jsstring) (on_line : jsstring -> M stream unit) : outcome :=
  match net req with
  | Throw e => MkOutcome [Fetch req] (Throw e)
  | Normal response =>
      if negb (ok response) then
        MkOutcome [Fetch req]
          (match (let! errorData := json response in api_error errorData fallback) with
           | Normal e => Throw e
           | Throw e => Throw e
           end)
      else
        match response_body response with
        | None => MkOutcome [Fetch req] (Throw TypeError)   (* null.getReader() *)
        | Some body =>
            let '(st, r) := read_loop on_line new_TextDecoder (chunks body) (ending body)
                              (MkStream [] []) in
            MkOutcome (Fetch req :: map OnUpdate (updates st))
              (match r with
               | Normal _ => Normal (fullText st)
               | Throw e => Throw e
               end)
        end
  end.

Definition anthropic_fallback : jsstring := js "Failed to communicate with Anthropic API".

Definition streamExplanationFromClaude (net : Network)
    (apiKey model request : jsstring) : outcome :=
  stream_response net
    (anthropic_request apiKey model 1024 explain_system_prompt
       (js "Explain this HTTP request:" ++ [LF; LF] ++ request))
    anthropic_fallback claude_line.

Definition streamExplanationFromClaudeWithSystem (net : Network)
    (apiKey model systemPrompt userPrompt : jsstring) : outcome :=
  stream_response net
    (anthropic_request apiKey model 2048 systemPrompt userPrompt)
    anthropic_fallback claude_line.

(** ** Gemini *)

Definition gemini_request (apiKey model : jsstring) (maxOutputTokens : N)
    (prompt : jsstring) : Request :=
  MkRequest
    (js "https://generativelanguage.googleapis.com/v1beta/models/" ++ model
       ++ js ":streamGenerateContent?alt=sse&key=" ++ apiKey)
    (js "POST")
    [ (js "Content-Type", js "application/json") ]
    (JObject
       [ (js "contents",
           JArray [JObject [ (js "parts",
                               JArray [JObject [ (js "text", JString prompt) ]]) ]]);
         (js "generationConfig",
           JObject [ (js "temperature", JNumber (Double.of_decimal false 7 (-1)));
                     (js "maxOutputTokens", JNumber (num maxOutputTokens)) ]) ]).

Definition is_high_surrogate (c : N) : bool := (55296 <=? c) && (c <=? 56319).
Definition is_low_surrogate (c : N) : bool := (56320 <=? c) && (c <=? 57343).

(** The code points of a string, as its iterator yields them. *)
Fixpoint code_points (s : jsstring) : list jsstring :=
  match s with
  | [] => []
  | c :: s' =>
      match s' with
      | d :: s'' =>
          if is_high_surrogate c && is_low_surrogate d then [c; d] :: code_points s''
          else [c] :: code_points s'
      | [] => [[c]]
      end
  end.

(** The values [for (const x of v)] goes through; only arrays and strings
    are iterable among the values [JSON.parse] yields. *)
Definition iterate (v : jsval) : completion (list jsval) :=
  match v with
  | JArray l => Normal l
  | JString s => Normal (map JString (code_points s))
  | _ => Throw TypeError
  end.

(** The body of [for (const line of lines)] in both Gemini readers. *)
Definition gemini_line (line : jsstring) : M stream unit :=
  if startsWith line (js "data: ") then
    let dataStr := trim (slice 6 line) in
    if str_eqb dataStr [] then ret tt
    else
      try_ignore
        (do! data := JSON_parse dataStr in
         do! candidates := lift (get data (js "candidates")) in
         if truthy candidates then
           do! first := lift (get candidates (js "0")) in
           do! content := lift (get_opt first (js "content")) in
           do! parts := lift (get_opt content (js "parts")) in
           if truthy parts then
             do! items := lift (iterate parts) in
             for_of items (fun part =>
               do! text := lift (get part (js "text")) in
               if truthy text then append_delta text else ret tt)
           else ret tt
         else ret tt)
  else ret tt.

Definition gemini_fallback : jsstring := js "Failed to communicate with Gemini API".

Definition streamExplanationFromGemini (net : Network)
    (apiKey model request : jsstring) : outcome :=
  let prompt := explain_system_prompt ++ [LF; LF]
                  ++ js "Explain this HTTP request:" ++ [LF; LF] ++ request in
  stream_response net (gemini_request apiKey model 2048 prompt)
    gemini_fallback gemini_line.

Definition streamExplanationFromGeminiWithSystem (net : Network)
    (apiKey model systemPrompt userPrompt : jsstring) : outcome :=
  let combinedPrompt := systemPrompt ++ [LF; LF] ++ userPrompt in
  stream_response net (gemini_request apiKey model 4096 combinedPrompt)
    gemini_fallback gemini_line.

(** ** Dispatch on the provider *)

Definition streamExplanation (net : Network)
    (apiKey model request provider : jsstring) : outcome :=
  if str_eqb provider (js "gemini")
  then streamExplanationFromGemini net apiKey model request
  else streamExplanationFromClaude net apiKey model request.

Definition streamExplanationWithSystem (net : Network)
    (apiKey model systemPrompt userPrompt provider : jsstring) : outcome :=
  if str_eqb provider (js "gemini")
  then streamExplanationFromGeminiWithSystem net apiKey model systemPrompt userPrompt
  else streamExplanationFromClaudeWithSystem net apiKey model systemPrompt userPrompt.

(* ===================================================================== *)
(** * [JSON.stringify(value, null, 2)]                                   *)
(* ===================================================================== *)

Module Stringify.

Definition hex (d : N) : N := if d <? 10 then 48 + d else 87 + d.

(** [\uXXXX] with lower-case digits *)
Definition unicode_escape (c : N) : jsstring :=
  [92; 117; hex (N.shiftr c 12); hex (N.land (N.shiftr c 8) 15);
   hex (N.land (N.shiftr c 4) 15); hex (N.land c 15)].

Definition escape (c : N) : jsstring :=
  if c =? 8 then [92; 98]
  else if c =? 9 then [92; 116]
  else if c =? 10 then [92; 110]
  else if c =? 12 then [92; 102]
  else if c =? 13 then [92; 114]
  else if c =? 34 then [92; 34]
  else if c =? 92 then [92; 92]
  else if c <? 32 then unicode_escape c
  else if is_high_surrogate c || is_low_surrogate c then unicode_escape c
  else [c].

(** QuoteJSONString: a well-formed surrogate pair is kept as it is. *)
Definition quote (s : jsstring) : jsstring :=
  [34] ++ concat (map (fun cp => match cp with
                                 | [c] => escape c
                                 | _ => cp
                                 end) (code_points s)) ++ [34].

Definition gap : jsstring := [32; 32].

Definition is_undefined (v : jsval) : bool :=
  match v with JUndefined => true | _ => false end.

(** The text of a value at the given indentation; the members of an
    object are taken in the order of its member list. *)
Fixpoint value (indent : jsstring) (v : jsval) : jsstring :=
  match v with
  | JUndefined | JNull => js "null"
  | JBool b => if b then js "true" else js "false"
  | JNumber (Infinity _) => js "null"
  | JNumber x => Double.to_string x
  | JString s => quote s
  | JArray l =>
      match l with
      | [] => js "[]"
      | _ :: _ =>
          let inner := indent ++ gap in
          [91; LF] ++ inner
            ++ join ([44; LF] ++ inner) (map (value inner) l)
            ++ [LF] ++ indent ++ [93]
      end
  | JObject ms =>
      let inner := indent ++ gap in
      let props :=
        omap (fun kv => match kv with
                        | (k, x) => if is_undefined x then None
                                    else Some (quote k ++ [58; 32] ++ value inner x)
                        end) ms in
      match props with
      | [] => js "{}"
      | _ :: _ =>
          [123; LF] ++ inner ++ join ([44; LF] ++ inner) props
            ++ [LF] ++ indent ++ [125]
      end
  end.

Definition stringify (v : jsval) : jsstring := value [] v.

End Stringify.

(* ===================================================================== *)
(** * js/modules/attack-surface.js                                       *)
(* ===================================================================== *)

(** The request objects handed to the module: captured entries whose
    [request] may be absent, as may its [url], [method] and [headers]. *)
Record Header : Type := MkHeader {
  name : jsstring;
  value : jsstring
}.

Record HttpRequest : Type := MkHttpRequest {
  r_url : option jsstring;
  r_method : option jsstring;
  r_headers : option (list Header)
}.

Record Entry : Type := MkEntry {
  request : option HttpRequest
}.

(** [x || d] for an optional string [x] *)
Definition str_or (x : option jsstring) (d : jsstring) : jsstring :=
  match x with
  | Some s => if str_eqb s [] then d else s
  | None => d
  end.

Record Summary : Type := MkSummary {
  s_index : nat;
  s_method : jsstring;
  s_path : jsstring;
  s_params : list jsstring;
  s_headers : list jsstring
}.

Definition sensitive_headers : list jsstring :=
  [ js "cookie"; js "authorization"; js "x-api-key" ].

(** [list.includes(s)] *)
Definition includes (l : list jsstring) (s : jsstring) : bool :=
  existsb (str_eqb s) l.

Section AttackSurface.
Context `{Host}.

(** The callback of [requests.map((req, idx) => ...)]. *)
Definition summarize (req : Entry) (idx : nat) : Summary :=
  let url := str_or (mbind r_url (request req)) [] in
  let method := str_or (mbind r_method (request req)) (js "GET") in
  let params := default [] (searchParams_keys url) in
  let headerNames := default [] (map name <$> mbind r_headers (request req)) in
  MkSummary idx method
    (hd [] (split 63 url))
    params
    (List.filter (fun h => negb (includes sensitive_headers (toLowerCase h))) headerNames).

Definition requestSummaries (requests : list Entry) : list Summary :=
  imap (fun idx req => summarize req idx) requests.

Definition summary_json (s : Summary) : jsval :=
  JObject [ (js "index", JNumber (number_of_nat (s_index s)));
            (js "method", JString (s_method s));
            (js "path", JString (s_path s));
            (js "params", JArray (map JString (s_params s)));
            (js "headers", JArray (map JString (s_headers s))) ].

(** The text of the prompt before the request summaries, line by line. *)
Definition prompt_head : list jsstring :=
  [ js "Analyze these HTTP requests and group them into security-relevant attack surface categories.";
    [];
    js "IMPORTANT: Create categories dynamically based on what you see in the requests. Don't use a predefined list.";
    [];
    js "Common patterns to look for:";
    js "- Authentication & session management";
    js "- User data & personal information";
    js "- File operations & media handling";
    js "- Administrative & privileged functions";
    js "- Financial & payment operations";
    js "- Third-party integrations";
    js "- Analytics & tracking";
    js "- API endpoints & data operations";
    js "- Static resources";
    [];
    js "For each request, provide:";
    jsq "1. category: A clear, descriptive category name (e.g., 'User Authentication', 'Payment Processing', 'Admin Panel')";
    jsq "2. confidence: 'high', 'medium', or 'low'";
    js "3. reasoning: Brief explanation (max 15 words)";
    js "4. icon: A single emoji that represents the category (e.g., 🔐 for auth, 💳 for payments)";
    [];
    js "Create NEW categories as needed based on the actual functionality you observe.";
    [];
    js "Requests:" ].

(** The text of the prompt after the request summaries, line by line. *)
Definition prompt_tail : list jsstring :=
  [ [];
    js "Output ONLY valid JSON array in this exact format:";
    js "[";
    js "  {";
    jsq "    'index': 0,";
    jsq "    'category': 'User Authentication',";
    jsq "    'confidence': 'high',";
    jsq "    'reasoning': 'Login endpoint with credentials',";
    jsq "    'icon': '🔐'";
    js "  }";
    js "]" ].

Definition buildAnalysisPrompt (requests : list Entry) : jsstring :=
  join [LF] prompt_head ++ [LF]
    ++ Stringify.stringify (JArray (map summary_json (requestSummaries requests)))
    ++ [LF] ++ join [LF] prompt_tail.

End AttackSurface.

(** ** parseCategories *)

Record CategoryRecord : Type := MkCategory {
  index : jsval;
  category : jsval;
  confidence : jsval;
  reasoning : jsval;
  icon : jsval
}.

(** [/```(?:json)?\s*([\s\S]*?)\s*```/] *)
Definition fence_re : RegExp.regex :=
  let fence := RegExp.lits 96 [96; 96] in
  let space := RegExp.Class is_white_space in
  let any := RegExp.Class (fun _ => true) in
  RegExp.Seq fence
    (RegExp.Seq (RegExp.Opt (RegExp.lits 106 (js "son")))
       (RegExp.Seq (RegExp.Star space)
          (RegExp.Seq (RegExp.Group (RegExp.LazyStar any))
             (RegExp.Seq (RegExp.Star space) fence)))).

(** The callback of [categories.map(cat => ...)]. *)
Definition category_record (cat : jsval) : completion CategoryRecord :=
  let! index := get cat (js "index") in
  let! category := get cat (js "category") in
  let! confidence := get cat (js "confidence") in
  let! reasoning := get cat (js "reasoning") in
  let! icon := get cat (js "icon") in
  Normal (MkCategory index
            (or_else category (JString (js "Uncategorized")))
            (or_else confidence (JString (js "low")))
            (or_else reasoning (JString (js "No reasoning provided")))
            (or_else icon (JString (js "❓")))).

(** [l.map(f)] for a callback that may throw *)
Fixpoint map_throwing {A B} (f : A -> completion B) (l : list A) : completion (list B) :=
  match l with
  | [] => Normal []
  | x :: l' =>
      let! y := f x in
      let! ys := map_throwing f l' in
      Normal (y :: ys)
  end.

(** The text handed to [JSON.parse]: the trimmed response, or the capture
    of the fence when the pattern matches. *)
Definition fence_strip (response : jsstring) : jsstring :=
  let jsonText := trim response in
  match RegExp.exec fence_re jsonText with
  | Some jsonMatch => default (js "undefined") jsonMatch
  | None => jsonText
  end.

(** The [try] block of [parseCategories]. *)
Definition parseCategories_try (response : jsstring) : completion (list CategoryRecord) :=
  match JSON.parse (fence_strip response) with
  | None => Throw SyntaxError
  | Some (JArray categories) => map_throwing category_record categories
  | Some _ => Throw (Error (js "Response is not an array"))
  end.

(** The [catch] block logs and returns the empty array. *)
Definition parseCategories (response : jsstring) : list CategoryRecord :=
  match parseCategories_try response with
  | Normal categories => categories
  | Throw _ => []
  end.

(** ** analyzeAttackSurface *)

Definition analysis_system_prompt : jsstring :=
  join [LF]
    [ js "You are a security expert analyzing web application attack surfaces. ";
      js "Categorize HTTP requests based on their functionality and security implications.";
      js "Be precise and consistent. Output ONLY valid JSON." ].

Definition fields_of (cat : CategoryRecord) : CategoryFields :=
  MkFields (category cat) (confidence cat) (reasoning cat) (icon cat).

(** [categoryMap[key] = fields]: an own property, except under
    [__proto__], where the setter inherited from [Object.prototype] makes
    [fields] the prototype of the mapping and no property is added. *)
Definition assign (categoryMap : CategoryMap) (key : jsstring) (fields : CategoryFields)
  : CategoryMap :=
  if str_eqb key (js "__proto__")
  then MkCategoryMap (entries categoryMap) (Some fields)
  else MkCategoryMap (<[key := fields]> (entries categoryMap)) (prototype categoryMap).

(** [categories.forEach(cat => { categoryMap[cat.index] = {...}; })]: the
    property key is the string of [cat.index]; an index that cannot be
    converted throws and ends the loop. *)
Fixpoint forEach_assign (categories : list CategoryRecord) (categoryMap : CategoryMap)
  : completion CategoryMap :=
  match categories with
  | [] => Normal categoryMap
  | cat :: categories' =>
      let! key := ToString (index cat) in
      forEach_assign categories' (assign categoryMap key (fields_of cat))
  end.

(** [const categoryMap = {}; categories.forEach(...)] *)
Definition categoryMap_of (categories : list CategoryRecord) : completion CategoryMap :=
  forEach_assign categories (MkCategoryMap ∅ None).

Record analysis : Type := MkAnalysis {
  a_events : list event;
  a_result : completion CategoryMap
}.

(** [if (onProgress) onProgress(p)] *)
Definition report (onProgress : bool) (p : progress) : list event :=
  if onProgress then [OnProgress p] else [].

(** What the callback given to [streamExplanationWithSystem] makes of the
    events of the streaming call: it stores the text in [fullResponse] and
    reports it. *)
Fixpoint relay (onProgress : bool) (evs : list event) (fullResponse : jsstring)
  : list event * jsstring :=
  match evs with
  | [] => ([], fullResponse)
  | OnUpdate text :: evs' =>
      let '(out, final) := relay onProgress evs' text in
      (report onProgress (Streaming text) ++ out, final)
  | e :: evs' =>
      let '(out, final) := relay onProgress evs' fullResponse in
      (e :: out, final)
  end.

Section Orchestration.
Context `{Host}.

Definition analyzeAttackSurface (ls : Storage) (net : Network)
    (requests : list Entry) (onProgress : bool) : analysis :=
  let settings := getAISettings ls in
  if str_eqb (apiKey settings) [] then
    MkAnalysis []
      (Throw (Error (js "AI API key not configured. Please set it in Settings.")))
  else
    let batchSize := 50%nat in
    let requestBatch := take batchSize requests in
    let ev1 := report onProgress (BuildingPrompt (length requestBatch)) in
    let prompt := buildAnalysisPrompt requestBatch in
    let ev2 := report onProgress (Analyzing (length requestBatch)) in
    let call := streamExplanationWithSystem net (apiKey settings) (model settings)
                  analysis_system_prompt prompt (provider settings) in
    let '(ev3, fullResponse) := relay onProgress (events call) [] in
    match result call with
    | Throw e => MkAnalysis (ev1 ++ ev2 ++ ev3) (Throw e)
    | Normal _ =>
        let ev4 := report onProgress (Parsing fullResponse) in
        let categories := parseCategories fullResponse in
        match categoryMap_of categories with
        | Throw e => MkAnalysis (ev1 ++ ev2 ++ ev3 ++ ev4) (Throw e)
        | Normal categoryMap =>
            let ev5 := report onProgress (Complete categoryMap) in
            MkAnalysis (ev1 ++ ev2 ++ ev3 ++ ev4 ++ ev5) (Normal categoryMap)
        end
    end.

End Orchestration.

(* ===================================================================== *)
(** * What a call sent and reported                                      *)
(* ===================================================================== *)

(** The requests a call handed to [fetch], in order. *)
Definition requests_sent (evs : list event) : list Request :=
  omap (fun e => match e with Fetch r => Some r | _ => None end) evs.

(** The arguments of the [onUpdate] calls, in order. *)
Definition updates_of (evs : list event) : list jsstring :=
  omap (fun e => match e with OnUpdate t => Some t | _ => None end) evs.

(** [body.max_tokens] of an Anthropic request *)
Definition max_tokens_of (r : Request) : completion jsval :=
  get (body r) (js "max_tokens").

(** [body.generationConfig.maxOutputTokens] of a Gemini request *)
Definition maxOutputTokens_of (r : Request) : completion jsval :=
  let! config := get (body r) (js "generationConfig") in
  get config (js "maxOutputTokens").

(** A call that issues exactly one request, whose limit is [n]. *)
Definition sends_limit (limit_of : Request -> completion jsval)
    (o : outcome) (n : N) : Prop :=
  exists r, requests_sent (events o) = [r] /\ limit_of r = Normal (JNumber (num n)).

(** The storage key under which the API key of the active provider is
    kept: Gemini when [ai_provider] says so, Anthropic otherwise. *)
Definition active_key_name (ls : Storage) : jsstring :=
  if str_eqb (getItem_or ls (js "ai_provider") (js "anthropic")) (js "gemini")
  then js "gemini_api_key" else js "anthropic_api_key".

(** The header names of a request, before redaction. *)
Definition header_names (req : Entry) : list jsstring :=
  match request req with
  | Some r => match r_headers r with
              | Some hs => map name hs
              | None => []
              end
  | None => []
  end.

(** A name is sensitive when its lower-case form is one of the three. *)
Definition sensitive `{Host} (h : jsstring) : Prop :=
  toLowerCase h = js "cookie" \/ toLowerCase h = js "authorization"
  \/ toLowerCase h = js "x-api-key".

(** [l] with the sensitive names removed, order kept. *)
Fixpoint redacted `{Host} (l : list jsstring) (out : list jsstring) : Prop :=
  match l with
  | [] => out = []
  | h :: l' =>
      (sensitive h /\ redacted l' out)
      \/ (~ sensitive h /\ exists out', out = h :: out' /\ redacted l' out')
  end.

(** The member [k] of an array element, [undefined] when it has none. *)
Definition field (cat : jsval) (k : jsstring) : jsval :=
  match cat with
  | JObject ms => default JUndefined (lookup_member k ms)
  | _ => JUndefined
  end.

(** A field that is missing or falsy gives way to its default. *)
Definition with_default (v : jsval) (d : jsstring) : jsval :=
  if truthy v then v else JString d.

Definition record_of (cat : jsval) : CategoryRecord :=
  MkCategory (field cat (js "index"))
    (with_default (field cat (js "category")) (js "Uncategorized"))
    (with_default (field cat (js "confidence")) (js "low"))
    (with_default (field cat (js "reasoning")) (js "No reasoning provided"))
    (with_default (field cat (js "icon")) (js "❓")).

(** ** The deltas of a stream, described without the loop *)

(** [v[k]] where a failed access counts as [undefined]. *)
Definition prop (v : jsval) (k : jsstring) : jsval :=
  match get v k with
  | Normal x => x
  | Throw _ => JUndefined
  end.

(** The fragment a text value adds: its string, or nothing when it has
    none. *)
Definition fragment (text : jsval) : list jsstring :=
  match ToString text with
  | Normal s => [s]
  | Throw _ => []
  end.

(** The text fragment an Anthropic line carries, if any: the [delta.text]
    of a [data: ] payload that is JSON of type [content_block_delta]. *)
Definition claude_deltas (line : jsstring) : list jsstring :=
  if startsWith line (js "data: ") then
    let payload := slice 6 line in
    if str_eqb payload (js "[DONE]") then []
    else match JSON.parse payload with
         | Some data =>
             let text := prop (prop data (js "delta")) (js "text") in
             if is_string (prop data (js "type")) (js "content_block_delta")
                && truthy text
             then fragment text else []
         | None => []
         end
  else [].

(** The fragments of the parts of a Gemini payload, in array order, up to
    the first part that is [null] or whose text has no string. *)
Fixpoint part_deltas (parts : list jsval) : list jsstring :=
  match parts with
  | [] => []
  | JNull :: _ | JUndefined :: _ => []
  | part :: parts' =>
      let text := prop part (js "text") in
      if truthy text then
        match ToString text with
        | Normal s => s :: part_deltas parts'
        | Throw _ => []
        end
      else part_deltas parts'
  end.

(** The text fragments a Gemini line carries: those of
    [candidates[0].content.parts]. *)
Definition gemini_deltas (line : jsstring) : list jsstring :=
  if startsWith line (js "data: ") then
    let payload := trim (slice 6 line) in
    if str_eqb payload [] then []
    else match JSON.parse payload with
         | Some data =>
             let candidates := prop data (js "candidates") in
             let parts := prop (prop (prop candidates (js "0")) (js "content")) (js "parts") in
             if truthy candidates && truthy parts then
               match iterate parts with
               | Normal items => part_deltas items
               | Throw _ => []
               end
             else []
         | None => []
         end
  else [].

(** The lines the read loop goes through, chunk after chunk. *)
Fixpoint lines_read (decoder : TextDecoder) (chunks : list (list byte)) : list jsstring :=
  match chunks with
  | [] => []
  | value :: rest =>
      let '(decoder', chunk) := decode_stream decoder value in
      split LF chunk ++ lines_read decoder' rest
  end.

(** The deltas of a whole stream, in arrival order. *)
Definition observed (deltas_of : jsstring -> list jsstring)
    (chunks : list (list byte)) : list jsstring :=
  flat_map deltas_of (lines_read new_TextDecoder chunks).

(** The accumulated text after each delta in turn, starting from [acc]. *)
Fixpoint cumulative_from (acc : jsstring) (deltas : list jsstring) : list jsstring :=
  match deltas with
  | [] => []
  | d :: deltas' => (acc ++ d) :: cumulative_from (acc ++ d) deltas'
  end.

Definition cumulative (deltas : list jsstring) : list jsstring :=
  cumulative_from [] deltas.

(** The state of a streaming call once [deltas] more have been appended. *)
Definition advanced (st : stream) (deltas : list jsstring) : stream :=
  MkStream (fullText st ++ concat deltas)
           (updates st ++ cumulative_from (fullText st) deltas).

(** A network that answers every request with [response]. *)
Definition respond (response : Response) : Network := fun _ => Normal response.

(** What the accumulator of a call owes to the deltas of its stream: one
    [onUpdate] per delta; the argument of each is the concatenation of the
    deltas so far, so it extends the previous argument by one delta and is
    no shorter; the call returns the concatenation of all deltas. *)
Definition accumulates (deltas : list jsstring) (o : outcome) : Prop :=
  let calls := updates_of (events o) in
  length calls = length deltas
  /\ (forall i text, calls !! i = Some text -> text = concat (take (S i) deltas))
  /\ (forall i a b, calls !! i = Some a -> calls !! S i = Some b ->
        (length a <= length b)%nat /\ exists d, deltas !! S i = Some d /\ b = a ++ d)
  /\ result o = Normal (concat deltas).

(** The same of a call whose stream may break off: the [onUpdate] calls
    are those of the deltas of the chunks delivered, each with the
    concatenation of the deltas so far; when the stream completes the call
    is as [accumulates] says, and when a read is rejected the call throws
    the rejection. *)
Definition accumulates_until (ending : completion unit) (deltas : list jsstring)
    (o : outcome) : Prop :=
  let calls := updates_of (events o) in
  (length calls = length deltas
   /\ (forall i text, calls !! i = Some text -> text = concat (take (S i) deltas))
   /\ (forall i a b, calls !! i = Some a -> calls !! S i = Some b ->
         (length a <= length b)%nat /\ exists d, deltas !! S i = Some d /\ b = a ++ d))
  /\ match ending with
     | Normal _ => accumulates deltas o
     | Throw e => result o = Throw e
     end.

(** ** Chunk boundaries *)

(** The text the decoder produces for the chunks, put together. *)
Fixpoint decoded (decoder : TextDecoder) (chunks : list (list byte)) : jsstring :=
  match chunks with
  | [] => []
  | value :: rest =>
      let '(decoder', chunk) := decode_stream decoder value in
      chunk ++ decoded decoder' rest
  end.

(** A chunk after which a boundary falls at the end of a line: it is empty
    or its last byte is a line feed. *)
Definition ends_line (value : list byte) : Prop :=
  value = [] \/ last value = Some x0a.

(** Every chunk boundary falls at the end of a line. *)
Fixpoint line_aligned (chunks : list (list byte)) : Prop :=
  match chunks with
  | [] => True
  | value :: rest => (rest = [] \/ ends_line value) /\ line_aligned rest
  end.

(** A successful response whose body is delivered in the given chunks and
    then ends. *)
Definition delivered (chunks : list (list byte)) : Response :=
  MkResponse true (Throw SyntaxError) (Some (MkBody chunks (Normal tt))).

(** ** Fenced responses *)

(** The triple backtick. *)
Definition fence : jsstring := [96; 96; 96].

Definition contains_fence (t : jsstring) : Prop :=
  exists a b, t = a ++ fence ++ b.

(** A run of whitespace, possibly empty. *)
Definition blank (w : jsstring) : Prop := forallb is_white_space w = true.

(** [t] inside one code fence: the opening fence, an optional language
    tag, whitespace, [t], whitespace, the closing fence. *)
Definition fenced (tag before t after : jsstring) : jsstring :=
  fence ++ tag ++ before ++ t ++ after ++ fence.

(** A check that no fence begins anywhere in [t]. *)
Fixpoint fence_free (t : jsstring) : bool :=
  match t with
  | [] => true
  | _ :: t' => negb (startsWith t fence) && fence_free t'
  end.

(** ** Decoder states *)

(** A state in which the decoder awaits continuation bytes above 127, as
    in every state it reaches. *)
Definition awaits_high (st : Utf8.state) : Prop := 128 <= Utf8.lower st.

Definition decoder_ok (d : TextDecoder) : Prop := awaits_high (td_utf8 d).

(* ===================================================================== *)
(** * The category cache of attack-surface.js                            *)
(* ===================================================================== *)

(** [JSON.stringify(value)]: the text without indentation; the members of
    an object are taken in the order of its member list. *)
Fixpoint compact (v : jsval) : jsstring :=
  match v with
  | JUndefined | JNull => js "null"
  | JBool b => if b then js "true" else js "false"
  | JNumber (Infinity _) => js "null"
  | JNumber x => Double.to_string x
  | JString s => Stringify.quote s
  | JArray l => [91] ++ join [44] (map compact l) ++ [93]
  | JObject ms =>
      [123]
        ++ join [44]
             (omap (fun kv => match kv with
                              | (k, x) => if Stringify.is_undefined x then None
                                          else Some (Stringify.quote k ++ [58] ++ compact x)
                              end) ms)
        ++ [125]
  end.

(** What [localStorage.setItem(key, JSON.stringify(value))] stores: the
    text of the value, or the string of [undefined] when there is none. *)
Definition stringified (v : jsval) : jsstring :=
  match v with
  | JUndefined => js "undefined"
  | _ => compact v
  end.

Definition cache_key : jsstring := js "repPlusAttackSurfaceCache".

(** [cacheCategories(categories)], on a storage that accepts the write. *)
Definition cacheCategories (categories : jsval) (ls : Storage) : Storage :=
  <[cache_key := stringified categories]> ls.

(** [loadCachedCategories()]: the parsed cache, or the empty object when
    there is none, it is empty, or it does not parse. *)
Definition loadCachedCategories (ls : Storage) : jsval :=
  match ls !! cache_key with
  | Some cached =>
      if str_eqb cached [] then JObject []
      else match JSON.parse cached with
           | Some v => v
           | None => JObject []
           end
  | None => JObject []
  end.

(** [clearCategoryCache()] *)
Definition clearCategoryCache (ls : Storage) : Storage := delete cache_key ls.

(** ** Descriptions used by the further properties *)

(** The storage keys [saveAISettings] writes for a provider. *)
Definition settings_keys (provider : jsstring) : list jsstring :=
  if str_eqb provider (js "gemini")
  then [js "ai_provider"; js "gemini_api_key"; js "gemini_model"]
  else [js "ai_provider"; js "anthropic_api_key"; js "anthropic_model"].

(** Two headers, and two captured entries, that differ at most in the
    values of their headers. *)
Definition same_name (h1 h2 : Header) : Prop := name h1 = name h2.

Definition alike (e1 e2 : Entry) : Prop :=
  match request e1, request e2 with
  | None, None => True
  | Some r1, Some r2 =>
      r_url r1 = r_url r2 /\ r_method r1 = r_method r2
      /\ match r_headers r1, r_headers r2 with
         | None, None => True
         | Some hs1, Some hs2 => Forall2 same_name hs1 hs2
         | _, _ => False
         end
  | _, _ => False
  end.

(** A value [JSON.stringify] writes in full and without a number: no
    [undefined] and no number anywhere in it. *)
Fixpoint textual (v : jsval) : bool :=
  match v with
  | JUndefined | JNumber _ => false
  | JNull | JBool _ | JString _ => true
  | JArray l => forallb textual l
  | JObject ms => forallb (fun kv => textual (snd kv)) ms
  end.

(** A Gemini part that carries the text [t]. *)
Definition text_part (t : jsstring) : jsval := JObject [(js "text", JString t)].

(** A line of an Anthropic stream that carries the text [t]: [data: ] and
    the JSON text of a [content_block_delta] event. *)
Definition delta_line (t : jsstring) : jsstring :=
  js "data: "
    ++ compact (JObject [(js "type", JString (js "content_block_delta"));
                         (js "delta", JObject [(js "type", JString (js "text_delta"));
                                               (js "text", JString t)])]).

(** The fallback message of a provider's adapter. *)
Definition fallback_of (provider : jsstring) : jsstring :=
  if str_eqb provider (js "gemini") then gemini_fallback else anthropic_fallback.

(** A call that made no [onUpdate] call and threw [e]. *)
Definition fails_with (o : outcome) (e : exn) : Prop :=
  updates_of (events o) = [] /\ result o = Throw e.

(** The lines of a provider's stream that carry text. *)
Definition deltas_for (provider : jsstring) : jsstring -> list jsstring :=
  if str_eqb provider (js "gemini") then gemini_deltas else claude_deltas.

(** The [streaming] progress events for the given texts, when there is a
    progress callback. *)
Definition streaming_events (onProgress : bool) (texts : list jsstring) : list event :=
  if onProgress then map (fun text => OnProgress (Streaming text)) texts else [].

(** [req.request?.url || ''] *)
Definition url_of (req : Entry) : jsstring := str_or (mbind r_url (request req)) [].

(** The code unit of the question mark. *)
Definition question_mark : N := 63.

(** The text [JSON.stringify] writes for a member that is not
    [undefined]. *)
Definition member_text (kv : jsstring * jsval) : jsstring :=
  Stringify.quote (fst kv) ++ [58] ++ compact (snd kv).

(** A text without any backtick. *)
Definition no_backtick (s : jsstring) : Prop :=
  forallb (fun c => negb (c =? 96)) s = true.

(** The result of a parser on a text, when [w] is put after the text. *)
Definition followed {A} (w : jsstring) (r : option (A * jsstring)) : option (A * jsstring) :=
  match r with
  | Some (x, rest) => Some (x, rest ++ w)
  | None => None
  end.

(** A run of JSON whitespace (tab, line feed, carriage return, space),
    possibly empty. *)
Definition json_space (w : jsstring) : Prop := forallb JSON.is_ws w = true.

(** A network on which every [fetch] is rejected with [e]. *)
Definition rejecting (e : exn) : Network := fun _ => Throw e.

(** A value that is read back from its text, whatever follows the text. *)
Definition reads_back (v : jsval) : Prop :=
  forall rest, exists n, JSON.parse_value n (compact v ++ rest) = Some (v, rest).

(** The storage keys of the provider that is not the active one. *)
Definition inactive_keys (ls : Storage) : list jsstring :=
  if str_eqb (provider (getAISettings ls)) (js "gemini")
  then [js "anthropic_api_key"; js "anthropic_model"]
  else [js "gemini_api_key"; js "gemini_model"].

(* ===================================================================== *)
(** * Theorems                                                           *)
(* ===================================================================== *)

Lemma str_eqb_eq (a b : jsstring) : str_eqb a b = true <-> a = b.
Proof. unfold str_eqb. apply bool_decide_eq_true. Qed.

Lemma str_eqb_neq (a b : jsstring) : str_eqb a b = false <-> a <> b.
Proof. unfold str_eqb. apply bool_decide_eq_false. Qed.

Lemma str_eqb_refl (a : jsstring) : str_eqb a a = true.
Proof. by apply str_eqb_eq. Qed.

Lemma startsWith_app s p : startsWith s p = true -> s = p ++ drop (length p) s.
Proof.
  revert s. induction p as [|x p IH]; intros s; [done|].
  destruct s as [|c s]; [discriminate|]. cbn [startsWith].
  rewrite andb_true_iff, N.eqb_eq. intros [-> Hs]. simpl. f_equal. auto.
Qed.

Lemma jsval_nested_ind (P : jsval -> Prop) :
  P JUndefined -> P JNull -> (forall b, P (JBool b)) -> (forall x, P (JNumber x)) ->
  (forall s, P (JString s)) ->
  (forall elems, Forall P elems -> P (JArray elems)) ->
  (forall members, Forall (fun kv => P (snd kv)) members -> P (JObject members)) ->
  forall v, P v.
Proof.
  intros Hu Hn Hb Hx Hs Ha Ho. fix IH 1. intros [| |b|x|s|elems|members].
  - exact Hu.
  - exact Hn.
  - apply Hb.
  - apply Hx.
  - apply Hs.
  - apply Ha. induction elems as [|v elems IHelems]; constructor; [apply IH | exact IHelems].
  - apply Ho. induction members as [|[k v] members IHmembers]; constructor;
      [apply IH | exact IHmembers].
Qed.


(** ** Request limits *)

Lemma requests_sent_updates (l : list jsstring) :
  requests_sent (map OnUpdate l) = [].
Proof. induction l as [|t l IH]; [done | exact IH]. Qed.

Lemma updates_of_updates (l : list jsstring) :
  updates_of (map OnUpdate l) = l.
Proof. induction l as [|t l IH]; [done | simpl; by rewrite IH]. Qed.

Lemma stream_response_sent net req fallback on_line :
  requests_sent (events (stream_response net req fallback on_line)) = [req].
Proof.
  unfold stream_response.
  destruct (net req) as [response|e]; [|done].
  destruct (ok response); simpl; [|done].
  destruct (response_body response) as [body|]; [|done].
  destruct (read_loop _ _ _ _ _) as [st r]. simpl.
  by rewrite requests_sent_updates.
Qed.

(** C3, as the spec states it, fails: the plain Anthropic entry point does
    not send 2048. *)
Lemma C3_plain_anthropic_limit_is_not_2048 :
  let o := streamExplanationFromClaude (fun _ => Throw TypeError) [] [] [] in
  exists r, requests_sent (events o) = [r]
            /\ max_tokens_of r = Normal (JNumber (num 1024))
            /\ max_tokens_of r <> Normal (JNumber (num 2048)).
Proof. eexists. split; [reflexivity|]. split; [reflexivity|]. vm_compute. discriminate. Qed.

(** C3 (amended): whatever the caller passes, the Anthropic adapter sends
    [max_tokens] 1024 on the plain explanation path and 2048 on the
    system-prompt path, and the Gemini adapter sends [maxOutputTokens] 2048
    on the plain path and 4096 on the system-prompt path. *)
Theorem C3_token_limits net apiKey model request systemPrompt userPrompt :
  sends_limit max_tokens_of
    (streamExplanationFromClaude net apiKey model request) 1024
  /\ sends_limit max_tokens_of
       (streamExplanationFromClaudeWithSystem net apiKey model systemPrompt userPrompt) 2048
  /\ sends_limit maxOutputTokens_of
       (streamExplanationFromGemini net apiKey model request) 2048
  /\ sends_limit maxOutputTokens_of
       (streamExplanationFromGeminiWithSystem net apiKey model systemPrompt userPrompt) 4096.
Proof.
  repeat split; eexists; (split; [apply stream_response_sent | reflexivity]).
Qed.

(** ** The configuration check of the orchestrator *)

(** C8: with no API key stored for the active provider (none, or the
    empty string), [analyzeAttackSurface] throws its configuration error
    having done nothing: no request was fetched and the progress callback
    was not invoked. *)
Theorem C8_missing_key_fails_first `{Host} ls net requests onProgress :
  ls !! active_key_name ls = None \/ ls !! active_key_name ls = Some [] ->
  analyzeAttackSurface ls net requests onProgress
  = MkAnalysis []
      (Throw (Error (js "AI API key not configured. Please set it in Settings."))).
Proof.
  intros Hkey. unfold analyzeAttackSurface.
  assert (apiKey (getAISettings ls) = []) as ->; [|done].
  revert Hkey. unfold active_key_name, getAISettings.
  destruct (str_eqb _ (js "gemini")); cbn [apiKey]; intros Hkey;
    unfold getItem_or; unfold jsstring in *; destruct Hkey as [-> | ->]; done.
Qed.

Lemma C8_missing_key_witness :
  analyzeAttackSurface (H := ascii_host) ∅ (fun _ => Throw TypeError) [MkEntry None] true
  = MkAnalysis []
      (Throw (Error (js "AI API key not configured. Please set it in Settings."))).
Proof. apply (C8_missing_key_fails_first (H := ascii_host)). left. reflexivity. Defined.

(** ** Header redaction *)

Lemma includes_sensitive `{Host} (h : jsstring) :
  includes sensitive_headers (toLowerCase h) = true <-> sensitive h.
Proof.
  unfold includes, sensitive, sensitive_headers. simpl.
  rewrite !orb_true_iff, !str_eqb_eq. intuition congruence.
Qed.

Lemma filter_redacted `{Host} (l : list jsstring) :
  redacted l (List.filter (fun h => negb (includes sensitive_headers (toLowerCase h))) l).
Proof.
  induction l as [|h l IH]; [done|]. cbn [List.filter redacted].
  destruct (includes sensitive_headers (toLowerCase h)) eqn:E; cbn [negb].
  - left. split; [by apply includes_sensitive | exact IH].
  - right. split.
    + intros Hs. apply includes_sensitive in Hs. congruence.
    + eexists. split; [reflexivity | exact IH].
Qed.

Lemma redacted_functional `{Host} (l out1 out2 : list jsstring) :
  redacted l out1 -> redacted l out2 -> out1 = out2.
Proof.
  revert out1 out2. induction l as [|h l IH]; simpl; intros out1 out2 H1 H2.
  - congruence.
  - destruct H1 as [[S1 R1] | [S1 (o1 & -> & R1)]];
      destruct H2 as [[S2 R2] | [S2 (o2 & -> & R2)]]; try tauto.
    + eauto.
    + f_equal. eauto.
Qed.

Lemma summarize_headers `{Host} req idx :
  s_headers (summarize req idx)
  = List.filter (fun h => negb (includes sensitive_headers (toLowerCase h)))
      (header_names req).
Proof.
  unfold summarize, header_names. simpl.
  destruct (request req) as [r|]; [|done]. simpl.
  destruct (r_headers r); done.
Qed.

Lemma requestSummaries_lookup `{Host} requests i :
  requestSummaries requests !! i = (fun req => summarize req i) <$> requests !! i.
Proof. unfold requestSummaries. apply list_lookup_imap. Qed.

(** C9: in the summaries built for the prompt, the headers listed for the
    request at position [i] are its header names without those whose
    lower-case form is cookie, authorization or x-api-key, order kept, and
    nothing else satisfies that description; headers named Cookie,
    X-Api-Key, Accept leave exactly Accept. *)
Theorem C9_header_redaction `{Host} (requests : list Entry) (i : nat) (req : Entry) :
  requests !! i = Some req ->
  exists s, requestSummaries requests !! i = Some s
    /\ s_index s = i
    /\ redacted (header_names req) (s_headers s)
    /\ (forall out, redacted (header_names req) out -> out = s_headers s)
    /\ (header_names req = [js "Cookie"; js "X-Api-Key"; js "Accept"] ->
        s_headers s = [js "Accept"]).
Proof.
  intros Hreq. exists (summarize req i).
  rewrite requestSummaries_lookup, Hreq. split; [done|]. split; [done|].
  rewrite summarize_headers.
  split; [apply filter_redacted|].
  split.
  - intros out Hout. eapply redacted_functional; [exact Hout | apply filter_redacted].
  - intros ->. simpl.
    rewrite !toLowerCase_ascii by reflexivity. reflexivity.
Qed.

Lemma C9_header_redaction_witness :
  exists s,
    requestSummaries (H := ascii_host)
      [MkEntry None;
       MkEntry (Some (MkHttpRequest (Some (js "https://example.test/login?next=1"))
                        (Some (js "POST"))
                        (Some [MkHeader (js "Cookie") (js "sid=1");
                               MkHeader (js "X-Api-Key") (js "secret");
                               MkHeader (js "Accept") (js "*/*")])))] !! 1%nat
    = Some s /\ s_headers s = [js "Accept"].
Proof.
  destruct (C9_header_redaction (H := ascii_host)
              [MkEntry None;
               MkEntry (Some (MkHttpRequest (Some (js "https://example.test/login?next=1"))
                                (Some (js "POST"))
                                (Some [MkHeader (js "Cookie") (js "sid=1");
                                       MkHeader (js "X-Api-Key") (js "secret");
                                       MkHeader (js "Accept") (js "*/*")])))]
              1%nat _ eq_refl) as (s & Hs & _ & _ & _ & Hacc).
  exists s. split; [exact Hs | apply Hacc; reflexivity].
Defined.

(** ** The text the orchestrator parses *)

(** [fullResponse] is the argument of the last [onUpdate] call. *)
Lemma relay_parsing_text onProgress evs fullResponse :
  snd (relay onProgress evs fullResponse)
  = default fullResponse (last (updates_of evs)).
Proof.
  revert fullResponse. induction evs as [|e evs IH]; intros fullResponse; [done|].
  destruct e as [r|text|p]; cbn [relay updates_of omap];
    specialize (IH fullResponse) as IH1.
  - destruct (relay onProgress evs fullResponse). exact IH1.
  - specialize (IH text). destruct (relay onProgress evs text). simpl in *.
    rewrite IH. rewrite last_cons. by destruct (last _).
  - destruct (relay onProgress evs fullResponse). exact IH1.
Qed.

(** ** parseCategories: degradation *)

(** C7: when the text left after fence-stripping is not JSON, or is JSON
    but not an array, the [try] block of [parseCategories] throws and
    [parseCategories] itself returns the empty array. *)
Theorem C7_not_an_array_gives_empty (response : jsstring) :
  JSON.parse (fence_strip response) = None
  \/ (exists v, JSON.parse (fence_strip response) = Some v
                /\ forall elems, v <> JArray elems) ->
  (exists e, parseCategories_try response = Throw e)
  /\ parseCategories response = [].
Proof.
  unfold parseCategories, parseCategories_try.
  intros [-> | (v & -> & Hv)].
  - split; [by eexists | done].
  - destruct v; try (split; [by eexists | done]).
    by destruct (Hv elems).
Qed.

Lemma C7_not_an_array_witness :
  (exists e, parseCategories_try (js "I could not categorize these requests.") = Throw e)
  /\ parseCategories (js "I could not categorize these requests.") = [].
Proof.
  apply C7_not_an_array_gives_empty. left. vm_compute. reflexivity.
Defined.

(** ** parseCategories: defaults *)

Lemma parse_literal_defined s v r :
  JSON.parse_literal s = Some (v, r) -> v <> JUndefined.
Proof.
  unfold JSON.parse_literal.
  repeat (destruct (startsWith s _); [intros [= <- _]; discriminate|]).
  discriminate.
Qed.

Lemma parse_value_defined fuel s v r :
  JSON.parse_value fuel s = Some (v, r) -> v <> JUndefined.
Proof.
  destruct fuel as [|fuel]; [discriminate|]. cbn [JSON.parse_value].
  destruct (JSON.skip_ws s) as [|c t]; [discriminate|].
  destruct (c =? 34).
  { destruct (JSON.parse_chars t) as [[x rest]|]; [|discriminate].
    intros [= <- _]. discriminate. }
  destruct (c =? 91).
  { destruct (JSON.skip_ws t) as [|c' t']; [discriminate|].
    destruct (c' =? 93); [intros [= <- _]; discriminate|].
    destruct (JSON.parse_elements fuel t) as [[vs rest]|]; [|discriminate].
    intros [= <- _]. discriminate. }
  destruct (c =? 123).
  { destruct (JSON.skip_ws t) as [|c' t']; [discriminate|].
    destruct (c' =? 125); [intros [= <- _]; discriminate|].
    destruct (JSON.parse_members fuel t) as [[ms rest]|]; [|discriminate].
    intros [= <- _]. discriminate. }
  destruct ((c =? 45) || is_digit c).
  { destruct (JSON.parse_number (c :: t)) as [[x rest]|]; [|discriminate].
    intros [= <- _]. discriminate. }
  apply parse_literal_defined.
Qed.

Lemma parse_elements_defined fuel s vs r :
  JSON.parse_elements fuel s = Some (vs, r) -> Forall (fun v => v <> JUndefined) vs.
Proof.
  revert s vs r. induction fuel as [|fuel IH]; intros s vs r; [discriminate|].
  cbn [JSON.parse_elements].
  destruct (JSON.parse_value fuel s) as [[v r1]|] eqn:Ev; [|discriminate].
  apply parse_value_defined in Ev.
  destruct (JSON.skip_ws r1) as [|c r2]; [discriminate|].
  destruct (c =? 44).
  - destruct (JSON.parse_elements fuel r2) as [[vs' r3]|] eqn:Ee; [|discriminate].
    intros [= <- _]. constructor; eauto.
  - destruct (c =? 93); [|discriminate].
    intros [= <- _]. by constructor.
Qed.

Lemma parse_array_defined text elems :
  JSON.parse text = Some (JArray elems) -> Forall (fun v => v <> JUndefined) elems.
Proof.
  unfold JSON.parse.
  destruct (JSON.parse_value _ text) as [[v rest]|] eqn:Ev; [|discriminate].
  destruct (JSON.skip_ws rest); [|discriminate]. intros [= Hv]. subst v.
  destruct (2 * length text + 2)%nat as [|fuel]; [discriminate|].
  cbn [JSON.parse_value] in Ev.
  destruct (JSON.skip_ws text) as [|c t]; [discriminate|].
  destruct (c =? 34).
  { destruct (JSON.parse_chars t) as [[? ?]|]; discriminate. }
  destruct (c =? 91).
  { destruct (JSON.skip_ws t) as [|c' t']; [discriminate|].
    destruct (c' =? 93).
    - injection Ev as <- _. constructor.
    - destruct (JSON.parse_elements _ t) as [[vs r]|] eqn:Ee; [|discriminate].
      injection Ev as <- _. eauto using parse_elements_defined. }
  destruct (c =? 123).
  { destruct (JSON.skip_ws t) as [|c' t']; [discriminate|].
    destruct (c' =? 125); [discriminate|].
    destruct (JSON.parse_members _ t) as [[? ?]|]; discriminate. }
  destruct ((c =? 45) || is_digit c).
  { destruct (JSON.parse_number _) as [[? ?]|]; discriminate. }
  unfold JSON.parse_literal in Ev.
  repeat (destruct (startsWith _ _); [discriminate|]). discriminate.
Qed.

Lemma category_record_spec (cat : jsval) :
  cat <> JNull -> cat <> JUndefined -> category_record cat = Normal (record_of cat).
Proof.
  intros Hnull Hundef. destruct cat; try done.
Qed.

Lemma map_throwing_spec (elems : list jsval) :
  Forall (fun e => e <> JNull) elems ->
  Forall (fun e => e <> JUndefined) elems ->
  map_throwing category_record elems = Normal (map record_of elems).
Proof.
  induction 1 as [|e elems He _ IH]; intros Hu; [done|].
  apply Forall_cons in Hu as [Hu1 Hu2].
  cbn [map_throwing map]. rewrite category_record_spec by done.
  cbn [bind]. by rewrite IH.
Qed.

(** C5, as the spec states it, fails: a field that is present but empty is
    not passed through. *)
Lemma C5_present_empty_category_is_replaced :
  JSON.parse (jsq "[{'index':0,'category':''}]")
  = Some (JArray [JObject [(js "index", JNumber (num 0)); (js "category", JString [])]])
  /\ exists r, parseCategories (jsq "[{'index':0,'category':''}]") = [r]
               /\ category r = JString (js "Uncategorized")
               /\ category r <> JString [].
Proof.
  split; [vm_compute; reflexivity|].
  eexists. split; [vm_compute; reflexivity|]. split; [reflexivity|].
  vm_compute. discriminate.
Qed.

(** C5 (amended): the example yields the one record the spec gives; and for
    every response whose stripped text parses to an array without [null]
    elements, [parseCategories] yields one record per element, in order:
    its index is the element's, and each of category, confidence, reasoning
    and icon is the element's when that is truthy and the default when the
    field is missing or falsy. *)
Theorem C5_defaults :
  parseCategories (jsq "[{'index':0,'category':'Auth'}]")
  = [MkCategory (JNumber (num 0)) (JString (js "Auth")) (JString (js "low"))
       (JString (js "No reasoning provided")) (JString (js "❓"))]
  /\ forall response elems,
       JSON.parse (fence_strip response) = Some (JArray elems) ->
       Forall (fun e => e <> JNull) elems ->
       parseCategories response = map record_of elems.
Proof.
  split; [vm_compute; reflexivity|].
  intros response elems Hparse Hnull.
  unfold parseCategories, parseCategories_try. rewrite Hparse.
  rewrite map_throwing_spec; eauto using parse_array_defined.
Qed.

Lemma C5_defaults_witness :
  parseCategories (jsq "```json [{'index':7,'icon':'X','confidence':0}, 'other'] ```")
  = map record_of
      [JObject [(js "index", JNumber (num 7)); (js "icon", JString (js "X"));
                (js "confidence", JNumber (num 0))];
       JString (js "other")].
Proof.
  apply (proj2 C5_defaults).
  - vm_compute. reflexivity.
  - repeat constructor; discriminate.
Defined.

(** ** The read loop and the deltas *)

Lemma advanced_nil st : advanced st [] = st.
Proof. destruct st. unfold advanced. simpl. by rewrite !app_nil_r. Qed.

Lemma cumulative_from_app acc ds1 ds2 :
  cumulative_from acc (ds1 ++ ds2)
  = cumulative_from acc ds1 ++ cumulative_from (acc ++ concat ds1) ds2.
Proof.
  revert acc. induction ds1 as [|d ds1 IH]; intros acc; simpl.
  - by rewrite app_nil_r.
  - f_equal. rewrite IH. by rewrite app_assoc.
Qed.

Lemma advanced_app st ds1 ds2 :
  advanced (advanced st ds1) ds2 = advanced st (ds1 ++ ds2).
Proof.
  unfold advanced. cbn [fullText updates].
  rewrite concat_app, cumulative_from_app, !app_assoc. reflexivity.
Qed.

Lemma append_delta_advanced v text st :
  ToString v = Normal text -> append_delta v st = (advanced st [text], Normal tt).
Proof. intros Hv. unfold append_delta, advanced. rewrite Hv. simpl. by rewrite !app_nil_r. Qed.

Lemma append_delta_throws v e st :
  ToString v = Throw e -> append_delta v st = (st, Throw e).
Proof. intros Hv. unfold append_delta. by rewrite Hv. Qed.

Lemma append_delta_fragment v st :
  fst (append_delta v st) = advanced st (fragment v).
Proof.
  unfold fragment. destruct (ToString v) as [text|e] eqn:Hv.
  - by rewrite (append_delta_advanced v text).
  - by rewrite (append_delta_throws v e), advanced_nil.
Qed.

Lemma claude_line_spec line st :
  claude_line line st = (advanced st (claude_deltas line), Normal tt).
Proof.
  unfold claude_line, claude_deltas.
  destruct (startsWith line (js "data: ")); [|by rewrite advanced_nil].
  cbv zeta. destruct (str_eqb (slice 6 line) (js "[DONE]")); [by rewrite advanced_nil|].
  unfold try_ignore, JSON_parse, bindM, lift, ret, throw.
  destruct (JSON.parse (slice 6 line)) as [data|]; [|by rewrite advanced_nil].
  unfold prop.
  destruct (get data (js "type")) as [type|e] eqn:Etype; cbn [fst].
  2: { destruct data; try discriminate; by rewrite advanced_nil. }
  destruct (is_string type (js "content_block_delta")); cbn [andb fst];
    [|by rewrite advanced_nil].
  destruct (get data (js "delta")) as [delta|e]; cbn [fst].
  2: { by rewrite advanced_nil. }
  destruct (get delta (js "text")) as [text|e]; cbn [fst].
  2: { by rewrite advanced_nil. }
  destruct (truthy text); [|by rewrite advanced_nil].
  by rewrite append_delta_fragment.
Qed.

Lemma get_prop v k x : get v k = Normal x -> prop v k = x.
Proof. unfold prop. by intros ->. Qed.

Lemma get_throws_prop v k e : get v k = Throw e -> prop v k = JUndefined.
Proof. unfold prop. by intros ->. Qed.

Lemma get_throws v k e : get v k = Throw e -> v = JNull \/ v = JUndefined.
Proof.
  destruct v; simpl; try discriminate; auto.
  - destruct (array_index k); [discriminate|]. by destruct (str_eqb _ _).
  - destruct (array_index k); [discriminate|]. by destruct (str_eqb _ _).
Qed.

Lemma parts_loop_spec (items : list jsval) (st : stream) :
  fst (for_of items
         (fun part =>
            do! text := lift (get part (js "text")) in
            if truthy text then append_delta text else ret tt) st)
  = advanced st (part_deltas items).
Proof.
  revert st. induction items as [|part items IH]; intros st.
  - by rewrite advanced_nil.
  - cbn [for_of]. unfold bindM at 1. unfold bindM at 1. unfold lift at 1.
    destruct (get part (js "text")) as [text|e] eqn:Eget.
    + assert (part_deltas (part :: items)
              = if truthy text then
                  match ToString text with
                  | Normal s => s :: part_deltas items
                  | Throw _ => []
                  end
                else part_deltas items) as ->.
      { apply get_prop in Eget as Eprop.
        destruct part; try discriminate; cbn [part_deltas]; by rewrite Eprop. }
      destruct (truthy text).
      * destruct (ToString text) as [s|e] eqn:Hs.
        -- rewrite (append_delta_advanced text s) by done.
           change (s :: part_deltas items) with ([s] ++ part_deltas items).
           rewrite <- advanced_app. apply IH.
        -- rewrite (append_delta_throws text e) by done. by rewrite advanced_nil.
      * unfold ret. apply IH.
    + apply get_throws in Eget as [-> | ->]; by rewrite advanced_nil.
Qed.

Lemma gemini_line_spec line st :
  gemini_line line st = (advanced st (gemini_deltas line), Normal tt).
Proof.
  unfold gemini_line, gemini_deltas.
  destruct (startsWith line (js "data: ")); [|by rewrite advanced_nil].
  cbv zeta. destruct (str_eqb (trim (slice 6 line)) []); [by rewrite advanced_nil|].
  unfold try_ignore. f_equal.
  unfold JSON_parse.
  destruct (JSON.parse (trim (slice 6 line))) as [data|];
    [|by rewrite advanced_nil].
  unfold bindM at 1. unfold ret at 1. unfold bindM at 1. unfold lift at 1.
  destruct (get data (js "candidates")) as [candidates|e] eqn:Ec.
  2: { rewrite (get_throws_prop _ _ _ Ec). cbn [fst truthy andb]. by rewrite advanced_nil. }
  rewrite (get_prop _ _ _ Ec).
  destruct (truthy candidates) eqn:Etc; cbn [andb fst]; [|by rewrite advanced_nil].
  unfold bindM at 1. unfold lift at 1.
  assert (exists first, get candidates (js "0") = Normal first) as [first Efirst].
  { destruct (get candidates (js "0")) as [x|e] eqn:E; [by eexists|].
    apply get_throws in E as [-> | ->]; discriminate. }
  rewrite Efirst, (get_prop _ _ _ Efirst).
  unfold bindM at 1. unfold lift at 1.
  assert (get_opt first (js "content") = Normal (prop first (js "content"))) as ->.
  { unfold get_opt, prop. destruct first; try done;
      by destruct (get _ (js "content")) eqn:E; [|apply get_throws in E as [? | ?]]. }
  unfold bindM at 1. unfold lift at 1.
  set (content := prop first (js "content")).
  assert (get_opt content (js "parts") = Normal (prop content (js "parts"))) as ->.
  { unfold get_opt, prop. destruct content; try done;
      by destruct (get _ (js "parts")) eqn:E; [|apply get_throws in E as [? | ?]]. }
  set (parts := prop content (js "parts")).
  destruct (truthy parts); [|by rewrite advanced_nil].
  unfold bindM at 1. unfold lift at 1.
  destruct (iterate parts) as [items|e]; cbn [fst]; [|by rewrite advanced_nil].
  apply parts_loop_spec.
Qed.

Section ReadLoop.
Variable on_line : jsstring -> M stream unit.
Variable deltas_of : jsstring -> list jsstring.
Hypothesis on_line_spec :
  forall line st, on_line line st = (advanced st (deltas_of line), Normal tt).

Lemma for_of_lines_spec (lines : list jsstring) (st : stream) :
  for_of lines on_line st = (advanced st (flat_map deltas_of lines), Normal tt).
Proof using on_line_spec.
  revert st. induction lines as [|line lines IH]; intros st.
  - by rewrite advanced_nil.
  - cbn [for_of flat_map]. unfold bindM. rewrite on_line_spec, IH.
    by rewrite advanced_app.
Qed.

Lemma read_loop_spec decoder (chunks : list (list byte)) ending (st : stream) :
  read_loop on_line decoder chunks ending st
  = (advanced st (flat_map deltas_of (lines_read decoder chunks)), ending).
Proof using on_line_spec.
  revert decoder st. induction chunks as [|value rest IH]; intros decoder st.
  - by rewrite advanced_nil.
  - cbn [read_loop lines_read].
    destruct (decode_stream decoder value) as [decoder' chunk].
    unfold bindM. rewrite for_of_lines_spec, IH.
    by rewrite advanced_app, flat_map_app.
Qed.

Lemma stream_response_ok response pieces req fallback :
  ok response = true ->
  response_body response = Some (MkBody pieces (Normal tt)) ->
  stream_response (respond response) req fallback on_line
  = MkOutcome (Fetch req :: map OnUpdate (cumulative (observed deltas_of pieces)))
      (Normal (concat (observed deltas_of pieces))).
Proof using on_line_spec.
  intros Hok Hbody. unfold stream_response, respond. rewrite Hok, Hbody. cbn [negb].
  cbn [chunks ending]. rewrite read_loop_spec. reflexivity.
Qed.

Lemma stream_response_delivered pieces req fallback :
  stream_response (respond (delivered pieces)) req fallback on_line
  = MkOutcome (Fetch req :: map OnUpdate (cumulative (observed deltas_of pieces)))
      (Normal (concat (observed deltas_of pieces))).
Proof using on_line_spec. by apply stream_response_ok. Qed.
End ReadLoop.

(** ** The accumulated text *)

Lemma cumulative_from_length acc ds :
  length (cumulative_from acc ds) = length ds.
Proof. revert acc. induction ds as [|d ds IH]; intros acc; simpl; [done | by rewrite IH]. Qed.

Lemma cumulative_from_lookup acc ds i text :
  cumulative_from acc ds !! i = Some text -> text = acc ++ concat (take (S i) ds).
Proof.
  revert acc i. induction ds as [|d ds IH]; intros acc i; [done|].
  destruct i as [|i]; simpl.
  - intros [= <-]. by rewrite app_nil_r.
  - intros Hi. apply IH in Hi. by rewrite Hi, app_assoc.
Qed.

Lemma cumulative_from_step acc ds i a b :
  cumulative_from acc ds !! i = Some a ->
  cumulative_from acc ds !! S i = Some b ->
  exists d, ds !! S i = Some d /\ b = a ++ d.
Proof.
  revert acc i. induction ds as [|d ds IH]; intros acc i; [done|].
  destruct i as [|i]; cbn [cumulative_from].
  - intros [= <-]. destruct ds as [|d' ds]; [done|]. simpl.
    intros [= <-]. by eexists.
  - intros Ha Hb. exact (IH _ _ Ha Hb).
Qed.

Lemma stream_accumulates on_line deltas_of response body req fallback :
  (forall line st, on_line line st = (advanced st (deltas_of line), Normal tt)) ->
  ok response = true ->
  response_body response = Some body ->
  accumulates_until (ending body) (observed deltas_of (chunks body))
    (stream_response (respond response) req fallback on_line).
Proof.
  intros Hspec Hok Hbody.
  assert (stream_response (respond response) req fallback on_line
          = MkOutcome
              (Fetch req :: map OnUpdate (cumulative (observed deltas_of (chunks body))))
              (match ending body with
               | Normal _ => Normal (concat (observed deltas_of (chunks body)))
               | Throw e => Throw e
               end)) as ->.
  { unfold stream_response, respond. rewrite Hok, Hbody. cbn [negb].
    by rewrite (read_loop_spec on_line deltas_of Hspec). }
  set (deltas := observed deltas_of (chunks body)).
  assert (let calls := cumulative deltas in
          length calls = length deltas
          /\ (forall i text, calls !! i = Some text -> text = concat (take (S i) deltas))
          /\ (forall i a b, calls !! i = Some a -> calls !! S i = Some b ->
                (length a <= length b)%nat
                /\ exists d, deltas !! S i = Some d /\ b = a ++ d)) as Hcalls.
  { unfold cumulative. split; [apply cumulative_from_length|].
    split; [intros i text Hi; by apply cumulative_from_lookup in Hi|].
    intros i a b Ha Hb.
    destruct (cumulative_from_step _ _ _ _ _ Ha Hb) as (d & Hd & ->).
    split; [rewrite length_app; lia | by eexists]. }
  unfold accumulates_until, accumulates. cbn [events result].
  change (updates_of (Fetch req :: ?l)) with (updates_of l).
  rewrite updates_of_updates.
  split; [exact Hcalls|]. destruct (ending body); [|done].
  destruct Hcalls as (Hlen & Htext & Hstep). done.
Qed.

(** C2: for a successful response, every streaming entry point (Anthropic
    and Gemini, plain and with a system prompt) calls [onUpdate] once per
    delta of the chunks its body delivers, in arrival order, each time with
    the concatenation of the deltas so far: every argument extends the
    previous one by exactly the next delta and is at least as long.  When
    the stream completes, the text returned is the concatenation of all
    deltas; when a read is rejected instead, the call throws the
    rejection. *)
Theorem C2_accumulated_text response body apiKey model request systemPrompt userPrompt :
  ok response = true ->
  response_body response = Some body ->
  accumulates_until (ending body) (observed claude_deltas (chunks body))
    (streamExplanationFromClaude (respond response) apiKey model request)
  /\ accumulates_until (ending body) (observed gemini_deltas (chunks body))
       (streamExplanationFromGemini (respond response) apiKey model request)
  /\ accumulates_until (ending body) (observed claude_deltas (chunks body))
       (streamExplanationFromClaudeWithSystem (respond response)
          apiKey model systemPrompt userPrompt)
  /\ accumulates_until (ending body) (observed gemini_deltas (chunks body))
       (streamExplanationFromGeminiWithSystem (respond response)
          apiKey model systemPrompt userPrompt).
Proof.
  intros Hok Hbody.
  split; [|split; [|split]];
    apply stream_accumulates;
    solve [apply claude_line_spec | apply gemini_line_spec | done].
Qed.

Lemma C2_accumulated_text_witness :
  let pieces :=
    [bytesq "data: {'type':'content_block_delta','delta':{'text':'Hel'}}" ++ [x0a]
     ++ bytesq "data: {'candidates':[{'content':{'parts':[{'text':'a'},{'text':'b'}]}}]}" ++ [x0a];
     bytesq "data: {'type':'content_block_delta','delta':{'text':'lo'}}" ++ [x0a]] in
  let response := MkResponse true (Throw SyntaxError) (Some (MkBody pieces (Normal tt))) in
  accumulates [js "Hel"; js "lo"]
    (streamExplanationFromClaude (respond response) (js "key") (js "m") (js "GET /"))
  /\ accumulates [js "a"; js "b"]
       (streamExplanationFromGemini (respond response) (js "key") (js "m") (js "GET /")).
Proof.
  intros pieces response.
  destruct (C2_accumulated_text response (MkBody pieces (Normal tt))
              (js "key") (js "m") (js "GET /") [] [] eq_refl eq_refl)
    as ((_ & Hclaude) & (_ & Hgemini) & _).
  exact (conj Hclaude Hgemini).
Defined.

(** ** Chunk boundaries *)

Lemma utf8_run_app st a b :
  Utf8.run st (a ++ b)
  = let '(st1, o1) := Utf8.run st a in
    let '(st2, o2) := Utf8.run st1 b in
    (st2, o1 ++ o2).
Proof.
  revert st. induction a as [|x a IH]; intros st.
  - simpl. by destruct (Utf8.run st b).
  - cbn [app Utf8.run]. destruct (Utf8.step st x) as [st1 o1].
    rewrite IH. destruct (Utf8.run st1 a) as [st2 o2].
    destruct (Utf8.run st2 b) as [st3 o3]. by rewrite app_assoc.
Qed.

Lemma serialize_app seen o1 o2 :
  serialize seen (o1 ++ o2)
  = let '(seen1, t1) := serialize seen o1 in
    let '(seen2, t2) := serialize seen1 o2 in
    (seen2, t1 ++ t2).
Proof.
  destruct o1 as [|c o1].
  - simpl. by destruct (serialize seen o2).
  - cbn [app serialize].
    assert (serialize true o2 = (true, concat (map Utf8.utf16 o2))) as Htrue.
    { by destruct o2. }
    destruct seen; [|destruct (c =? 65279)]; rewrite Htrue;
      cbv beta iota; f_equal; cbn [map concat];
      by rewrite map_app, concat_app, ?app_assoc.
Qed.

Lemma decode_stream_app d a b :
  decode_stream d (a ++ b)
  = let '(d1, t1) := decode_stream d a in
    let '(d2, t2) := decode_stream d1 b in
    (d2, t1 ++ t2).
Proof.
  unfold decode_stream. rewrite map_app, utf8_run_app.
  destruct (Utf8.run (td_utf8 d) (map to_N a)) as [st1 o1].
  destruct (Utf8.run st1 (map to_N b)) as [st2 o2] eqn:Erun.
  rewrite serialize_app.
  destruct (serialize (td_bom_seen d) o1) as [seen1 t1]. cbn [td_utf8 td_bom_seen].
  rewrite Erun. by destruct (serialize seen1 o2).
Qed.

Lemma decode_stream_nil d : decode_stream d [] = (d, []).
Proof. by destruct d. Qed.

(** What the chunks decode to does not depend on where they are cut. *)
Lemma decoded_concat d chunks :
  decoded d chunks = snd (decode_stream d (concat chunks)).
Proof.
  revert d. induction chunks as [|value rest IH]; intros d.
  - by rewrite decode_stream_nil.
  - cbn [decoded concat]. rewrite decode_stream_app.
    destruct (decode_stream d value) as [d1 t1]. rewrite IH.
    by destruct (decode_stream d1 (concat rest)).
Qed.

Lemma utf8_lead_awaits_high b : awaits_high (fst (Utf8.lead b)).
Proof.
  unfold Utf8.lead, awaits_high.
  repeat match goal with
         | |- context [if ?c then _ else _] => destruct c
         end; cbn; lia.
Qed.

Lemma utf8_step_awaits_high st b : awaits_high (fst (Utf8.step st b)).
Proof.
  unfold Utf8.step.
  destruct (Utf8.bytes_needed st =? 0); [apply utf8_lead_awaits_high|].
  destruct (negb _).
  - pose proof (utf8_lead_awaits_high b) as Hl.
    by destruct (Utf8.lead b).
  - destruct (_ =? _); unfold awaits_high; cbn; lia.
Qed.

Lemma utf8_run_awaits_high st bs :
  awaits_high st -> awaits_high (fst (Utf8.run st bs)).
Proof.
  revert st. induction bs as [|b bs IH]; intros st Hst; [done|].
  cbn [Utf8.run]. pose proof (utf8_step_awaits_high st b) as Hs.
  destruct (Utf8.step st b) as [st1 o1]. specialize (IH st1 Hs).
  by destruct (Utf8.run st1 bs).
Qed.

Lemma utf8_step_line_feed st :
  awaits_high st -> exists o, Utf8.step st 10 = (Utf8.init, o ++ [10]).
Proof.
  intros Hst. unfold Utf8.step. destruct (Utf8.bytes_needed st =? 0).
  - by exists [].
  - destruct (negb (Utf8.in_range (Utf8.lower st) (Utf8.upper st) 10)) eqn:E.
    + by exists [65533].
    + exfalso. apply negb_false_iff in E. unfold Utf8.in_range in E.
      apply andb_true_iff in E as [E1 _]. apply N.leb_le in E1.
      unfold awaits_high in Hst. lia.
Qed.

Lemma utf8_run_line_feed st bs :
  awaits_high st -> exists o, Utf8.run st (bs ++ [10]) = (Utf8.init, o ++ [10]).
Proof.
  intros Hst. rewrite utf8_run_app.
  pose proof (utf8_run_awaits_high st bs Hst) as H1.
  destruct (Utf8.run st bs) as [st1 o1]. cbn [Utf8.run].
  destruct (utf8_step_line_feed st1 H1) as [o ->].
  exists (o1 ++ o). by rewrite app_nil_r, app_assoc.
Qed.

Lemma serialize_line_feed seen o :
  exists t, serialize seen (o ++ [10]) = (true, t ++ [10]).
Proof.
  assert (forall l, concat (map Utf8.utf16 (l ++ [10])) = concat (map Utf8.utf16 l) ++ [10])
    as Hc.
  { intros l. by rewrite map_app, concat_app. }
  destruct o as [|c o]; cbn [app serialize].
  - exists []. destruct seen; done.
  - destruct seen; [|destruct (c =? 65279)].
    + eexists. by rewrite app_comm_cons, Hc.
    + eexists. by rewrite Hc.
    + eexists. by rewrite app_comm_cons, Hc.
Qed.

Lemma decode_stream_ok d value :
  decoder_ok d -> decoder_ok (fst (decode_stream d value)).
Proof.
  unfold decoder_ok, decode_stream. intros Hd.
  pose proof (utf8_run_awaits_high _ (map to_N value) Hd) as H1.
  destruct (Utf8.run _ _) as [st o]. by destruct (serialize _ o).
Qed.

Lemma decode_stream_line_feed d value :
  decoder_ok d ->
  exists d1 t, decode_stream d (value ++ [x0a]) = (d1, t ++ [LF]).
Proof.
  unfold decoder_ok, decode_stream. intros Hd.
  rewrite map_app. change (map to_N [x0a]) with [10].
  destruct (utf8_run_line_feed _ (map to_N value) Hd) as [o ->].
  destruct (serialize_line_feed (td_bom_seen d) o) as [t ->].
  by eexists _, _.
Qed.

Lemma split_app_sep sep u t :
  split sep (u ++ sep :: t) = split sep u ++ split sep t.
Proof.
  induction u as [|c u IH]; cbn [app split].
  - by rewrite N.eqb_refl.
  - rewrite IH. destruct (c =? sep); [done|].
    destruct (split sep u) as [|l ls] eqn:E; [|done].
    by destruct u; [|simpl in E; destruct (_ =? _), (split sep u)].
Qed.

Lemma split_snoc_sep sep u :
  split sep (u ++ [sep]) = split sep u ++ [[]].
Proof. apply split_app_sep. Qed.

Lemma aligned_lines (deltas_of : jsstring -> list jsstring) d chunks :
  deltas_of [] = [] ->
  decoder_ok d ->
  line_aligned chunks ->
  flat_map deltas_of (lines_read d chunks)
  = flat_map deltas_of (split LF (snd (decode_stream d (concat chunks)))).
Proof.
  intros Hnil. revert d.
  induction chunks as [|value rest IH]; intros d Hd Halign.
  - cbn [concat lines_read]. rewrite decode_stream_nil. simpl. by rewrite Hnil.
  - destruct Halign as [Hvalue Hrest].
    cbn [concat lines_read]. rewrite decode_stream_app.
    pose proof (decode_stream_ok d value Hd) as Hd1.
    destruct (decode_stream d value) as [d1 t1] eqn:E1. cbn [fst] in Hd1.
    rewrite flat_map_app, (IH d1 Hd1 Hrest).
    destruct (decode_stream d1 (concat rest)) as [d2 t2] eqn:E2. cbn [snd].
    destruct Hvalue as [-> | [-> | Hlast]].
    + cbn [concat] in E2. rewrite decode_stream_nil in E2.
      injection E2 as _ <-. simpl. by rewrite Hnil, !app_nil_r.
    + rewrite decode_stream_nil in E1. injection E1 as _ <-.
      simpl. by rewrite Hnil.
    + apply last_Some in Hlast as [value' ->].
      destruct (decode_stream_line_feed d value' Hd) as (d1' & u & Hu).
      rewrite Hu in E1. injection E1 as _ <-.
      rewrite split_snoc_sep, flat_map_app. cbn [flat_map].
      rewrite Hnil, !app_nil_r.
      rewrite <- app_assoc. cbn [app].
      by rewrite split_app_sep, flat_map_app.
Qed.

Lemma observed_aligned (deltas_of : jsstring -> list jsstring) chunks :
  deltas_of [] = [] ->
  line_aligned chunks ->
  observed deltas_of chunks = observed deltas_of [concat chunks].
Proof.
  intros Hnil Halign. unfold observed.
  rewrite (aligned_lines deltas_of new_TextDecoder chunks Hnil); [|by compute|done].
  cbn [lines_read]. destruct (decode_stream _ _) as [d t]. cbn [snd].
  by rewrite app_nil_r.
Qed.

(** C1, as the spec states it, fails: a boundary inside a [data: ] line
    loses the fragment of that line. *)
Lemma C1_split_line_loses_fragment :
  let whole := bytesq "data: {'type':'content_block_delta','delta':{'text':'Hi'}}" ++ [x0a] in
  let first := bytesq "data: {'type':'content_blo" in
  let second := bytesq "ck_delta','delta':{'text':'Hi'}}" ++ [x0a] in
  first ++ second = whole
  /\ streamExplanationFromClaude (respond (delivered [whole])) [] [] []
     = MkOutcome [Fetch (anthropic_request [] [] 1024 explain_system_prompt
                           (js "Explain this HTTP request:" ++ [LF; LF]));
                  OnUpdate (js "Hi")]
         (Normal (js "Hi"))
  /\ streamExplanationFromClaude (respond (delivered [first; second])) [] [] []
     = MkOutcome [Fetch (anthropic_request [] [] 1024 explain_system_prompt
                           (js "Explain this HTTP request:" ++ [LF; LF]))]
         (Normal []).
Proof. repeat split; vm_compute; reflexivity. Qed.

(** C1 (amended): the text decoded from the chunks is the same wherever the
    body is cut, also inside a multi-byte character, and the text returned
    is the concatenation of the fragments extracted, in order; when every
    chunk boundary falls at the end of a line, the Anthropic reader reports
    and returns exactly what it does for the whole body in one chunk. *)
Theorem C1_chunk_boundaries pieces apiKey model request :
  decoded new_TextDecoder pieces = decoded new_TextDecoder [concat pieces]
  /\ result (streamExplanationFromClaude (respond (delivered pieces)) apiKey model request)
     = Normal (concat (observed claude_deltas pieces))
  /\ (line_aligned pieces ->
      streamExplanationFromClaude (respond (delivered pieces)) apiKey model request
      = streamExplanationFromClaude (respond (delivered [concat pieces])) apiKey model request).
Proof.
  split; [|split].
  - rewrite !decoded_concat. cbn [concat]. by rewrite app_nil_r.
  - unfold streamExplanationFromClaude.
    by rewrite (stream_response_delivered _ _ claude_line_spec).
  - intros Halign. unfold streamExplanationFromClaude.
    rewrite !(stream_response_delivered _ _ claude_line_spec).
    by rewrite (observed_aligned claude_deltas pieces).
Qed.

Lemma C1_chunk_boundaries_witness :
  let chunks :=
    [bytesq "data: {'type':'content_block_delta','delta':{'text':'caf" ++ [xc3; xa9]
       ++ bytesq "'}}" ++ [x0a];
     [];
     bytesq "data: [DONE]" ++ [x0a]
       ++ bytesq "data: {'type':'content_block_delta','delta':{'text':'!'}}"] in
  streamExplanationFromClaude (respond (delivered chunks)) (js "k") (js "m") (js "GET /")
  = streamExplanationFromClaude (respond (delivered [concat chunks])) (js "k") (js "m") (js "GET /").
Proof.
  intros chunks.
  apply (proj2 (proj2 (C1_chunk_boundaries chunks (js "k") (js "m") (js "GET /")))).
  repeat split; auto; right; [right | left]; reflexivity.
Defined.

(** ** What the parser consumes *)

Lemma skip_ws_split s :
  exists w, s = w ++ JSON.skip_ws s /\ forallb JSON.is_ws w = true.
Proof.
  induction s as [|c s (w & Hs & Hw)]; [by exists []|]. cbn [JSON.skip_ws].
  destruct (JSON.is_ws c) eqn:E.
  - exists (c :: w). split; [simpl; congruence | simpl; by rewrite E].
  - by exists [].
Qed.

Lemma skip_ws_suffix s : JSON.skip_ws s `suffix_of` s.
Proof. destruct (skip_ws_split s) as (w & Hs & _). by exists w. Qed.

Lemma skip_ws_nil s : JSON.skip_ws s = [] -> forallb JSON.is_ws s = true.
Proof.
  destruct (skip_ws_split s) as (w & Hs & Hw). intros E.
  rewrite E, app_nil_r in Hs. by subst.
Qed.

Lemma push_Some c x t r :
  JSON.push c x = Some (t, r) -> exists t', x = Some (t', r).
Proof. destruct x as [[t' r']|]; [|discriminate]. intros [= _ <-]. by eexists. Qed.

Lemma parse_chars_suffix s t r :
  JSON.parse_chars s = Some (t, r) -> r `suffix_of` s.
Proof.
  remember (length s) as n eqn:Hn. revert s t r Hn.
  induction n as [n IH] using lt_wf_ind. intros s t r Hn.
  destruct s as [|c s]; [discriminate|]. cbn [JSON.parse_chars].
  assert (forall s' t', (length s' < n)%nat -> s' `suffix_of` s ->
            JSON.parse_chars s' = Some (t', r) -> r `suffix_of` c :: s) as Hrec.
  { intros s' t' Hlen Hsuf Hp. apply suffix_cons_r. etrans; [|exact Hsuf].
    eapply IH; [exact Hlen | reflexivity | exact Hp]. }
  simpl in Hn.
  destruct (c =? 34).
  { intros [= _ <-]. by apply suffix_cons_r. }
  destruct (c =? 92).
  - destruct s as [|e s]; [discriminate|].
    assert (forall x t0, JSON.push x (JSON.parse_chars s) = Some (t0, r) ->
              r `suffix_of` c :: e :: s) as Hesc.
    { intros x t0 Hp. apply push_Some in Hp as [t' Hp].
      eapply Hrec; [|by apply suffix_cons_r|exact Hp]. simpl in Hn. lia. }
    repeat (destruct (e =? _); [by eauto|]).
    destruct (e =? 117); [|discriminate].
    destruct s as [|a [|b [|c' [|d s]]]]; try discriminate.
    destruct (JSON.hex4 a b c' d); [|discriminate].
    intros Hp. apply push_Some in Hp as [t' Hp].
    eapply Hrec; [|by do 5 apply suffix_cons_r|exact Hp]. simpl in Hn. lia.
  - destruct (c <? 32); [discriminate|].
    intros Hp. apply push_Some in Hp as [t' Hp].
    eapply Hrec; [|reflexivity|exact Hp]. lia.
Qed.

Lemma span_digits_suffix s : snd (JSON.span_digits s) `suffix_of` s.
Proof.
  induction s as [|c s IH]; [done|]. cbn [JSON.span_digits].
  destruct (is_digit c); [|done].
  destruct (JSON.span_digits s). by apply suffix_cons_r.
Qed.

Lemma parse_int_suffix s ds r : JSON.parse_int s = Some (ds, r) -> r `suffix_of` s.
Proof.
  destruct s as [|c s]; [discriminate|]. cbn [JSON.parse_int].
  destruct (c =? 48); [intros [= _ <-]; by apply suffix_cons_r|].
  destruct (is_digit c); [|discriminate].
  pose proof (span_digits_suffix s) as Hs. destruct (JSON.span_digits s).
  intros [= _ <-]. by apply suffix_cons_r.
Qed.

Lemma parse_frac_suffix s ds r : JSON.parse_frac s = Some (ds, r) -> r `suffix_of` s.
Proof.
  destruct s as [|c s]; [by intros [= _ <-]|]. cbn [JSON.parse_frac].
  destruct (c =? 46); [|by intros [= _ <-]].
  pose proof (span_digits_suffix s) as Hs. destruct (JSON.span_digits s) as [[|x xs] r'].
  - discriminate.
  - intros [= _ <-]. by apply suffix_cons_r.
Qed.

Lemma parse_exp_suffix s x r : JSON.parse_exp s = Some (x, r) -> r `suffix_of` s.
Proof.
  destruct s as [|c s]; [by intros [= _ <-]|]. cbn [JSON.parse_exp].
  destruct ((c =? 101) || (c =? 69)); [|by intros [= _ <-]].
  destruct s as [|g t].
  - simpl. discriminate.
  - destruct (g =? 45); [|destruct (g =? 43)];
      (destruct (JSON.span_digits _) as [[|y ys] r'] eqn:E; [discriminate|]);
      intros [= _ <-];
      match type of E with
      | JSON.span_digits ?u = _ =>
          pose proof (span_digits_suffix u) as Hs; rewrite E in Hs; simpl in Hs
      end.
    + by do 2 apply suffix_cons_r.
    + by do 2 apply suffix_cons_r.
    + by apply suffix_cons_r.
Qed.

Lemma parse_number_suffix s x r : JSON.parse_number s = Some (x, r) -> r `suffix_of` s.
Proof.
  unfold JSON.parse_number.
  assert (exists s1, s1 `suffix_of` s /\
            (let '(neg, s1') := match s with
                               | c :: t => if c =? 45 then (true, t) else (false, s)
                               | [] => (false, s)
                               end in s1') = s1) as (s1 & Hs1 & E).
  { destruct s as [|c t]; [by eexists|].
    destruct (c =? 45); eexists; (split; [|reflexivity]); [by apply suffix_cons_r|done]. }
  destruct (match s with
            | c :: t => if c =? 45 then (true, t) else (false, s)
            | [] => (false, s)
            end) as [neg s1']. subst s1'.
  destruct (JSON.parse_int s1) as [[ip s2]|] eqn:E1; [|discriminate].
  destruct (JSON.parse_frac s2) as [[fp s3]|] eqn:E2; [|discriminate].
  destruct (JSON.parse_exp s3) as [[ex s4]|] eqn:E3; [|discriminate].
  intros [= _ <-].
  apply parse_int_suffix in E1. apply parse_frac_suffix in E2.
  apply parse_exp_suffix in E3.
  etrans; [exact E3|]. etrans; [exact E2|]. by etrans.
Qed.

Lemma parse_literal_suffix s v r : JSON.parse_literal s = Some (v, r) -> r `suffix_of` s.
Proof.
  unfold JSON.parse_literal.
  repeat (destruct (startsWith s _); [intros [= _ <-]; apply suffix_drop|]).
  discriminate.
Qed.

Lemma skip_ws_cons_suffix s c r :
  JSON.skip_ws s = c :: r -> r `suffix_of` s.
Proof.
  intros E. pose proof (skip_ws_suffix s) as Hs. rewrite E in Hs.
  etrans; [|exact Hs]. by apply suffix_cons_r.
Qed.

Lemma parse_suffix fuel :
  (forall s v r, JSON.parse_value fuel s = Some (v, r) -> r `suffix_of` s)
  /\ (forall s vs r, JSON.parse_elements fuel s = Some (vs, r) -> r `suffix_of` s)
  /\ (forall s ms r, JSON.parse_members fuel s = Some (ms, r) -> r `suffix_of` s).
Proof.
  induction fuel as [|fuel (IHv & IHe & IHm)]; [by repeat split|].
  split; [|split].
  - intros s v r. cbn [JSON.parse_value].
    destruct (JSON.skip_ws s) as [|c t] eqn:Es; [discriminate|].
    pose proof (skip_ws_cons_suffix _ _ _ Es) as Ht.
    pose proof (skip_ws_suffix s) as Hs. rewrite Es in Hs.
    destruct (c =? 34).
    { destruct (JSON.parse_chars t) as [[x rest]|] eqn:E; [|discriminate].
      intros [= _ <-]. apply parse_chars_suffix in E. by etrans. }
    destruct (c =? 91).
    { destruct (JSON.skip_ws t) as [|c' t'] eqn:Et; [discriminate|].
      destruct (c' =? 93).
      - intros [= _ <-]. apply skip_ws_cons_suffix in Et. by etrans.
      - destruct (JSON.parse_elements fuel t) as [[vs rest]|] eqn:E; [|discriminate].
        intros [= _ <-]. apply IHe in E. by etrans. }
    destruct (c =? 123).
    { destruct (JSON.skip_ws t) as [|c' t'] eqn:Et; [discriminate|].
      destruct (c' =? 125).
      - intros [= _ <-]. apply skip_ws_cons_suffix in Et. by etrans.
      - destruct (JSON.parse_members fuel t) as [[ms rest]|] eqn:E; [|discriminate].
        intros [= _ <-]. apply IHm in E. by etrans. }
    destruct ((c =? 45) || is_digit c).
    { destruct (JSON.parse_number (c :: t)) as [[x rest]|] eqn:E; [|discriminate].
      intros [= _ <-]. apply parse_number_suffix in E. by etrans. }
    intros E. apply parse_literal_suffix in E. by etrans.
  - intros s vs r. cbn [JSON.parse_elements].
    destruct (JSON.parse_value fuel s) as [[v r1]|] eqn:Ev; [|discriminate].
    apply IHv in Ev.
    destruct (JSON.skip_ws r1) as [|c r2] eqn:E1; [discriminate|].
    apply skip_ws_cons_suffix in E1.
    destruct (c =? 44).
    + destruct (JSON.parse_elements fuel r2) as [[vs' r3]|] eqn:Ee; [|discriminate].
      intros [= _ <-]. apply IHe in Ee. etrans; [exact Ee|]. by etrans.
    + destruct (c =? 93); [|discriminate]. intros [= _ <-]. by etrans.
  - intros s ms r. cbn [JSON.parse_members].
    destruct (JSON.skip_ws s) as [|q r0] eqn:E0; [discriminate|].
    apply skip_ws_cons_suffix in E0.
    destruct (q =? 34); [|discriminate].
    destruct (JSON.parse_chars r0) as [[k r1]|] eqn:Ek; [|discriminate].
    apply parse_chars_suffix in Ek.
    destruct (JSON.skip_ws r1) as [|c1 r2] eqn:E1; [discriminate|].
    apply skip_ws_cons_suffix in E1.
    destruct (c1 =? 58); [|discriminate].
    destruct (JSON.parse_value fuel r2) as [[v r3]|] eqn:Ev; [|discriminate].
    apply IHv in Ev.
    destruct (JSON.skip_ws r3) as [|c r4] eqn:E3; [discriminate|].
    apply skip_ws_cons_suffix in E3.
    assert (r4 `suffix_of` s) as H4.
    { etrans; [exact E3|]. etrans; [exact Ev|]. etrans; [exact E1|]. by etrans. }
    destruct (c =? 44).
    + destruct (JSON.parse_members fuel r4) as [[ms' r5]|] eqn:Em; [|discriminate].
      intros [= _ <-]. apply IHm in Em. by etrans.
    + destruct (c =? 125); [|discriminate]. by intros [= _ <-].
Qed.

(** The elements of an array end with its closing bracket. *)
Lemma parse_elements_closed fuel s vs r :
  JSON.parse_elements fuel s = Some (vs, r) -> exists pre, s = pre ++ 93 :: r.
Proof.
  revert s vs r. induction fuel as [|fuel IH]; intros s vs r; [discriminate|].
  cbn [JSON.parse_elements].
  destruct (JSON.parse_value fuel s) as [[v r1]|] eqn:Ev; [|discriminate].
  apply (proj1 (parse_suffix fuel)) in Ev as [p1 ->].
  destruct (skip_ws_split r1) as (w & Hr1 & _).
  destruct (JSON.skip_ws r1) as [|c r2]; [discriminate|].
  destruct (c =? 44) eqn:Ec.
  - destruct (JSON.parse_elements fuel r2) as [[vs' r3]|] eqn:Ee; [|discriminate].
    intros [= _ <-]. apply IH in Ee as [pre ->].
    exists (p1 ++ w ++ c :: pre). rewrite Hr1.
    by rewrite <- !app_assoc.
  - destruct (c =? 93) eqn:Ec'; [|discriminate].
    apply N.eqb_eq in Ec'. subst c. intros [= _ <-].
    exists (p1 ++ w). rewrite Hr1 at 1. by rewrite <- app_assoc.
Qed.

(** A text that parses to an array is an opening bracket, something, and a
    closing bracket, between runs of JSON whitespace. *)
Lemma parse_array_shape text elems :
  JSON.parse text = Some (JArray elems) ->
  exists w1 mid w2,
    text = w1 ++ 91 :: mid ++ 93 :: w2
    /\ forallb JSON.is_ws w1 = true /\ forallb JSON.is_ws w2 = true.
Proof.
  unfold JSON.parse.
  destruct (JSON.parse_value _ text) as [[v rest]|] eqn:Ev; [|discriminate].
  destruct (JSON.skip_ws rest) eqn:Erest; [|discriminate].
  apply skip_ws_nil in Erest. intros [= Hv]. subst v.
  destruct (2 * length text + 2)%nat as [|fuel]; [discriminate|].
  cbn [JSON.parse_value] in Ev.
  destruct (skip_ws_split text) as (w1 & Htext & Hw1).
  destruct (JSON.skip_ws text) as [|c t]; [discriminate|].
  destruct (c =? 34).
  { destruct (JSON.parse_chars t) as [[? ?]|]; discriminate. }
  destruct (c =? 91) eqn:Ec.
  { apply N.eqb_eq in Ec. subst c.
    destruct (skip_ws_split t) as (w & Ht & _).
    destruct (JSON.skip_ws t) as [|c' t'] eqn:Et; [discriminate|].
    destruct (c' =? 93) eqn:Ec'.
    - apply N.eqb_eq in Ec'. subst c'. injection Ev as _ Hrest. subst t'.
      exists w1, w, rest. split; [|done]. by rewrite Htext, Ht at 1.
    - destruct (JSON.parse_elements _ t) as [[vs r]|] eqn:Ee; [|discriminate].
      injection Ev as _ Hrest. subst r.
      apply parse_elements_closed in Ee as [pre Hpre].
      exists w1, pre, rest. split; [|done]. by rewrite Htext, Hpre at 1. }
  destruct (c =? 123).
  { destruct (JSON.skip_ws t) as [|c' t']; [discriminate|].
    destruct (c' =? 125); [discriminate|].
    destruct (JSON.parse_members _ t) as [[? ?]|]; discriminate. }
  destruct ((c =? 45) || is_digit c).
  { destruct (JSON.parse_number _) as [[? ?]|]; discriminate. }
  unfold JSON.parse_literal in Ev.
  repeat (destruct (startsWith _ _); [discriminate|]). discriminate.
Qed.

(** ** The fuel of the parser *)

Lemma skip_ws_length s : (length (JSON.skip_ws s) <= length s)%nat.
Proof. apply suffix_length, skip_ws_suffix. Qed.

Lemma parse_int_shorter s ds r :
  JSON.parse_int s = Some (ds, r) -> (length r < length s)%nat.
Proof.
  destruct s as [|c s]; [discriminate|]. cbn [JSON.parse_int].
  destruct (c =? 48); [intros [= _ <-]; simpl; lia|].
  destruct (is_digit c); [|discriminate].
  pose proof (suffix_length _ _ (span_digits_suffix s)) as Hs.
  destruct (JSON.span_digits s). intros [= _ <-]. simpl in *. lia.
Qed.

Lemma parse_number_shorter s x r :
  JSON.parse_number s = Some (x, r) -> (length r < length s)%nat.
Proof.
  unfold JSON.parse_number.
  assert (exists s1, (length s1 <= length s)%nat /\
            (let '(neg, s1') := match s with
                               | c :: t => if c =? 45 then (true, t) else (false, s)
                               | [] => (false, s)
                               end in s1') = s1) as (s1 & Hs1 & E).
  { destruct s as [|c t]; [by eexists|].
    destruct (c =? 45); eexists; (split; [|reflexivity]); simpl; lia. }
  destruct (match s with
            | c :: t => if c =? 45 then (true, t) else (false, s)
            | [] => (false, s)
            end) as [neg s1']. subst s1'.
  destruct (JSON.parse_int s1) as [[ip s2]|] eqn:E1; [|discriminate].
  destruct (JSON.parse_frac s2) as [[fp s3]|] eqn:E2; [|discriminate].
  destruct (JSON.parse_exp s3) as [[ex s4]|] eqn:E3; [|discriminate].
  intros [= _ <-].
  apply parse_int_shorter in E1.
  apply parse_frac_suffix, suffix_length in E2.
  apply parse_exp_suffix, suffix_length in E3. lia.
Qed.

Lemma startsWith_drop_shorter s p :
  startsWith s p = true -> p <> [] -> (length (drop (length p) s) < length s)%nat.
Proof.
  intros Hs Hp. apply startsWith_app in Hs.
  assert (length s = length p + length (drop (length p) s))%nat as Hl.
  { rewrite Hs at 1. apply length_app. }
  destruct p; [done|]. simpl in *. lia.
Qed.

Lemma parse_literal_shorter s v r :
  JSON.parse_literal s = Some (v, r) -> (length r < length s)%nat.
Proof.
  unfold JSON.parse_literal.
  destruct (startsWith s (js "true")) eqn:E1.
  { intros [= _ <-]. by apply (startsWith_drop_shorter s (js "true")). }
  destruct (startsWith s (js "false")) eqn:E2.
  { intros [= _ <-]. by apply (startsWith_drop_shorter s (js "false")). }
  destruct (startsWith s (js "null")) eqn:E3; [|discriminate].
  intros [= _ <-]. by apply (startsWith_drop_shorter s (js "null")).
Qed.

(** A parse that succeeds with some fuel succeeds, with the same result,
    with any fuel of at least twice the number of code units it consumes. *)
Lemma parse_fuel n :
  (forall s v r, JSON.parse_value n s = Some (v, r) ->
     forall m, (2 * (length s - length r) <= m)%nat -> JSON.parse_value m s = Some (v, r))
  /\ (forall s vs r, JSON.parse_elements n s = Some (vs, r) ->
        forall m, (2 * (length s - length r) <= m)%nat ->
                  JSON.parse_elements m s = Some (vs, r))
  /\ (forall s ms r, JSON.parse_members n s = Some (ms, r) ->
        forall m, (2 * (length s - length r) <= m)%nat ->
                  JSON.parse_members m s = Some (ms, r)).
Proof.
  induction n as [|n (IHv & IHe & IHm)]; [by repeat split|].
  split; [|split].
  - intros s v r. cbn [JSON.parse_value].
    pose proof (skip_ws_length s) as Ls.
    destruct (JSON.skip_ws s) as [|c t] eqn:Es; [discriminate|]. simpl in Ls.
    destruct (c =? 34) eqn:E34.
    { destruct (JSON.parse_chars t) as [[x rest]|] eqn:E; [|discriminate].
      intros [= <- <-] m Hm.
      pose proof (suffix_length _ _ (parse_chars_suffix _ _ _ E)) as Hl.
      destruct m as [|m]; [lia|]. cbn [JSON.parse_value].
      by rewrite Es, E34, E. }
    destruct (c =? 91) eqn:E91.
    { pose proof (skip_ws_length t) as Lt.
      destruct (JSON.skip_ws t) as [|c' t'] eqn:Et; [discriminate|]. simpl in Lt.
      destruct (c' =? 93) eqn:E93.
      - intros [= <- <-] m Hm.
        destruct m as [|m]; [lia|]. cbn [JSON.parse_value].
        by rewrite Es, E34, E91, Et, E93.
      - destruct (JSON.parse_elements n t) as [[vs rest]|] eqn:E; [|discriminate].
        intros [= <- <-] m Hm.
        pose proof (suffix_length _ _ (proj1 (proj2 (parse_suffix n)) _ _ _ E)) as Hl.
        destruct m as [|m]; [lia|]. cbn [JSON.parse_value].
        rewrite Es, E34, E91, Et, E93.
        by rewrite (IHe _ _ _ E m) by lia. }
    destruct (c =? 123) eqn:E123.
    { pose proof (skip_ws_length t) as Lt.
      destruct (JSON.skip_ws t) as [|c' t'] eqn:Et; [discriminate|]. simpl in Lt.
      destruct (c' =? 125) eqn:E125.
      - intros [= <- <-] m Hm.
        destruct m as [|m]; [lia|]. cbn [JSON.parse_value].
        by rewrite Es, E34, E91, E123, Et, E125.
      - destruct (JSON.parse_members n t) as [[ms rest]|] eqn:E; [|discriminate].
        intros [= <- <-] m Hm.
        pose proof (suffix_length _ _ (proj2 (proj2 (parse_suffix n)) _ _ _ E)) as Hl.
        destruct m as [|m]; [lia|]. cbn [JSON.parse_value].
        rewrite Es, E34, E91, E123, Et, E125.
        by rewrite (IHm _ _ _ E m) by lia. }
    destruct ((c =? 45) || is_digit c) eqn:Enum.
    { destruct (JSON.parse_number (c :: t)) as [[x rest]|] eqn:E; [|discriminate].
      intros [= <- <-] m Hm.
      pose proof (parse_number_shorter _ _ _ E) as Hl. simpl in Hl.
      destruct m as [|m]; [lia|]. cbn [JSON.parse_value].
      by rewrite Es, E34, E91, E123, Enum, E. }
    intros E m Hm.
    pose proof (parse_literal_shorter _ _ _ E) as Hl. simpl in Hl.
    destruct m as [|m]; [lia|]. cbn [JSON.parse_value].
    by rewrite Es, E34, E91, E123, Enum.
  - intros s vs r. cbn [JSON.parse_elements].
    destruct (JSON.parse_value n s) as [[v r1]|] eqn:Ev; [|discriminate].
    pose proof (suffix_length _ _ (proj1 (parse_suffix n) _ _ _ Ev)) as L1.
    pose proof (skip_ws_length r1) as L2.
    destruct (JSON.skip_ws r1) as [|c r2] eqn:E1; [discriminate|]. simpl in L2.
    destruct (c =? 44) eqn:E44.
    + destruct (JSON.parse_elements n r2) as [[vs' r3]|] eqn:Ee; [|discriminate].
      intros [= <- <-] m Hm.
      pose proof (suffix_length _ _ (proj1 (proj2 (parse_suffix n)) _ _ _ Ee)) as L3.
      destruct m as [|m]; [lia|]. cbn [JSON.parse_elements].
      rewrite (IHv _ _ _ Ev m) by lia. rewrite E1, E44.
      by rewrite (IHe _ _ _ Ee m) by lia.
    + destruct (c =? 93) eqn:E93; [|discriminate].
      intros [= <- <-] m Hm.
      destruct m as [|m]; [lia|]. cbn [JSON.parse_elements].
      rewrite (IHv _ _ _ Ev m) by lia. by rewrite E1, E44, E93.
  - intros s ms r. cbn [JSON.parse_members].
    pose proof (skip_ws_length s) as L0.
    destruct (JSON.skip_ws s) as [|q r0] eqn:E0; [discriminate|]. simpl in L0.
    destruct (q =? 34) eqn:Eq; [|discriminate].
    destruct (JSON.parse_chars r0) as [[k r1]|] eqn:Ek; [|discriminate].
    pose proof (suffix_length _ _ (parse_chars_suffix _ _ _ Ek)) as L1.
    pose proof (skip_ws_length r1) as L2.
    destruct (JSON.skip_ws r1) as [|c1 r2] eqn:E1; [discriminate|]. simpl in L2.
    destruct (c1 =? 58) eqn:Ec1; [|discriminate].
    destruct (JSON.parse_value n r2) as [[v r3]|] eqn:Ev; [|discriminate].
    pose proof (suffix_length _ _ (proj1 (parse_suffix n) _ _ _ Ev)) as L3.
    pose proof (skip_ws_length r3) as L4.
    destruct (JSON.skip_ws r3) as [|c r4] eqn:E3; [discriminate|]. simpl in L4.
    destruct (c =? 44) eqn:E44.
    + destruct (JSON.parse_members n r4) as [[ms' r5]|] eqn:Em; [|discriminate].
      intros [= <- <-] m Hm.
      pose proof (suffix_length _ _ (proj2 (proj2 (parse_suffix n)) _ _ _ Em)) as L5.
      destruct m as [|m]; [lia|]. cbn [JSON.parse_members].
      rewrite E0, Eq, Ek, E1, Ec1.
      rewrite (IHv _ _ _ Ev m) by lia. rewrite E3, E44.
      by rewrite (IHm _ _ _ Em m) by lia.
    + destruct (c =? 125) eqn:E125; [|discriminate].
      intros [= <- <-] m Hm.
      destruct m as [|m]; [lia|]. cbn [JSON.parse_members].
      rewrite E0, Eq, Ek, E1, Ec1.
      rewrite (IHv _ _ _ Ev m) by lia. by rewrite E3, E44, E125.
Qed.

(** The fuel [JSON.parse] gives its parser is never what makes it fail: a
    text that parses with some fuel parses with the fuel it is given. *)
Lemma parse_fuel_enough n text v rest :
  JSON.parse_value n text = Some (v, rest) ->
  JSON.parse_value (2 * length text + 2) text = Some (v, rest).
Proof.
  intros Hp. apply (proj1 (parse_fuel n) _ _ _ Hp). lia.
Qed.

Lemma parse_complete n text v rest :
  JSON.parse_value n text = Some (v, rest) ->
  JSON.skip_ws rest = [] ->
  JSON.parse text = Some v.
Proof.
  intros Hp Hrest. unfold JSON.parse.
  by rewrite (parse_fuel_enough n text v rest Hp), Hrest.
Qed.

(** ** The fence pattern *)

Lemma shorter_tail (a : N) (s : jsstring) : RegExp.shorter s (a :: s) = true.
Proof. unfold RegExp.shorter. apply Nat.ltb_lt. simpl. lia. Qed.

Section RegExpLemmas.
Context {X : Type}.
Implicit Types (k : RegExp.cont (X := X)) (s : jsstring) (cap : option jsstring).

Lemma rmatch_lits c l s cap k :
  RegExp.rmatch (RegExp.lits c l) s cap k
  = if startsWith s (c :: l) then k (drop (S (length l)) s) cap else None.
Proof.
  revert c s. induction l as [|c' l IH]; intros c s.
  - destruct s as [|x s]; [done|]. simpl. destruct (x =? c); [|done].
    by rewrite drop_0.
  - destruct s as [|x s]; [done|].
    cbn [RegExp.lits RegExp.rmatch]. rewrite IH.
    cbn [startsWith]. destruct (x =? c); [|done]. reflexivity.
Qed.

Lemma rmatch_star_class_cons p a s cap k :
  p a = true ->
  RegExp.rmatch (RegExp.Star (RegExp.Class p)) (a :: s) cap k
  = match RegExp.rmatch (RegExp.Star (RegExp.Class p)) s cap k with
    | Some x => Some x
    | None => k (a :: s) cap
    end.
Proof.
  intros Hp. cbn [RegExp.rmatch length]. rewrite Hp, shorter_tail. reflexivity.
Qed.

Lemma rmatch_star_class_stop p s cap k :
  match s with [] => True | a :: _ => p a = false end ->
  RegExp.rmatch (RegExp.Star (RegExp.Class p)) s cap k = k s cap.
Proof.
  destruct s as [|a s]; [done|]. intros Hp.
  cbn [RegExp.rmatch length]. by rewrite Hp.
Qed.

Lemma rmatch_lazy_any s cap k :
  RegExp.rmatch (RegExp.LazyStar (RegExp.Class (fun _ => true))) s cap k
  = match k s cap with
    | Some x => Some x
    | None =>
        match s with
        | [] => None
        | _ :: s' => RegExp.rmatch (RegExp.LazyStar (RegExp.Class (fun _ => true))) s' cap k
        end
    end.
Proof.
  destruct s as [|a s]; cbn [RegExp.rmatch length].
  - by destruct (k [] cap).
  - destruct (k (a :: s) cap); [done|]. by rewrite shorter_tail.
Qed.
End RegExpLemmas.

Lemma white_space_not_backtick a : is_white_space a = true -> (a =? 96) = false.
Proof.
  intros Ha. destruct (a =? 96) eqn:E; [|done].
  apply N.eqb_eq in E. subst a. discriminate.
Qed.

Lemma json_ws_white_space c : JSON.is_ws c = true -> is_white_space c = true.
Proof.
  unfold JSON.is_ws. rewrite !orb_true_iff, !N.eqb_eq.
  intros [[[-> | ->] | ->] | ->]; reflexivity.
Qed.

Lemma json_ws_blank w : forallb JSON.is_ws w = true -> blank w.
Proof.
  unfold blank. induction w as [|c w IH]; [done|]. simpl.
  rewrite !andb_true_iff. intros [Hc Hw]. split; [by apply json_ws_white_space | auto].
Qed.

Lemma blank_app w1 w2 : blank w1 -> blank w2 -> blank (w1 ++ w2).
Proof. unfold blank. rewrite forallb_app. by intros -> ->. Qed.

Lemma blank_rev w : blank w -> blank (rev w).
Proof.
  unfold blank. induction w as [|c w IH]; [done|]. simpl.
  rewrite andb_true_iff, forallb_app. intros [Hc Hw]. simpl. by rewrite IH, Hc.
Qed.

Lemma trimStart_blank_app w s : blank w -> trimStart (w ++ s) = trimStart s.
Proof.
  unfold blank. induction w as [|c w IH]; [done|]. simpl.
  rewrite andb_true_iff. intros [-> Hw]. auto.
Qed.

Lemma trimStart_keeps c s : is_white_space c = false -> trimStart (c :: s) = c :: s.
Proof. simpl. by intros ->. Qed.

(** [trim] strips exactly the blank runs around a text that neither begins
    nor ends with whitespace. *)
Lemma trim_strips w1 c mid z w2 :
  blank w1 -> blank w2 -> is_white_space c = false -> is_white_space z = false ->
  trim (w1 ++ (c :: mid ++ [z]) ++ w2) = c :: mid ++ [z].
Proof.
  intros H1 H2 Hc Hz. unfold trim.
  assert (rev (c :: mid ++ [z]) = z :: rev (c :: mid)) as Hrev.
  { rewrite app_comm_cons. apply rev_unit. }
  rewrite trimStart_blank_app by done.
  change ((c :: mid ++ [z]) ++ w2) with (c :: (mid ++ [z]) ++ w2).
  rewrite trimStart_keeps by done.
  change (c :: (mid ++ [z]) ++ w2) with ((c :: mid ++ [z]) ++ w2).
  rewrite rev_app_distr, Hrev.
  rewrite trimStart_blank_app by by apply blank_rev.
  rewrite trimStart_keeps by done.
  rewrite <- Hrev. apply rev_involutive.
Qed.

Section FencePattern.
Context {X : Type}.
Implicit Types (k : RegExp.cont (X := X)) (s : jsstring) (cap : option jsstring).

Lemma rmatch_seq r1 r2 s cap k :
  RegExp.rmatch (RegExp.Seq r1 r2) s cap k
  = RegExp.rmatch r1 s cap (fun s' cap' => RegExp.rmatch r2 s' cap' k).
Proof. reflexivity. Qed.

Lemma rmatch_group r s cap k :
  RegExp.rmatch (RegExp.Group r) s cap k
  = RegExp.rmatch r s cap (fun s' _ => k s' (Some (take (length s - length s') s))).
Proof. reflexivity. Qed.

Lemma rmatch_opt r s cap k :
  RegExp.rmatch (RegExp.Opt r) s cap k
  = match RegExp.rmatch r s cap k with
    | Some x => Some x
    | None => k s cap
    end.
Proof. reflexivity. Qed.

(** The end of the pattern, [\s*```]: blanks, then the fence. *)
Lemma rmatch_closing s cap k :
  RegExp.rmatch
    (RegExp.Seq (RegExp.Star (RegExp.Class is_white_space)) (RegExp.lits 96 [96; 96]))
    s cap k
  = if startsWith (trimStart s) fence then k (drop 3 (trimStart s)) cap else None.
Proof.
  rewrite rmatch_seq.
  induction s as [|a s IH].
  - reflexivity.
  - cbn [trimStart]. destruct (is_white_space a) eqn:Ea.
    + rewrite rmatch_star_class_cons by done. rewrite IH.
      rewrite rmatch_lits. cbn [startsWith]. rewrite white_space_not_backtick by done.
      cbn [andb].
      destruct (startsWith (trimStart s) fence); [|done].
      by destruct (k _ cap).
    + rewrite rmatch_star_class_stop by done. by rewrite rmatch_lits.
Qed.

(** The lazy star stops at the first place where what follows matches. *)
Lemma rmatch_lazy_first pre post cap k x :
  (forall a b, pre = a ++ b -> b <> [] -> k (b ++ post) cap = None) ->
  k post cap = Some x ->
  RegExp.rmatch (RegExp.LazyStar (RegExp.Class (fun _ => true))) (pre ++ post) cap k
  = Some x.
Proof.
  induction pre as [|c pre IH]; intros Hnone Hpost.
  - rewrite rmatch_lazy_any. cbn [app]. by rewrite Hpost.
  - rewrite rmatch_lazy_any. rewrite (Hnone [] (c :: pre)) by done. cbn [app].
    apply IH; [|done]. intros a b -> Hb. by apply (Hnone (c :: a) b).
Qed.

(** The greedy star over blanks gives way to what follows it. *)
Lemma rmatch_star_blank w s cap k x :
  blank w ->
  RegExp.rmatch (RegExp.Star (RegExp.Class is_white_space)) s cap k = Some x ->
  RegExp.rmatch (RegExp.Star (RegExp.Class is_white_space)) (w ++ s) cap k = Some x.
Proof.
  unfold blank. induction w as [|a w IH]; [done|]. cbn [forallb app].
  rewrite andb_true_iff. intros [Ha Hw] Hs.
  rewrite rmatch_star_class_cons by done. by rewrite IH.
Qed.
End FencePattern.

(** Inside a text that ends with a closing bracket, the fence cannot begin
    in the text and end after it. *)
Lemma fence_starts_inside b rest :
  startsWith (b ++ rest) fence = true -> last b = Some 93 -> exists b', b = fence ++ b'.
Proof.
  intros Hs Hl.
  destruct b as [|c1 [|c2 [|c3 b]]].
  - discriminate.
  - simpl in Hl. assert (c1 = 93) as -> by congruence. discriminate.
  - simpl in Hl. assert (c2 = 93) as -> by congruence. cbn [app startsWith] in Hs.
    simpl in Hs. rewrite andb_false_r in Hs. discriminate.
  - cbn [app startsWith] in Hs.
    apply andb_true_iff in Hs as [H1%N.eqb_eq Hs].
    apply andb_true_iff in Hs as [H2%N.eqb_eq Hs].
    apply andb_true_iff in Hs as [H3%N.eqb_eq _].
    subst. by exists b.
Qed.

Lemma no_early_closing core a b after :
  core = a ++ b -> b <> [] -> last core = Some 93 -> ~ contains_fence core ->
  startsWith (trimStart (b ++ after)) fence = false.
Proof.
  intros -> Hb Hlast Hfence. revert a Hlast Hfence.
  induction b as [|c b IH]; intros a Hlast Hfence; [done|].
  assert (last (c :: b) = Some 93) as Hlb.
  { rewrite last_app in Hlast. destruct (last (c :: b)) eqn:E; [done|].
    by apply last_None in E. }
  cbn [app trimStart]. destruct (is_white_space c) eqn:Ec.
  - destruct b as [|c' b].
    { simpl in Hlb. assert (c = 93) as -> by congruence. discriminate. }
    apply (IH ltac:(done) (a ++ [c])); by rewrite <- app_assoc.
  - destruct (startsWith (c :: b ++ after) fence) eqn:Es; [|done].
    exfalso. apply Hfence.
    destruct (fence_starts_inside (c :: b) after Es Hlb) as [b' ->].
    by exists a, b'.
Qed.

Lemma exec_unfold r s :
  RegExp.exec r s
  = match RegExp.rmatch r s None (fun _ cap => Some cap) with
    | Some cap => Some cap
    | None => match s with
              | [] => None
              | _ :: s' => RegExp.exec r s'
              end
    end.
Proof. by destruct s. Qed.

Lemma fence_re_needs_fence s cap (k : RegExp.cont (X := option jsstring)) :
  startsWith s fence = false -> RegExp.rmatch fence_re s cap k = None.
Proof.
  intros Hs. unfold fence_re. cbv zeta. rewrite rmatch_seq, rmatch_lits.
  change (96 :: [96; 96]) with fence. by rewrite Hs.
Qed.

Lemma exec_no_fence s : ~ contains_fence s -> RegExp.exec fence_re s = None.
Proof.
  induction s as [|a s IH]; intros Hs; rewrite exec_unfold.
  - by rewrite fence_re_needs_fence.
  - rewrite fence_re_needs_fence.
    + apply IH. intros (x & y & ->). apply Hs. by exists (a :: x), y.
    + destruct (startsWith (a :: s) fence) eqn:E; [|done].
      exfalso. apply Hs. apply startsWith_app in E. by exists [], (drop 3 (a :: s)).
Qed.

Lemma blank_not_tag w rest l :
  blank w -> startsWith (w ++ 91 :: rest) (106 :: l) = false.
Proof.
  unfold blank. destruct w as [|a w]; [done|]. cbn [forallb app startsWith].
  rewrite andb_true_iff. intros [Ha _].
  destruct (a =? 106) eqn:E; [|done].
  apply N.eqb_eq in E. subst a. discriminate.
Qed.

(** On a fenced text that begins and ends with brackets and holds no fence
    of its own, the pattern matches at the opening fence and captures the
    text. *)
Lemma fence_re_captures tag A mid B :
  tag = [] \/ tag = js "json" ->
  blank A -> blank B ->
  ~ contains_fence (91 :: mid ++ [93]) ->
  RegExp.rmatch fence_re
    (fence ++ tag ++ A ++ (91 :: mid ++ [93]) ++ B ++ fence) None (fun _ cap => Some cap)
  = Some (Some (91 :: mid ++ [93])).
Proof.
  intros Htag HA HB Hfence.
  set (core := 91 :: mid ++ [93]) in *.
  set (final := fun (_ : jsstring) (cap : option jsstring) => Some cap).
  assert (last core = Some 93) as Hlast.
  { unfold core. rewrite app_comm_cons. apply last_snoc. }
  (* from the capture group on *)
  assert (forall cap,
            RegExp.rmatch
              (RegExp.Seq (RegExp.Group (RegExp.LazyStar (RegExp.Class (fun _ => true))))
                 (RegExp.Seq (RegExp.Star (RegExp.Class is_white_space))
                    (RegExp.lits 96 [96; 96])))
              (core ++ B ++ fence) cap final
            = Some (Some core)) as Hgroup.
  { intros cap. rewrite rmatch_seq, rmatch_group.
    apply rmatch_lazy_first.
    - intros a b Hab Hb. cbv beta. rewrite rmatch_closing.
      by rewrite (no_early_closing core a b (B ++ fence)).
    - cbv beta. rewrite rmatch_closing, trimStart_blank_app by done.
      cbn [trimStart fence is_white_space]. cbn [startsWith]. cbv beta.
      unfold final. do 2 f_equal.
      apply take_app_length'. rewrite length_app. lia. }
  (* from the blanks after the tag on *)
  assert (forall cap,
            RegExp.rmatch
              (RegExp.Seq (RegExp.Star (RegExp.Class is_white_space))
                 (RegExp.Seq (RegExp.Group (RegExp.LazyStar (RegExp.Class (fun _ => true))))
                    (RegExp.Seq (RegExp.Star (RegExp.Class is_white_space))
                       (RegExp.lits 96 [96; 96]))))
              (A ++ core ++ B ++ fence) cap final
            = Some (Some core)) as Hblanks.
  { intros cap. rewrite rmatch_seq. apply rmatch_star_blank; [done|].
    rewrite rmatch_star_class_stop by done. apply Hgroup. }
  unfold fence_re. cbv zeta. rewrite rmatch_seq, rmatch_lits.
  change (startsWith (fence ++ ?x) (96 :: [96; 96])) with true. cbv iota.
  change (drop (S (length [96; 96])) (fence ++ ?x)) with x.
  rewrite rmatch_seq, rmatch_opt.
  destruct Htag as [-> | ->].
  - cbn [app]. rewrite rmatch_lits.
    change (core ++ B ++ fence) with (91 :: (mid ++ [93]) ++ B ++ fence) at 1.
    rewrite blank_not_tag by done. apply Hblanks.
  - rewrite rmatch_lits.
    change (startsWith (js "json" ++ ?x) (106 :: js "son")) with true. cbv iota.
    change (drop (S (length (js "son"))) (js "json" ++ ?x)) with x.
    by rewrite Hblanks.
Qed.

Lemma trim_fenced tag before t after :
  trim (fenced tag before t after) = fenced tag before t after.
Proof.
  unfold fenced, fence.
  set (inner := tag ++ before ++ t ++ after).
  replace ([96; 96; 96] ++ tag ++ before ++ t ++ after ++ [96; 96; 96])
    with ([] ++ (96 :: ([96; 96] ++ inner ++ [96; 96]) ++ [96]) ++ [])
    by (unfold inner; simpl; rewrite app_nil_r, <- !app_assoc; reflexivity).
  etrans; [by apply trim_strips|]. simpl. by rewrite app_nil_r.
Qed.

(** What is parsed for a fenced array text, and for the text itself: the
    text without the blanks around it. *)
Lemma fence_strip_array tag before t after elems :
  JSON.parse t = Some (JArray elems) ->
  ~ contains_fence t ->
  blank before -> blank after ->
  tag = [] \/ tag = js "json" ->
  fence_strip (fenced tag before t after) = trim t
  /\ fence_strip t = trim t.
Proof.
  intros Hparse Hfence Hb Ha Htag.
  destruct (parse_array_shape t elems Hparse) as (w1 & mid & w2 & Ht & Hw1 & Hw2).
  apply json_ws_blank in Hw1, Hw2.
  set (core := 91 :: mid ++ [93]).
  assert (t = w1 ++ core ++ w2) as Ht'.
  { rewrite Ht. unfold core. simpl. by rewrite <- app_assoc. }
  assert (~ contains_fence core) as Hcore.
  { intros (x & y & Hxy). apply Hfence. exists (w1 ++ x), (y ++ w2).
    rewrite Ht', Hxy. by rewrite <- !app_assoc. }
  assert (trim t = core) as Htrim.
  { rewrite Ht'. by apply trim_strips. }
  split.
  - unfold fence_strip. rewrite trim_fenced, exec_unfold.
    assert (fenced tag before t after
            = fence ++ tag ++ (before ++ w1) ++ core ++ (w2 ++ after) ++ fence) as ->.
    { unfold fenced. rewrite Ht'. by rewrite <- !app_assoc. }
    rewrite Htrim. unfold core in *.
    by rewrite fence_re_captures by auto using blank_app.
  - unfold fence_strip. rewrite Htrim. by rewrite exec_no_fence.
Qed.

(** C6, as the spec states it, fails: an array text with a triple backtick
    inside one of its strings is parsed unwrapped, but once wrapped the
    fence pattern closes at that backtick run and nothing parses. *)
Lemma C6_inner_backticks_break_the_fence :
  let t := jsq "[{'index':0,'category':'```'}]" in
  JSON.parse t
  = Some (JArray [JObject [(js "index", JNumber (num 0));
                           (js "category", JString (js "```"))]])
  /\ parseCategories t
     = [MkCategory (JNumber (num 0)) (JString (js "```")) (JString (js "low"))
          (JString (js "No reasoning provided")) (JString (js "❓"))]
  /\ parseCategories (fenced (js "json") [LF] t [LF]) = [].
Proof. repeat split; vm_compute; reflexivity. Qed.

(** C6 (amended): for every text that parses as a JSON array and contains
    no triple backtick, [parseCategories] gives the same result for the
    text wrapped in one code fence, with or without the [json] tag and with
    any whitespace between the fences and the text, as for the text alone. *)
Theorem C6_fenced_array_same_result tag before t after elems :
  JSON.parse t = Some (JArray elems) ->
  ~ contains_fence t ->
  blank before -> blank after ->
  tag = [] \/ tag = js "json" ->
  parseCategories (fenced tag before t after) = parseCategories t.
Proof.
  intros Hparse Hfence Hb Ha Htag.
  destruct (fence_strip_array tag before t after elems) as [Hw Hu]; try done.
  unfold parseCategories, parseCategories_try. by rewrite Hw, Hu.
Qed.

Lemma fence_free_correct (t : jsstring) : fence_free t = true -> ~ contains_fence t.
Proof.
  intros Hscan (a & b & ->). induction a as [|c a IH].
  - destruct b; discriminate.
  - apply IH. cbn [app fence_free] in Hscan.
    apply andb_true_iff in Hscan as [_ Hscan]. exact Hscan.
Qed.

Lemma C6_fenced_array_witness :
  parseCategories
    (fenced (js "json") [LF] (jsq " [{'index':2,'category':'uses `code`'}] ") [LF])
  = parseCategories (jsq " [{'index':2,'category':'uses `code`'}] ").
Proof.
  apply (C6_fenced_array_same_result (js "json") [LF]
           (jsq " [{'index':2,'category':'uses `code`'}] ") [LF]
           [JObject [(js "index", JNumber (num 2));
                     (js "category", JString (js "uses `code`"))]]).
  - vm_compute. reflexivity.
  - apply fence_free_correct. vm_compute. reflexivity.
  - reflexivity.
  - reflexivity.
  - right. reflexivity.
Defined.

(* ===================================================================== *)
(** * Further properties                                                 *)
(* ===================================================================== *)

(** ** Settings *)

Ltac js_neq := let H := fresh in intros H; vm_compute in H; discriminate H.

Lemma getItem_or_nonempty ls k d : d <> [] -> getItem_or ls k d <> [].
Proof.
  intros Hd. unfold getItem_or. destruct (ls !! k) as [v|]; [|done].
  destruct (str_eqb v []) eqn:E; [done|]. by apply str_eqb_neq in E.
Qed.

Lemma getItem_or_insert ls k v d : v <> [] -> getItem_or (<[k := v]> ls) k d = v.
Proof.
  intros Hv. unfold getItem_or. rewrite lookup_insert_eq.
  apply str_eqb_neq in Hv. by rewrite Hv.
Qed.

Lemma getItem_or_insert_ne ls k k' v d :
  k' <> k -> getItem_or (<[k' := v]> ls) k d = getItem_or ls k d.
Proof. intros Hk. unfold getItem_or. by rewrite lookup_insert_ne. Qed.

(** X1: whatever the storage holds, the settings read from it name one of
    the two providers, Gemini exactly when [ai_provider] is stored as
    gemini, and their model is never the empty string. *)
Theorem X1_settings_well_formed (ls : Storage) :
  (provider (getAISettings ls) = js "gemini" <-> ls !! js "ai_provider" = Some (js "gemini"))
  /\ (provider (getAISettings ls) <> js "gemini" ->
      provider (getAISettings ls) = js "anthropic")
  /\ model (getAISettings ls) <> [].
Proof.
  unfold getAISettings.
  destruct (str_eqb (getItem_or ls (js "ai_provider") (js "anthropic")) (js "gemini"))
    eqn:E; cbn [provider model].
  - apply str_eqb_eq in E. split; [|split].
    + split; [intros _|done]. revert E. unfold getItem_or.
      destruct (ls !! js "ai_provider") as [v|]; [|js_neq].
      destruct (str_eqb v []); [js_neq|]. by intros ->.
    + done.
    + apply getItem_or_nonempty. js_neq.
  - apply str_eqb_neq in E. split; [|split].
    + split; [js_neq|]. intros Hls. exfalso. apply E.
      unfold getItem_or. unfold jsstring in *. by rewrite Hls.
    + done.
    + apply getItem_or_nonempty. js_neq.
Qed.

(** X2: settings saved with a non-empty key and model are the settings read
    back; a provider other than gemini is read back as anthropic. *)
Theorem X2_settings_round_trip (p key mdl : jsstring) (ls : Storage) :
  key <> [] -> mdl <> [] ->
  getAISettings (saveAISettings p key mdl ls)
  = MkSettings (if str_eqb p (js "gemini") then js "gemini" else js "anthropic") key mdl.
Proof.
  intros Hkey Hmdl. unfold getAISettings, saveAISettings.
  destruct (str_eqb p (js "gemini")) eqn:Ep.
  - apply str_eqb_eq in Ep. subst p.
    rewrite !(getItem_or_insert_ne _ (js "ai_provider")) by js_neq.
    rewrite getItem_or_insert by js_neq. rewrite str_eqb_refl. f_equal.
    + rewrite getItem_or_insert_ne by js_neq. by apply getItem_or_insert.
    + by apply getItem_or_insert.
  - rewrite !(getItem_or_insert_ne _ (js "ai_provider")) by js_neq.
    assert (str_eqb (getItem_or (<[js "ai_provider" := p]> ls)
                       (js "ai_provider") (js "anthropic")) (js "gemini") = false) as ->.
    { apply str_eqb_neq. apply str_eqb_neq in Ep. unfold getItem_or.
      rewrite lookup_insert_eq. destruct (str_eqb p []); [js_neq | done]. }
    f_equal.
    + rewrite getItem_or_insert_ne by js_neq. by apply getItem_or_insert.
    + by apply getItem_or_insert.
Qed.

Lemma X2_settings_round_trip_witness :
  getAISettings (saveAISettings (js "gemini") (js "AIza-key") (js "gemini-pro")
                   (<[js "anthropic_api_key" := js "sk-old"]> ∅))
  = MkSettings (js "gemini") (js "AIza-key") (js "gemini-pro").
Proof.
  apply (X2_settings_round_trip (js "gemini") (js "AIza-key") (js "gemini-pro")); js_neq.
Defined.

(** X3: saving settings writes [ai_provider] and the key and model of the
    provider saved, and nothing else: every other entry of the storage,
    the other provider's key and model among them, is as before. *)
Theorem X3_settings_frame (p key mdl k : jsstring) (ls : Storage) :
  ~ In k (settings_keys p) ->
  saveAISettings p key mdl ls !! k = ls !! k.
Proof.
  unfold settings_keys, saveAISettings. intros Hk.
  destruct (str_eqb p (js "gemini")); cbn [In] in Hk;
    rewrite !lookup_insert_ne; intuition.
Qed.

Lemma X3_settings_frame_witness :
  saveAISettings (js "gemini") (js "AIza-key") (js "gemini-pro")
    (<[js "anthropic_api_key" := js "sk-old"]> ∅) !! js "anthropic_api_key"
  = (<[js "anthropic_api_key" := js "sk-old"]> ∅ : Storage) !! js "anthropic_api_key".
Proof.
  apply X3_settings_frame. vm_compute. intros [H | [H | [H | []]]]; discriminate H.
Defined.

(** ** The shape of a streaming call *)

Lemma cumulative_from_last acc ds :
  last (cumulative_from acc ds) = if ds is [] then None else Some (acc ++ concat ds).
Proof.
  revert acc. induction ds as [|d ds IH]; intros acc; [done|].
  cbn [cumulative_from]. rewrite last_cons, IH.
  destruct ds as [|d' ds]; simpl; by rewrite ?app_nil_r, <- ?app_assoc.
Qed.

Section AnyNetwork.
Variable on_line : jsstring -> M stream unit.
Variable deltas_of : jsstring -> list jsstring.
Hypothesis on_line_spec :
  forall line st, on_line line st = (advanced st (deltas_of line), Normal tt).

(** What a streaming entry point does, case by case. *)
Lemma stream_response_cases (net : Network) req fallback :
  stream_response net req fallback on_line
  = match net req with
    | Throw e => MkOutcome [Fetch req] (Throw e)
    | Normal response =>
        if ok response then
          match response_body response with
          | None => MkOutcome [Fetch req] (Throw TypeError)
          | Some body =>
              MkOutcome
                (Fetch req :: map OnUpdate (cumulative (observed deltas_of (chunks body))))
                (match ending body with
                 | Normal _ => Normal (concat (observed deltas_of (chunks body)))
                 | Throw e => Throw e
                 end)
          end
        else
          MkOutcome [Fetch req]
            (match (let! errorData := json response in api_error errorData fallback) with
             | Normal e => Throw e
             | Throw e => Throw e
             end)
    end.
Proof using on_line_spec.
  unfold stream_response. destruct (net req) as [response|e]; [|done].
  destruct (ok response); [|done]. cbn [negb].
  destruct (response_body response) as [body|]; [|done].
  by rewrite (read_loop_spec on_line deltas_of on_line_spec).
Qed.

Lemma concat_last_cumulative (deltas : list jsstring) :
  concat deltas = default [] (last (cumulative deltas)).
Proof.
  unfold cumulative. rewrite cumulative_from_last. by destruct deltas.
Qed.

Lemma stream_response_shape (net : Network) req fallback :
  let o := stream_response net req fallback on_line in
  exists us,
    events o = Fetch req :: map OnUpdate us
    /\ (forall text, result o = Normal text -> text = default [] (last us))
    /\ (forall e, net req = Throw e -> us = [] /\ result o = Throw e)
    /\ (forall response,
          net req = Normal response ->
          ok response = false \/ response_body response = None ->
          us = [] /\ exists e, result o = Throw e)
    /\ (forall response body,
          net req = Normal response ->
          ok response = true ->
          response_body response = Some body ->
          result o = match ending body with
                     | Normal _ => Normal (default [] (last us))
                     | Throw e => Throw e
                     end).
Proof using on_line_spec.
  cbv zeta. rewrite stream_response_cases.
  destruct (net req) as [response|e].
  - destruct (ok response) eqn:Hok.
    + destruct (response_body response) as [body|] eqn:Hbody.
      * eexists. split; [reflexivity|]. cbn [result].
        rewrite <- concat_last_cumulative.
        split; [|split; [done|split]].
        -- destruct (ending body); [by intros text [= <-] | done].
        -- intros response' [= <-] [Hno | Hno]; congruence.
        -- intros response' body' [= <-] _. rewrite Hbody. by intros [= <-].
      * exists []. split; [done|]. split; [done|]. split; [done|]. split.
        -- intros response' [= <-] _. split; [done | by eexists].
        -- intros response' body' [= <-] _. by rewrite Hbody.
    + exists []. split; [done|]. cbn [result]. split.
      { by destruct (let! errorData := json response in _). }
      split; [done|]. split.
      * intros response' [= <-] _. split; [done|].
        destruct (let! errorData := json response in _); by eexists.
      * intros response' body' [= <-]. by rewrite Hok.
  - exists []. split; [done|]. split; [done|]. split; [by intros e' [= <-]|].
    by split.
Qed.
End AnyNetwork.

(** Every entry point is the shared call on its provider's request, line
    handler and fallback. *)
Lemma streamExplanation_entry apiKey model request prov :
  exists req, forall net,
    streamExplanation net apiKey model request prov
    = stream_response net req (fallback_of prov)
        (if str_eqb prov (js "gemini") then gemini_line else claude_line).
Proof.
  unfold streamExplanation, fallback_of.
  destruct (str_eqb prov (js "gemini")); by eexists.
Qed.

Lemma streamExplanationWithSystem_entry apiKey model systemPrompt userPrompt prov :
  exists req, forall net,
    streamExplanationWithSystem net apiKey model systemPrompt userPrompt prov
    = stream_response net req (fallback_of prov)
        (if str_eqb prov (js "gemini") then gemini_line else claude_line).
Proof.
  unfold streamExplanationWithSystem, fallback_of.
  destruct (str_eqb prov (js "gemini")); by eexists.
Qed.

Lemma provider_line_spec prov line st :
  (if str_eqb prov (js "gemini") then gemini_line else claude_line) line st
  = (advanced st (deltas_for prov line), Normal tt).
Proof.
  unfold deltas_for. destruct (str_eqb prov (js "gemini"));
    [apply gemini_line_spec | apply claude_line_spec].
Qed.

(** X4: whatever the network does, a streaming call hands exactly one
    request to [fetch], before anything else, and all it does afterwards is
    call [onUpdate].  If the call returns, the text returned is the
    argument of the last [onUpdate] call, or the empty string when there
    was none.  [onUpdate] is called only while the body of a successful
    response is read: a rejected [fetch], a response that is not ok and a
    successful response without a body make the call throw without any
    [onUpdate]; a body whose reads stop with a rejection makes the call
    throw that rejection, after the [onUpdate] calls of the chunks that
    were delivered. *)
Theorem X4_one_request_then_updates net apiKey model request systemPrompt userPrompt prov :
  forall o,
    o = streamExplanation net apiKey model request prov
    \/ o = streamExplanationWithSystem net apiKey model systemPrompt userPrompt prov ->
    exists req us,
      events o = Fetch req :: map OnUpdate us
      /\ (forall text, result o = Normal text -> text = default [] (last us))
      /\ (forall e, net req = Throw e -> us = [] /\ result o = Throw e)
      /\ (forall response,
            net req = Normal response ->
            ok response = false \/ response_body response = None ->
            us = [] /\ exists e, result o = Throw e)
      /\ (forall response body,
            net req = Normal response ->
            ok response = true ->
            response_body response = Some body ->
            result o = match ending body with
                       | Normal _ => Normal (default [] (last us))
                       | Throw e => Throw e
                       end).
Proof.
  intros o [-> | ->].
  - destruct (streamExplanation_entry apiKey model request prov) as [req ->].
    exists req. apply (stream_response_shape _ _ (provider_line_spec prov)).
  - destruct (streamExplanationWithSystem_entry apiKey model systemPrompt userPrompt prov)
      as [req ->].
    exists req. apply (stream_response_shape _ _ (provider_line_spec prov)).
Qed.

Lemma X4_one_request_witness :
  let lost := Error (js "network error") in
  let response :=
    MkResponse true (Throw SyntaxError)
      (Some (MkBody
               [bytesq "data: {'type':'content_block_delta','delta':{'text':'a'}}" ++ [x0a];
                bytesq "data: {'type':'content_block_delta','delta':{'text':'b'}}" ++ [x0a]]
               (Throw lost))) in
  let o := streamExplanation (respond response) (js "k") (js "m") (js "GET /")
             (js "anthropic") in
  exists req,
    events o = [Fetch req; OnUpdate (js "a"); OnUpdate (js "ab")]
    /\ result o = Throw lost.
Proof.
  intros lost response o.
  destruct (X4_one_request_then_updates (respond response)
              (js "k") (js "m") (js "GET /") [] [] (js "anthropic") o (or_introl eq_refl))
    as (req & us & Hev & _ & _ & _ & Hbody).
  exists req. split.
  - rewrite Hev. vm_compute in Hev. injection Hev as _ Hus.
    destruct us as [|u1 [|u2 [|u3 us]]]; try discriminate Hus.
    by injection Hus as <- <-.
  - exact (Hbody response _ eq_refl eq_refl eq_refl).
Defined.

(** ** Failed requests *)

Lemma stream_response_error response req fallback on_line :
  ok response = false ->
  stream_response (respond response) req fallback on_line
  = MkOutcome [Fetch req]
      (match (let! errorData := json response in api_error errorData fallback) with
       | Normal e => Throw e
       | Throw e => Throw e
       end).
Proof. intros Hok. unfold stream_response, respond. by rewrite Hok. Qed.

(** X5: when the response is not successful, every entry point throws
    without having called [onUpdate].  It throws what reading the body as
    JSON throws; a [TypeError] when the body is [null]; an [Error] with the
    message of the vendor's envelope [{error: {message}}] when that is a
    non-empty string; and an [Error] with the provider's fallback message
    when the body is an object without [error]. *)
Theorem X5_unsuccessful_response response apiKey model request systemPrompt userPrompt prov :
  ok response = false ->
  forall o,
    o = streamExplanation (respond response) apiKey model request prov
    \/ o = streamExplanationWithSystem (respond response) apiKey model
             systemPrompt userPrompt prov ->
    (forall e, json response = Throw e -> fails_with o e)
    /\ (json response = Normal JNull -> fails_with o TypeError)
    /\ (forall ms es message,
          json response = Normal (JObject ms) ->
          lookup_member (js "error") ms = Some (JObject es) ->
          lookup_member (js "message") es = Some (JString message) ->
          message <> [] ->
          fails_with o (Error message))
    /\ (forall ms,
          json response = Normal (JObject ms) ->
          lookup_member (js "error") ms = None ->
          fails_with o (Error (fallback_of prov))).
Proof.
  intros Hok o Ho.
  assert (exists req on_line,
            o = stream_response (respond response) req (fallback_of prov) on_line)
    as (req & on_line & ->).
  { destruct Ho as [-> | ->].
    - destruct (streamExplanation_entry apiKey model request prov) as [req ->].
      by eexists _, _.
    - destruct (streamExplanationWithSystem_entry apiKey model systemPrompt userPrompt prov)
        as [req ->]. by eexists _, _. }
  rewrite stream_response_error by done. unfold fails_with. cbn [events result].
  split; [|split; [|split]].
  - intros e Hj. by rewrite Hj.
  - intros Hj. by rewrite Hj.
  - intros ms es message Hj He Hm Hne. rewrite Hj. split; [done|].
    assert (api_error (JObject ms) (fallback_of prov) = Normal (Error message)) as Hapi.
    { unfold api_error.
      assert (get (JObject ms) (js "error") = Normal (JObject es)) as ->.
      { unfold get. by rewrite He. }
      cbn [bind].
      assert (get_opt (JObject es) (js "message") = Normal (JString message)) as ->.
      { unfold get_opt, get. by rewrite Hm. }
      cbn [bind]. unfold or_else. cbn [truthy].
      apply str_eqb_neq in Hne. by rewrite Hne. }
    cbn [bind]. by rewrite Hapi.
  - intros ms Hj He. rewrite Hj. split; [done|].
    assert (api_error (JObject ms) (fallback_of prov) = Normal (Error (fallback_of prov)))
      as Hapi.
    { unfold api_error.
      assert (get (JObject ms) (js "error") = Normal JUndefined) as ->.
      { unfold get. by rewrite He. }
      reflexivity. }
    cbn [bind]. by rewrite Hapi.
Qed.

Lemma X5_unsuccessful_response_witness :
  fails_with
    (streamExplanationWithSystem
       (respond (MkResponse false
                   (Normal (JObject [(js "error",
                                      JObject [(js "message", JString (js "invalid x-api-key"))])]))
                   None))
       (js "bad") (js "m") (js "sys") (js "user") (js "anthropic"))
    (Error (js "invalid x-api-key")).
Proof.
  set (response :=
         MkResponse false
           (Normal (JObject [(js "error",
                              JObject [(js "message", JString (js "invalid x-api-key"))])]))
           None).
  destruct (X5_unsuccessful_response response (js "bad") (js "m") [] (js "sys") (js "user")
              (js "anthropic") eq_refl _ (or_intror eq_refl)) as (_ & _ & Henvelope & _).
  eapply Henvelope; [reflexivity | reflexivity | reflexivity |].
  js_neq.
Defined.

(** ** Chunk boundaries, for every entry point *)

Lemma claude_deltas_nil : claude_deltas [] = [].
Proof. reflexivity. Qed.

Lemma gemini_deltas_nil : gemini_deltas [] = [].
Proof. reflexivity. Qed.

Lemma deltas_for_nil prov : deltas_for prov [] = [].
Proof. unfold deltas_for. by destruct (str_eqb prov (js "gemini")). Qed.

(** X6: for every entry point and provider, a successful response whose
    chunk boundaries all fall at the end of a line is read exactly as the
    same body delivered in one chunk: same [onUpdate] calls, same text. *)
Theorem X6_line_aligned_chunks pieces apiKey model request systemPrompt userPrompt prov :
  line_aligned pieces ->
  streamExplanation (respond (delivered pieces)) apiKey model request prov
  = streamExplanation (respond (delivered [concat pieces])) apiKey model request prov
  /\ streamExplanationWithSystem (respond (delivered pieces)) apiKey model
       systemPrompt userPrompt prov
     = streamExplanationWithSystem (respond (delivered [concat pieces])) apiKey model
         systemPrompt userPrompt prov.
Proof.
  intros Halign.
  assert (forall req fallback,
            stream_response (respond (delivered pieces)) req fallback
              (if str_eqb prov (js "gemini") then gemini_line else claude_line)
            = stream_response (respond (delivered [concat pieces])) req fallback
                (if str_eqb prov (js "gemini") then gemini_line else claude_line)) as Hsame.
  { intros req fallback.
    rewrite !(stream_response_delivered _ _ (provider_line_spec prov)).
    by rewrite (observed_aligned (deltas_for prov) pieces (deltas_for_nil prov)). }
  destruct (streamExplanation_entry apiKey model request prov) as [req1 H1].
  destruct (streamExplanationWithSystem_entry apiKey model systemPrompt userPrompt prov)
    as [req2 H2].
  rewrite !H1, !H2. split; apply Hsame.
Qed.

Lemma X6_line_aligned_chunks_witness :
  let pieces :=
    [bytesq "data: {'candidates':[{'content':{'parts':[{'text':'Hel'}]}}]}" ++ [x0d; x0a];
     bytesq "data: {'candidates':[{'content':{'parts':[{'text':'lo'}]}}]}" ++ [x0a]] in
  streamExplanation (respond (delivered pieces)) (js "k") (js "m") (js "GET /") (js "gemini")
  = streamExplanation (respond (delivered [concat pieces]))
      (js "k") (js "m") (js "GET /") (js "gemini").
Proof.
  intros pieces.
  apply (proj1 (X6_line_aligned_chunks pieces (js "k") (js "m") (js "GET /") [] []
                  (js "gemini") ltac:(repeat split; auto; right; right; reflexivity))).
Defined.

(** ** Whitespace and [trim] *)

Lemma trimStart_blank w : blank w -> trimStart w = [].
Proof.
  intros Hw. rewrite <- (app_nil_r w). by rewrite trimStart_blank_app.
Qed.

Lemma trimStart_app_blank s w :
  blank w ->
  trimStart (s ++ w) = match trimStart s with [] => [] | _ :: _ => trimStart s ++ w end.
Proof.
  intros Hw. induction s as [|c s IH].
  - cbn [app trimStart]. by apply trimStart_blank.
  - cbn [app trimStart]. by destruct (is_white_space c).
Qed.

Lemma trim_blank_r s w : blank w -> trim (s ++ w) = trim s.
Proof.
  intros Hw. unfold trim. rewrite trimStart_app_blank by done.
  destruct (trimStart s) as [|c t] eqn:E; [done|].
  rewrite rev_app_distr. by rewrite trimStart_blank_app by by apply blank_rev.
Qed.

Lemma trim_blank_l w s : blank w -> trim (w ++ s) = trim s.
Proof. intros Hw. unfold trim. by rewrite trimStart_blank_app by done. Qed.

Lemma trim_blank w : blank w -> trim w = [].
Proof. intros Hw. unfold trim. by rewrite (trimStart_blank w) by done. Qed.

Lemma blank_drop n w : blank w -> blank (drop n w).
Proof.
  unfold blank. revert n. induction w as [|c w IH]; intros n Hw; [by destruct n|].
  destruct n as [|n]; [done|]. simpl in *. apply andb_true_iff in Hw as [_ Hw]. auto.
Qed.

Lemma startsWith_app_l l w p :
  (length p <= length l)%nat -> startsWith (l ++ w) p = startsWith l p.
Proof.
  revert l. induction p as [|x p IH]; intros l Hl; [done|].
  destruct l as [|c l]; [simpl in Hl; lia|].
  cbn [app startsWith]. rewrite IH; [done | simpl in Hl; lia].
Qed.

(** ** The Gemini reader *)

Lemma data_prefix_length : length (js "data: ") = 6%nat.
Proof. reflexivity. Qed.

Lemma gemini_deltas_trailing_blank line w :
  blank w -> gemini_deltas (line ++ w) = gemini_deltas line.
Proof.
  intros Hw. unfold gemini_deltas.
  destruct (decide (6 <= length line)%nat) as [Hlen | Hlen].
  - rewrite startsWith_app_l by (by rewrite data_prefix_length).
    destruct (startsWith line (js "data: ")); [|done]. cbv zeta.
    unfold slice. rewrite drop_app_le by done.
    by rewrite trim_blank_r.
  - assert (startsWith line (js "data: ") = false) as ->.
    { destruct (startsWith line (js "data: ")) eqn:E; [|done].
      apply startsWith_app in E. rewrite E, length_app, data_prefix_length in Hlen.
      lia. }
    destruct (startsWith (line ++ w) (js "data: ")); [|done]. cbv zeta.
    unfold slice. rewrite drop_app_ge by lia.
    by rewrite trim_blank by by apply blank_drop.
Qed.

(** X7: the Gemini reader ignores whitespace at the end of a line, such as
    the carriage return of a CRLF line ending: the line does to the
    accumulated text what it does without it. *)
Theorem X7_gemini_trailing_whitespace (line w : jsstring) (st : stream) :
  blank w -> gemini_line (line ++ w) st = gemini_line line st.
Proof.
  intros Hw. by rewrite !gemini_line_spec, gemini_deltas_trailing_blank.
Qed.

Lemma X7_gemini_trailing_whitespace_witness :
  gemini_line
    (jsq "data: {'candidates':[{'content':{'parts':[{'text':'Hi'}]}}]}" ++ [13])
    (MkStream [] [])
  = (MkStream (js "Hi") [js "Hi"], Normal tt).
Proof.
  rewrite (X7_gemini_trailing_whitespace _ [13] (MkStream [] []) eq_refl).
  vm_compute. reflexivity.
Defined.

(** X8: a [data: ] line whose payload is blank, or is not JSON (the
    [[DONE]] sentinel included, which this reader does not single out),
    leaves the Gemini reader's state as it was and throws nothing, and the
    lines around it are processed as if it were absent; no line makes the
    read loop stop before the stream does. *)
Theorem X8_gemini_ignored_payloads (payload : jsstring) :
  blank payload \/ JSON.parse (trim payload) = None \/ payload = js "[DONE]" ->
  (forall st, gemini_line (js "data: " ++ payload) st = (st, Normal tt))
  /\ (forall before after st,
        for_of (before ++ (js "data: " ++ payload) :: after) gemini_line st
        = for_of (before ++ after) gemini_line st)
  /\ (forall decoder pieces ending st,
        snd (read_loop gemini_line decoder pieces ending st) = ending).
Proof.
  intros Hbad.
  assert (gemini_deltas (js "data: " ++ payload) = []) as Hnone.
  { unfold gemini_deltas.
    change (startsWith (js "data: " ++ payload) (js "data: ")) with true.
    change (slice 6 (js "data: " ++ payload)) with payload. cbv zeta.
    destruct Hbad as [Hb | [Hp | ->]].
    - by rewrite trim_blank.
    - rewrite Hp. by destruct (str_eqb (trim payload) []).
    - reflexivity. }
  split; [|split].
  - intros st. by rewrite gemini_line_spec, Hnone, advanced_nil.
  - intros before after st.
    rewrite !(for_of_lines_spec _ _ gemini_line_spec), !flat_map_app.
    cbn [flat_map]. by rewrite Hnone.
  - intros decoder pieces ending st.
    by rewrite (read_loop_spec _ _ gemini_line_spec).
Qed.

Lemma X8_gemini_ignored_payloads_witness :
  for_of [js "data: " ++ jsq "{'candidates':[{'content'";
          jsq "data: {'candidates':[{'content':{'parts':[{'text':'ok'}]}}]}"]
    gemini_line (MkStream (js "so far ") [js "so far "])
  = for_of [jsq "data: {'candidates':[{'content':{'parts':[{'text':'ok'}]}}]}"]
      gemini_line (MkStream (js "so far ") [js "so far "]).
Proof.
  destruct (X8_gemini_ignored_payloads (jsq "{'candidates':[{'content'"))
    as (_ & Hskip & _).
  - right. left. vm_compute. reflexivity.
  - apply (Hskip []).
Defined.

Lemma part_deltas_texts texts others :
  Forall (fun t => t <> []) texts ->
  part_deltas (map text_part texts ++ JNull :: others) = texts.
Proof.
  induction 1 as [|t texts Ht _ IH]; [done|].
  cbn [map app part_deltas text_part]. rewrite IH.
  change (prop (text_part t) (js "text")) with (JString t).
  cbn [truthy ToString].
  destruct (str_eqb t []) eqn:E; [by apply str_eqb_eq in E | done].
Qed.

(** X9: when the parts of a Gemini payload hold a [null], the parts before
    it contribute their text, one [onUpdate] call each, and the parts after
    it contribute nothing; the line still throws nothing. *)
Theorem X9_gemini_null_part (payload : jsstring) ms more fs cs texts others (st : stream) :
  JSON.parse (trim payload) = Some (JObject ms) ->
  lookup_member (js "candidates") ms = Some (JArray (JObject fs :: more)) ->
  lookup_member (js "content") fs = Some (JObject cs) ->
  lookup_member (js "parts") cs = Some (JArray (map text_part texts ++ JNull :: others)) ->
  Forall (fun t => t <> []) texts ->
  gemini_line (js "data: " ++ payload) st
  = (MkStream (fullText st ++ concat texts)
       (updates st ++ cumulative_from (fullText st) texts), Normal tt).
Proof.
  intros Hparse Hcand Hcontent Hparts Htexts.
  rewrite gemini_line_spec. f_equal.
  assert (gemini_deltas (js "data: " ++ payload) = texts) as ->; [|done].
  unfold gemini_deltas.
  change (startsWith (js "data: " ++ payload) (js "data: ")) with true.
  change (slice 6 (js "data: " ++ payload)) with payload. cbv zeta.
  destruct (str_eqb (trim payload) []) eqn:E.
  { apply str_eqb_eq in E. rewrite E in Hparse. discriminate Hparse. }
  rewrite Hparse.
  assert (prop (JObject ms) (js "candidates") = JArray (JObject fs :: more)) as ->.
  { unfold prop, get. by rewrite Hcand. }
  change (prop (JArray (JObject fs :: more)) (js "0")) with (JObject fs).
  assert (prop (JObject fs) (js "content") = JObject cs) as ->.
  { unfold prop, get. by rewrite Hcontent. }
  assert (prop (JObject cs) (js "parts")
          = JArray (map text_part texts ++ JNull :: others)) as ->.
  { unfold prop, get. by rewrite Hparts. }
  cbn [truthy andb iterate]. by apply part_deltas_texts.
Qed.

Lemma X9_gemini_null_part_witness :
  gemini_line
    (js "data: "
       ++ jsq "{'candidates':[{'content':{'parts':[{'text':'a'},{'text':'b'},null,{'text':'c'}]}}]}")
    (MkStream [] [])
  = (MkStream (js "ab") [js "a"; js "ab"], Normal tt).
Proof.
  apply (X9_gemini_null_part
           (jsq "{'candidates':[{'content':{'parts':[{'text':'a'},{'text':'b'},null,{'text':'c'}]}}]}")
           [(js "candidates",
             JArray [JObject [(js "content",
                       JObject [(js "parts",
                         JArray [text_part (js "a"); text_part (js "b"); JNull;
                                 text_part (js "c")])])]])]
           []
           [(js "content",
             JObject [(js "parts",
               JArray [text_part (js "a"); text_part (js "b"); JNull; text_part (js "c")])])]
           [(js "parts",
             JArray [text_part (js "a"); text_part (js "b"); JNull; text_part (js "c")])]
           [js "a"; js "b"] [text_part (js "c")] (MkStream [] [])).
  - vm_compute. reflexivity.
  - reflexivity.
  - reflexivity.
  - reflexivity.
  - repeat constructor; js_neq.
Defined.

(** ** Streams without text *)

Lemma stream_no_data_lines pieces apiKey model request systemPrompt userPrompt prov :
  Forall (fun line => startsWith line (js "data: ") = false)
    (lines_read new_TextDecoder pieces) ->
  forall o,
    o = streamExplanation (respond (delivered pieces)) apiKey model request prov
    \/ o = streamExplanationWithSystem (respond (delivered pieces)) apiKey model
             systemPrompt userPrompt prov ->
    updates_of (events o) = [] /\ result o = Normal [].
Proof.
  intros Hlines o Ho.
  assert (observed (deltas_for prov) pieces = []) as Hnone.
  { unfold observed. induction Hlines as [|line lines Hline _ IH]; [done|].
    cbn [flat_map]. rewrite IH.
    unfold deltas_for, gemini_deltas, claude_deltas.
    destruct (str_eqb prov (js "gemini")); by rewrite Hline. }
  assert (exists req,
            o = stream_response (respond (delivered pieces)) req (fallback_of prov)
                  (if str_eqb prov (js "gemini") then gemini_line else claude_line))
    as (req & ->).
  { destruct Ho as [-> | ->].
    - destruct (streamExplanation_entry apiKey model request prov) as [req ->].
      by eexists.
    - destruct (streamExplanationWithSystem_entry apiKey model systemPrompt userPrompt prov)
        as [req ->]. by eexists. }
  rewrite (stream_response_delivered _ _ (provider_line_spec prov)).
  by rewrite Hnone.
Qed.

(** X10: a successful response none of whose lines begins with [data: ]
    (an empty body included) makes every entry point return the empty
    string without calling [onUpdate]. *)
Theorem X10_no_data_lines pieces apiKey model request systemPrompt userPrompt prov :
  Forall (fun line => startsWith line (js "data: ") = false)
    (lines_read new_TextDecoder pieces) ->
  forall o,
    o = streamExplanation (respond (delivered pieces)) apiKey model request prov
    \/ o = streamExplanationWithSystem (respond (delivered pieces)) apiKey model
             systemPrompt userPrompt prov ->
    updates_of (events o) = [] /\ result o = Normal [].
Proof. apply stream_no_data_lines. Qed.

Lemma X10_no_data_lines_witness :
  let o := streamExplanation
             (respond (delivered [bytes ": keep-alive" ++ [x0a]; bytes "event: ping" ++ [x0a]]))
             (js "k") (js "m") (js "GET /") (js "anthropic") in
  updates_of (events o) = [] /\ result o = Normal [].
Proof.
  apply (X10_no_data_lines
           [bytes ": keep-alive" ++ [x0a]; bytes "event: ping" ++ [x0a]]
           (js "k") (js "m") (js "GET /") [] [] (js "anthropic")).
  - vm_compute. repeat constructor.
  - left. reflexivity.
Defined.

(** ** The batch orchestrator *)

Lemma relay_updates onProgress us fullResponse :
  relay onProgress (map OnUpdate us) fullResponse
  = (streaming_events onProgress us, default fullResponse (last us)).
Proof.
  revert fullResponse. induction us as [|u us IH]; intros fullResponse.
  - by destruct onProgress.
  - cbn [map relay]. rewrite IH. rewrite last_cons.
    destruct (last us); by destruct onProgress.
Qed.

Lemma relay_call onProgress req us :
  relay onProgress (Fetch req :: map OnUpdate us) []
  = (Fetch req :: streaming_events onProgress us, default [] (last us)).
Proof. cbn [relay]. by rewrite relay_updates. Qed.

(** The streaming call [analyzeAttackSurface] makes. *)
Lemma analysis_unfold `{Host} ls net requests onProgress :
  apiKey (getAISettings ls) <> [] ->
  exists req us,
    let call := streamExplanationWithSystem net (apiKey (getAISettings ls))
                  (model (getAISettings ls)) analysis_system_prompt
                  (buildAnalysisPrompt (take 50 requests)) (provider (getAISettings ls)) in
    let n := length (take 50 requests) in
    let started :=
      report onProgress (BuildingPrompt n) ++ report onProgress (Analyzing n)
        ++ Fetch req :: streaming_events onProgress us in
    events call = Fetch req :: map OnUpdate us
    /\ analyzeAttackSurface ls net requests onProgress
       = match result call with
         | Throw e => MkAnalysis started (Throw e)
         | Normal text =>
             match categoryMap_of (parseCategories text) with
             | Throw e =>
                 MkAnalysis (started ++ report onProgress (Parsing text)) (Throw e)
             | Normal categoryMap =>
                 MkAnalysis
                   (started ++ report onProgress (Parsing text)
                      ++ report onProgress (Complete categoryMap))
                   (Normal categoryMap)
             end
         end.
Proof.
  intros Hkey. cbv zeta.
  set (call := streamExplanationWithSystem _ _ _ _ _ _).
  destruct (streamExplanationWithSystem_entry (apiKey (getAISettings ls))
              (model (getAISettings ls)) analysis_system_prompt
              (buildAnalysisPrompt (take 50 requests)) (provider (getAISettings ls)))
    as [req Hentry].
  destruct (stream_response_shape _ _ (provider_line_spec (provider (getAISettings ls)))
              net req (fallback_of (provider (getAISettings ls))))
    as (us & Hev & Hret & _).
  rewrite <- Hentry in Hev, Hret. fold call in Hev, Hret.
  exists req, us. split; [exact Hev|].
  unfold analyzeAttackSurface.
  apply str_eqb_neq in Hkey. rewrite Hkey. cbv zeta. fold call.
  rewrite Hev, relay_call.
  destruct (result call) as [text|e] eqn:Eres.
  - rewrite <- (Hret text eq_refl).
    destruct (categoryMap_of (parseCategories text)); by rewrite <- ?app_assoc.
  - by rewrite <- ?app_assoc.
Qed.

Lemma map_OnUpdate_inj (us us' : list jsstring) :
  map OnUpdate us = map OnUpdate us' -> us = us'.
Proof.
  revert us'. induction us as [|u us IH]; intros [|u' us'] Heq; try done.
  injection Heq as -> Heq. f_equal. by apply IH.
Qed.

(** X11: with a key configured, the analysis returns the mapping built
    from the records parsed out of the text that the streaming call
    returns, for the prompt of the first fifty requests and the fixed system
    prompt.  A failure of the streaming call is the failure of the
    analysis, and so is the [TypeError] of a record whose index has no
    property key.  The progress callback has no part in the result. *)
Theorem X11_analysis_result `{Host} ls net requests onProgress :
  apiKey (getAISettings ls) <> [] ->
  a_result (analyzeAttackSurface ls net requests onProgress)
  = match result (streamExplanationWithSystem net (apiKey (getAISettings ls))
                    (model (getAISettings ls)) analysis_system_prompt
                    (buildAnalysisPrompt (take 50 requests))
                    (provider (getAISettings ls))) with
    | Normal text => categoryMap_of (parseCategories text)
    | Throw e => Throw e
    end.
Proof.
  intros Hkey.
  destruct (analysis_unfold ls net requests onProgress Hkey) as (req & us & _ & ->).
  destruct (result _) as [text|e]; [|done].
  by destruct (categoryMap_of (parseCategories text)).
Qed.

Lemma X11_analysis_result_witness :
  a_result (analyzeAttackSurface (H := ascii_host)
              (<[js "anthropic_api_key" := js "sk-key"]> ∅)
              (respond (delivered
                 [bytesq "data: {'type':'content_block_delta','delta':{'text':'[{\'index\':3},{\'index\':{\'toString\':1}}]'}}"
                    ++ [x0a]]))
              [MkEntry None] false)
  = Throw TypeError.
Proof.
  rewrite (X11_analysis_result (H := ascii_host)) by js_neq.
  vm_compute. reflexivity.
Defined.

(** X12: with a key configured and a progress callback, the analysis
    reports [building_prompt] and [analyzing] with the size of the batch
    (the number of requests, at most fifty), then fetches once, reports
    [streaming] for every text the streaming call hands to its callback, in
    order, and, only when that call returns, [parsing] with the returned
    text; [complete] follows, with the returned mapping, only when the
    mapping could be built.  Without a callback the fetch is all there is
    to observe. *)
Theorem X12_progress_sequence `{Host} ls net requests :
  apiKey (getAISettings ls) <> [] ->
  exists req us,
    let call := streamExplanationWithSystem net (apiKey (getAISettings ls))
                  (model (getAISettings ls)) analysis_system_prompt
                  (buildAnalysisPrompt (take 50 requests)) (provider (getAISettings ls)) in
    let n := min 50 (length requests) in
    events call = Fetch req :: map OnUpdate us
    /\ a_events (analyzeAttackSurface ls net requests true)
       = [OnProgress (BuildingPrompt n); OnProgress (Analyzing n); Fetch req]
         ++ map (fun text => OnProgress (Streaming text)) us
         ++ match result call with
            | Throw _ => []
            | Normal text =>
                OnProgress (Parsing text)
                :: match a_result (analyzeAttackSurface ls net requests true) with
                   | Normal categoryMap => [OnProgress (Complete categoryMap)]
                   | Throw _ => []
                   end
            end
    /\ a_events (analyzeAttackSurface ls net requests false) = [Fetch req].
Proof.
  intros Hkey.
  destruct (analysis_unfold ls net requests true Hkey) as (req & us & Hev & Hon).
  destruct (analysis_unfold ls net requests false Hkey) as (req' & us' & Hev' & Hoff).
  cbv zeta in *. rewrite Hev in Hev'. injection Hev' as <- Hus.
  apply map_OnUpdate_inj in Hus as <-.
  exists req, us. split; [exact Hev|].
  rewrite Hon, Hoff, <- length_take.
  destruct (result _) as [text|e].
  - destruct (categoryMap_of (parseCategories text));
      cbn [a_events a_result report streaming_events app];
      rewrite <- ?app_assoc, ?app_nil_r; by split.
  - cbn [a_events a_result report streaming_events app].
    rewrite ?app_nil_r. by split.
Qed.

Lemma X12_progress_sequence_witness :
  a_events (analyzeAttackSurface (H := ascii_host)
              (<[js "anthropic_api_key" := js "sk-key"]> ∅)
              (respond (delivered
                 [bytesq "data: {'type':'content_block_delta','delta':{'text':'['}}" ++ [x0a];
                  bytesq "data: {'type':'content_block_delta','delta':{'text':']'}}" ++ [x0a]]))
              [MkEntry None; MkEntry None] true)
  = [OnProgress (BuildingPrompt 2); OnProgress (Analyzing 2);
     Fetch (anthropic_request (js "sk-key") (js "claude-3-5-sonnet-20241022") 2048
              analysis_system_prompt
              (buildAnalysisPrompt (H := ascii_host) [MkEntry None; MkEntry None]));
     OnProgress (Streaming (js "[")); OnProgress (Streaming (js "[]"));
     OnProgress (Parsing (js "[]")); OnProgress (Complete (MkCategoryMap ∅ None))].
Proof.
  destruct (X12_progress_sequence (H := ascii_host)
              (<[js "anthropic_api_key" := js "sk-key"]> ∅)
              (respond (delivered
                 [bytesq "data: {'type':'content_block_delta','delta':{'text':'['}}" ++ [x0a];
                  bytesq "data: {'type':'content_block_delta','delta':{'text':']'}}" ++ [x0a]]))
              [MkEntry None; MkEntry None])
    as (req & us & Hev & -> & _); [js_neq|].
  vm_compute in Hev. injection Hev as <- Hus.
  destruct us as [|u1 [|u2 [|u3 us]]]; try discriminate Hus.
  injection Hus as <- <-.
  vm_compute. reflexivity.
Defined.

(** X13: the requests after the fiftieth have no influence on the
    analysis: two lists of requests with the same first fifty entries give
    the same events and the same result. *)
Theorem X13_batch_limit `{Host} ls net requests1 requests2 onProgress :
  take 50 requests1 = take 50 requests2 ->
  analyzeAttackSurface ls net requests1 onProgress
  = analyzeAttackSurface ls net requests2 onProgress.
Proof. intros Hbatch. unfold analyzeAttackSurface. by rewrite Hbatch. Qed.

Lemma X13_batch_limit_witness :
  analyzeAttackSurface (H := ascii_host) (<[js "anthropic_api_key" := js "sk-key"]> ∅)
    (respond (delivered [])) (replicate 50 (MkEntry None) ++ [MkEntry None]) true
  = analyzeAttackSurface (H := ascii_host) (<[js "anthropic_api_key" := js "sk-key"]> ∅)
      (respond (delivered [])) (replicate 50 (MkEntry None)) true.
Proof. apply (X13_batch_limit (H := ascii_host)). reflexivity. Defined.

(** X14: when the provider answers successfully but its stream carries no
    [data: ] line (an empty body included), the analysis does not fail: it
    returns the empty mapping. *)
Theorem X14_empty_reply_empty_mapping `{Host} ls pieces requests onProgress :
  apiKey (getAISettings ls) <> [] ->
  Forall (fun line => startsWith line (js "data: ") = false)
    (lines_read new_TextDecoder pieces) ->
  a_result (analyzeAttackSurface ls (respond (delivered pieces)) requests onProgress)
  = Normal (MkCategoryMap ∅ None).
Proof.
  intros Hkey Hlines.
  destruct (analysis_unfold ls (respond (delivered pieces)) requests onProgress Hkey)
    as (req & us & _ & ->).
  destruct (stream_no_data_lines pieces (apiKey (getAISettings ls))
              (model (getAISettings ls)) [] analysis_system_prompt
              (buildAnalysisPrompt (take 50 requests)) (provider (getAISettings ls))
              Hlines _ (or_intror eq_refl)) as [_ ->].
  reflexivity.
Qed.

Lemma X14_empty_reply_witness :
  a_result (analyzeAttackSurface (H := ascii_host)
              (<[js "anthropic_api_key" := js "sk-key"]> ∅)
              (respond (delivered [bytes "event: ping" ++ [x0a]]))
              [MkEntry None] true)
  = Normal (MkCategoryMap ∅ None).
Proof.
  apply (X14_empty_reply_empty_mapping (H := ascii_host)).
  - js_neq.
  - vm_compute. repeat constructor.
Defined.

(** ** The mapping built from the categories *)










(** ** The prompt and its summaries *)

Lemma summarize_alike `{Host} e1 e2 idx :
  alike e1 e2 -> summarize e1 idx = summarize e2 idx.
Proof.
  unfold alike, summarize.
  destruct (request e1) as [r1|], (request e2) as [r2|]; try done.
  intros (Hurl & Hmethod & Hheaders). cbn [mbind option_bind].
  rewrite Hurl, Hmethod.
  destruct (r_headers r1) as [hs1|], (r_headers r2) as [hs2|]; try done.
  cbn [fmap option_fmap option_map default].
  assert (map name hs1 = map name hs2) as ->; [|done].
  induction Hheaders as [|h1 h2 hs1 hs2 Hh _ IH]; [done|].
  cbn [map]. by rewrite Hh, IH.
Qed.

Lemma requestSummaries_alike `{Host} requests1 requests2 :
  Forall2 alike requests1 requests2 ->
  requestSummaries requests1 = requestSummaries requests2.
Proof.
  unfold requestSummaries. intros Hreqs.
  apply list_eq. intros i. rewrite !list_lookup_imap.
  destruct (requests1 !! i) as [e1|] eqn:E1.
  - destruct (Forall2_lookup_l _ _ _ _ _ Hreqs E1) as (e2 & -> & Halike).
    cbn. f_equal. by apply summarize_alike.
  - apply Forall2_length in Hreqs.
    apply lookup_ge_None in E1. rewrite Hreqs in E1.
    apply lookup_ge_None in E1. by rewrite E1.
Qed.

(** X15: the values of the headers of the captured requests never reach the
    prompt: two lists of requests that agree on every url, method and
    header name give the same prompt, whatever the header values are. *)
Theorem X15_prompt_ignores_header_values `{Host} requests1 requests2 :
  Forall2 alike requests1 requests2 ->
  buildAnalysisPrompt requests1 = buildAnalysisPrompt requests2.
Proof.
  intros Hreqs. unfold buildAnalysisPrompt.
  by rewrite (requestSummaries_alike _ _ Hreqs).
Qed.

Lemma X15_prompt_ignores_header_values_witness :
  buildAnalysisPrompt (H := ascii_host)
    [MkEntry (Some (MkHttpRequest (Some (js "https://a.example/login?next=/")) (Some (js "POST"))
                      (Some [MkHeader (js "X-Csrf-Token") (js "secret-1")])))]
  = buildAnalysisPrompt (H := ascii_host)
      [MkEntry (Some (MkHttpRequest (Some (js "https://a.example/login?next=/")) (Some (js "POST"))
                        (Some [MkHeader (js "X-Csrf-Token") (js "other")])))].
Proof.
  apply (X15_prompt_ignores_header_values (H := ascii_host)).
  repeat constructor.
Defined.

Lemma split_nonempty sep s : split sep s <> [].
Proof.
  destruct s as [|c s]; [done|]. cbn [split].
  destruct (c =? sep); [done|]. by destruct (split sep s).
Qed.

(** [s.split(sep)[0]] is [s] up to its first [sep]. *)
Lemma split_hd sep s :
  (sep ∉ hd [] (split sep s))
  /\ exists rest, s = hd [] (split sep s) ++ rest
                  /\ (rest = [] \/ exists q, rest = sep :: q).
Proof.
  induction s as [|c s (IHnot & rest & IHs & IHrest)]; cbn [split].
  - split; [by apply not_elem_of_nil|]. exists []. by split; [|left].
  - destruct (c =? sep) eqn:E.
    + apply N.eqb_eq in E as ->. cbn [hd]. split; [by apply not_elem_of_nil|].
      exists (sep :: s). split; [done|]. right. by eexists.
    + apply N.eqb_neq in E.
      destruct (split sep s) as [|l ls] eqn:El; [by apply split_nonempty in El|].
      cbn [hd] in *. split.
      * apply not_elem_of_cons. split; [congruence | exact IHnot].
      * exists rest. split; [|exact IHrest]. cbn [app]. by f_equal.
Qed.

(** X16: the summaries handed to the model are one per request, in order,
    each numbered by its position; the path of a summary is the request's
    url up to its first question mark, so no query string enters it. *)
Theorem X16_summary_path `{Host} requests i req :
  requests !! i = Some req ->
  exists s,
    requestSummaries requests !! i = Some s
    /\ s_index s = i
    /\ (question_mark ∉ s_path s)
    /\ exists query,
         url_of req = s_path s ++ query
         /\ (query = [] \/ exists q, query = question_mark :: q).
Proof.
  intros Hreq. exists (summarize req i).
  rewrite requestSummaries_lookup, Hreq. split; [done|]. split; [done|].
  unfold summarize, url_of, question_mark. cbn [s_path].
  apply split_hd.
Qed.

Lemma X16_summary_path_witness :
  exists s,
    requestSummaries (H := ascii_host)
      [MkEntry None;
       MkEntry (Some (MkHttpRequest (Some (js "https://a.example/search?q=1&token=abc"))
                        None None))] !! 1%nat = Some s
    /\ s_index s = 1%nat
    /\ s_path s = js "https://a.example/search".
Proof.
  destruct (X16_summary_path (H := ascii_host)
              [MkEntry None;
               MkEntry (Some (MkHttpRequest (Some (js "https://a.example/search?q=1&token=abc"))
                                None None))] 1
              (MkEntry (Some (MkHttpRequest (Some (js "https://a.example/search?q=1&token=abc"))
                                None None))) eq_refl)
    as (s & Hs & Hi & _).
  exists s. split; [exact Hs|]. split; [exact Hi|].
  rewrite requestSummaries_lookup in Hs. injection Hs as <-. reflexivity.
Defined.

(** ** parseCategories: all or nothing *)

Lemma map_throwing_null (elems : list jsval) :
  In JNull elems -> exists e, map_throwing category_record elems = Throw e.
Proof.
  induction elems as [|cat elems IH]; intros Hin; [done|].
  cbn [map_throwing]. destruct Hin as [-> | Hin].
  - by eexists.
  - destruct (category_record cat) as [record|e]; cbn [bind]; [|by eexists].
    destruct (IH Hin) as [e ->]. by eexists.
Qed.

(** X17: one [null] element in the parsed array costs the whole reply:
    the [map] callback throws on it, and [parseCategories] returns the empty
    array, whatever the other elements are. *)
Theorem X17_null_element_discards_all (response : jsstring) (elems : list jsval) :
  JSON.parse (fence_strip response) = Some (JArray elems) ->
  In JNull elems ->
  parseCategories response = [].
Proof.
  intros Hparse Hnull. unfold parseCategories, parseCategories_try.
  rewrite Hparse. by destruct (map_throwing_null elems Hnull) as [e ->].
Qed.

Lemma X17_null_element_witness :
  parseCategories (jsq "[{'index':0,'category':'Auth'}, null]") = [].
Proof.
  apply (X17_null_element_discards_all _
           [JObject [(js "index", JNumber (num 0)); (js "category", JString (js "Auth"))];
            JNull]).
  - vm_compute. reflexivity.
  - right. left. reflexivity.
Defined.

(** ** parseCategories: surrounding whitespace *)

(** X18: whitespace and line breaks before and after the reply do not
    change what [parseCategories] returns, whatever the reply is. *)
Theorem X18_surrounding_whitespace (before response after : jsstring) :
  blank before -> blank after ->
  parseCategories (before ++ response ++ after) = parseCategories response.
Proof.
  intros Hb Ha. unfold parseCategories, parseCategories_try, fence_strip.
  by rewrite trim_blank_l, trim_blank_r.
Qed.

Lemma X18_surrounding_whitespace_witness :
  parseCategories ([LF; 32] ++ jsq "[{'index':0}]" ++ [13; LF])
  = parseCategories (jsq "[{'index':0}]").
Proof. apply X18_surrounding_whitespace; reflexivity. Defined.

(** ** The category cache *)

Lemma hex_digit_hex d : d < 16 -> JSON.hex_digit (Stringify.hex d) = Some d.
Proof.
  intros Hd. unfold JSON.hex_digit, Stringify.hex, is_digit.
  destruct (d <? 10) eqn:E.
  - apply N.ltb_lt in E.
    replace ((48 <=? 48 + d) && (48 + d <=? 57)) with true
      by (symmetry; apply andb_true_iff; split; apply N.leb_le; lia).
    f_equal. lia.
  - apply N.ltb_ge in E.
    replace ((48 <=? 87 + d) && (87 + d <=? 57)) with false
      by (symmetry; apply andb_false_iff; right; apply N.leb_gt; lia).
    replace ((97 <=? 87 + d) && (87 + d <=? 102)) with true
      by (symmetry; apply andb_true_iff; split; apply N.leb_le; lia).
    f_equal. lia.
Qed.

Lemma hex4_unicode_escape c :
  c < 65536 ->
  exists a b c' d,
    Stringify.unicode_escape c = [92; 117; a; b; c'; d]
    /\ JSON.hex4 a b c' d = Some c.
Proof.
  intros Hc. unfold Stringify.unicode_escape. do 4 eexists. split; [reflexivity|].
  unfold JSON.hex4. change 15 with (N.ones 4).
  rewrite !N.land_ones, !N.shiftr_div_pow2.
  change (2 ^ 12) with 4096. change (2 ^ 8) with 256. change (2 ^ 4) with 16.
  rewrite !hex_digit_hex.
  - f_equal. zify. Z.to_euclidean_division_equations. lia.
  - apply N.mod_lt. lia.
  - apply N.mod_lt. lia.
  - apply N.mod_lt. lia.
  - zify. Z.to_euclidean_division_equations. lia.
Qed.

Lemma parse_chars_plain c tail :
  c <> 34 -> c <> 92 -> 32 <= c ->
  JSON.parse_chars (c :: tail) = JSON.push c (JSON.parse_chars tail).
Proof.
  intros H34 H92 H32. cbn [JSON.parse_chars].
  apply N.eqb_neq in H34, H92. rewrite H34, H92.
  by replace (c <? 32) with false by (symmetry; apply N.ltb_ge; lia).
Qed.

Lemma parse_chars_unicode c tail :
  c < 65536 ->
  JSON.parse_chars (Stringify.unicode_escape c ++ tail) = JSON.push c (JSON.parse_chars tail).
Proof.
  intros Hc. destruct (hex4_unicode_escape c Hc) as (x & y & z & w & -> & Hhex).
  cbn [app JSON.parse_chars]. cbn. by rewrite Hhex.
Qed.

(** Reading back an escaped code unit. *)
Lemma parse_chars_escape c tail :
  JSON.parse_chars (Stringify.escape c ++ tail) = JSON.push c (JSON.parse_chars tail).
Proof.
  unfold Stringify.escape, is_high_surrogate, is_low_surrogate.
  repeat match goal with
         | |- context [if ?c =? ?k then _ else _] =>
             destruct (N.eqb_spec c k) as [-> | ?]; [reflexivity|]
         end.
  destruct (N.ltb_spec c 32); [apply parse_chars_unicode; lia|].
  destruct ((55296 <=? c) && (c <=? 56319) || (56320 <=? c) && (c <=? 57343)) eqn:E.
  - apply parse_chars_unicode.
    apply orb_true_iff in E as [E | E]; apply andb_true_iff in E as [_ E];
      apply N.leb_le in E; lia.
  - by apply parse_chars_plain.
Qed.

Lemma push_parsed c t r x :
  x = Some (t, r) -> JSON.push c x = Some (c :: t, r).
Proof. by intros ->. Qed.

(** Reading back a quoted string, after its opening quote. *)
Lemma parse_chars_quote s rest :
  exists body,
    Stringify.quote s = 34 :: body ++ [34]
    /\ JSON.parse_chars (body ++ 34 :: rest) = Some (s, rest).
Proof.
  unfold Stringify.quote. eexists. split; [reflexivity|].
  remember (length s) as n eqn:Hn. revert s Hn.
  induction n as [n IH] using lt_wf_ind. intros s Hn.
  destruct s as [|c s]; [done|]. cbn [code_points].
  destruct s as [|d s].
  - cbn [map concat]. rewrite app_nil_r, parse_chars_escape. by apply push_parsed.
  - destruct (is_high_surrogate c && is_low_surrogate d) eqn:E.
    + cbn [map concat app].
      apply andb_true_iff in E as [Hc Hd].
      unfold is_high_surrogate in Hc. unfold is_low_surrogate in Hd.
      apply andb_true_iff in Hc as [Hc _]. apply andb_true_iff in Hd as [Hd _].
      apply N.leb_le in Hc, Hd.
      rewrite !parse_chars_plain by lia.
      do 2 apply push_parsed. apply (IH (length s)); [simpl in Hn; lia | done].
    + cbn [map concat]. rewrite <- app_assoc, parse_chars_escape.
      apply push_parsed. apply (IH (length (d :: s))); [simpl in *; lia | done].
Qed.

(** A stringified value begins with a character that is neither
    whitespace nor a closing bracket. *)
Lemma compact_head v :
  textual v = true ->
  exists c s, compact v = c :: s /\ JSON.is_ws c = false /\ (c =? 93) = false.
Proof.
  destruct v as [| |[|]|x|s|elems|members]; try discriminate; intros _;
    by do 2 eexists.
Qed.

Lemma skip_ws_compact v rest :
  textual v = true -> JSON.skip_ws (compact v ++ rest) = compact v ++ rest.
Proof.
  intros Hv. destruct (compact_head v Hv) as (c & s & -> & Hc & _).
  cbn [app JSON.skip_ws]. by rewrite Hc.
Qed.

Lemma parse_elements_compact v elems rest :
  Forall (fun v => textual v = true -> reads_back v) (v :: elems) ->
  forallb textual (v :: elems) = true ->
  exists n,
    JSON.parse_elements n (join [44] (map compact (v :: elems)) ++ 93 :: rest)
    = Some (v :: elems, rest).
Proof.
  revert v. induction elems as [|v' elems IH]; intros v Hall Htext.
  - apply Forall_cons in Hall as [Hv _]. cbn [forallb] in Htext.
    apply andb_true_iff in Htext as [Htext _].
    destruct (Hv Htext (93 :: rest)) as [n Hn].
    exists (S n). cbn [map join JSON.parse_elements]. by rewrite Hn.
  - apply Forall_cons in Hall as [Hv Hall]. cbn [forallb] in Htext.
    apply andb_true_iff in Htext as [Htext Htexts].
    destruct (IH v' Hall Htexts) as [n2 Hn2].
    set (tail := join [44] (map compact (v' :: elems)) ++ 93 :: rest) in *.
    destruct (Hv Htext (44 :: tail)) as [n1 Hn1].
    set (m := (2 * length (compact v ++ 44%N :: tail) + 2 * length tail)%nat).
    exists (S m).
    replace (join [44] (map compact (v :: v' :: elems)) ++ 93 :: rest)
      with (compact v ++ 44 :: tail)
      by (unfold tail; cbn [map join]; by rewrite <- !app_assoc).
    pose proof (proj1 (parse_fuel n1) _ _ _ Hn1 m ltac:(unfold m; lia)) as Hm1.
    pose proof (proj1 (proj2 (parse_fuel n2)) _ _ _ Hn2 m ltac:(unfold m; lia)) as Hm2.
    clearbody m tail.
    cbn [JSON.parse_elements]. rewrite Hm1. cbn. by rewrite Hm2.
Qed.

Lemma members_text ms :
  forallb (fun kv => textual (snd kv)) ms = true ->
  omap (fun kv : jsstring * jsval =>
          match kv with
          | (k, x) => if Stringify.is_undefined x then None
                      else Some (Stringify.quote k ++ [58] ++ compact x)
          end) ms
  = map member_text ms.
Proof.
  set (text := fun kv : jsstring * jsval => match kv with (k, x) => _ end).
  induction ms as [|[k x] ms IH]; [done|]. cbn [forallb map snd].
  intros Hms. apply andb_true_iff in Hms as [Hx Hms]. rewrite <- IH by done.
  change (omap text ((k, x) :: ms))
    with (match text (k, x) with Some y => y :: omap text ms | None => omap text ms end).
  by destruct x.
Qed.

Lemma parse_member_text k x tail n :
  textual x = true ->
  JSON.parse_value n (compact x ++ tail) = Some (x, tail) ->
  exists body,
    member_text (k, x) ++ tail = 34 :: body
    /\ JSON.parse_chars body = Some (k, 58 :: compact x ++ tail).
Proof.
  intros Hx Hn. unfold member_text. cbn [fst snd].
  destruct (parse_chars_quote k (58 :: compact x ++ tail)) as (body & -> & Hbody).
  eexists. split; [|exact Hbody].
  cbn [app]. by rewrite <- !app_assoc.
Qed.

Lemma parse_members_compact kv ms rest :
  Forall (fun kv => textual (snd kv) = true -> reads_back (snd kv)) (kv :: ms) ->
  forallb (fun kv => textual (snd kv)) (kv :: ms) = true ->
  exists n,
    JSON.parse_members n (join [44] (map member_text (kv :: ms)) ++ 125 :: rest)
    = Some (kv :: ms, rest).
Proof.
  revert kv. induction ms as [|kv' ms IH]; intros [k x] Hall Htext.
  - apply Forall_cons in Hall as [Hx _]. cbn [forallb snd] in *.
    apply andb_true_iff in Htext as [Htext _].
    destruct (Hx Htext (125 :: rest)) as [n Hn].
    destruct (parse_member_text k x (125 :: rest) n Htext Hn) as (body & Hbody & Hk).
    exists (S n). cbn [map join]. rewrite Hbody.
    cbn [JSON.parse_members]. cbn [JSON.skip_ws JSON.is_ws]. cbn.
    rewrite Hk. cbn. by rewrite Hn.
  - apply Forall_cons in Hall as [Hx Hall]. cbn [forallb snd] in Htext, Hx.
    apply andb_true_iff in Htext as [Htext Htexts].
    destruct (IH kv' Hall Htexts) as [n2 Hn2].
    set (tail := join [44] (map member_text (kv' :: ms)) ++ 125 :: rest) in *.
    destruct (Hx Htext (44 :: tail)) as [n1 Hn1].
    destruct (parse_member_text k x (44 :: tail) n1 Htext Hn1) as (body & Hbody & Hk).
    set (m := (2 * length (compact x ++ 44%N :: tail) + 2 * length tail)%nat).
    exists (S m).
    replace (join [44] (map member_text ((k, x) :: kv' :: ms)) ++ 125 :: rest)
      with (member_text (k, x) ++ 44 :: tail)
      by (unfold tail; cbn [map join]; by rewrite <- !app_assoc).
    pose proof (proj1 (parse_fuel n1) _ _ _ Hn1 m ltac:(unfold m; lia)) as Hm1.
    pose proof (proj2 (proj2 (parse_fuel n2)) _ _ _ Hn2 m ltac:(unfold m; lia)) as Hm2.
    clearbody m tail. rewrite Hbody.
    cbn [JSON.parse_members]. cbn. rewrite Hk. cbn. rewrite Hm1. cbn. by rewrite Hm2.
Qed.

(** Reading back the text of a value without numbers. *)
Lemma parse_value_compact v : textual v = true -> reads_back v.
Proof.
  induction v as [| |b|x|s|elems IH|members IH] using jsval_nested_ind;
    try discriminate; intros Htext rest.
  - by exists 1%nat.
  - exists 1%nat. by destruct b.
  - exists 1%nat. cbn [compact].
    destruct (parse_chars_quote s rest) as (body & -> & Hbody).
    cbn. rewrite <- app_assoc. cbn [app]. by rewrite Hbody.
  - destruct elems as [|v elems]; [by exists 1%nat|].
    destruct (parse_elements_compact v elems rest IH Htext) as [n Hn].
    exists (S n). cbn [compact]. rewrite <- !app_assoc.
    change ([93] ++ rest) with (93 :: rest).
    set (text := join [44] (map compact (v :: elems)) ++ 93 :: rest) in *.
    assert (exists c s, text = c :: s /\ JSON.is_ws c = false /\ (c =? 93) = false)
      as (c & s & Htextc & Hws & Hc).
    { cbn [forallb] in Htext. apply andb_true_iff in Htext as [Hv _].
      destruct (compact_head v Hv) as (c & s & Hcs & Hws & Hc).
      unfold text. cbn [map join]. destruct elems; rewrite Hcs; by do 2 eexists. }
    clearbody text. cbn [app JSON.parse_value JSON.skip_ws]. cbn.
    rewrite Htextc. cbn [JSON.skip_ws]. rewrite Hws, Hc. rewrite <- Htextc.
    by rewrite Hn.
  - destruct members as [|kv members]; [by exists 1%nat|].
    destruct (parse_members_compact kv members rest IH Htext) as [n Hn].
    exists (S n). cbn [compact]. rewrite members_text by done. rewrite <- !app_assoc.
    change ([125] ++ rest) with (125 :: rest).
    set (text := join [44] (map member_text (kv :: members)) ++ 125 :: rest) in *.
    assert (exists s, text = 34 :: s) as (s & Htexts).
    { unfold text. destruct members; cbn [map join]; unfold member_text, Stringify.quote;
        by eexists. }
    clearbody text. cbn [app JSON.parse_value JSON.skip_ws]. cbn.
    rewrite Htexts. cbn. rewrite <- Htexts.
    by rewrite Hn.
Qed.

Lemma parse_compact v : textual v = true -> JSON.parse (compact v) = Some v.
Proof.
  intros Hv. destruct (parse_value_compact v Hv []) as [n Hn].
  rewrite app_nil_r in Hn. by apply (parse_complete n _ _ []).
Qed.

(** X19: categories made of strings, booleans, [null], arrays and objects
    (the members of an object taken in the order of its member list) that
    were cached are loaded back unchanged, whatever else the storage
    holds: [JSON.parse] undoes [JSON.stringify], escapes and lone
    surrogates included. *)
Theorem X19_cache_round_trip (categories : jsval) (ls : Storage) :
  textual categories = true ->
  loadCachedCategories (cacheCategories categories ls) = categories.
Proof.
  intros Hv. unfold loadCachedCategories, cacheCategories.
  rewrite lookup_insert_eq.
  assert (stringified categories = compact categories) as -> by by destruct categories.
  destruct (compact_head categories Hv) as (c & s & Hcs & _).
  rewrite parse_compact by done. by rewrite Hcs.
Qed.

Lemma X19_cache_round_trip_witness :
  loadCachedCategories
    (cacheCategories
       (JObject [(js "0", JObject [(js "category", JString (jsq "User 'Auth' \ 🔐"));
                                   (js "confidence", JString (js "high"));
                                   (js "reasoning", JNull);
                                   (js "icon", JString [55357; 10])]);
                 (js "1", JArray [JBool true; JArray []; JObject []])])
       (<[js "ai_provider" := js "gemini"]> ∅))
  = JObject [(js "0", JObject [(js "category", JString (jsq "User 'Auth' \ 🔐"));
                               (js "confidence", JString (js "high"));
                               (js "reasoning", JNull);
                               (js "icon", JString [55357; 10])]);
             (js "1", JArray [JBool true; JArray []; JObject []])].
Proof. apply X19_cache_round_trip. reflexivity. Defined.

(** X20: the cache and the settings do not disturb each other, and an
    unusable cache is an empty one: after [clearCategoryCache], and after
    caching [undefined], [loadCachedCategories] gives the empty object;
    caching and clearing leave the settings as they were; saving settings
    leaves the cached categories as they were. *)
Theorem X20_cache_and_settings (ls : Storage) (categories : jsval) (p key mdl : jsstring) :
  loadCachedCategories (clearCategoryCache ls) = JObject []
  /\ loadCachedCategories (cacheCategories JUndefined ls) = JObject []
  /\ getAISettings (cacheCategories categories ls) = getAISettings ls
  /\ getAISettings (clearCategoryCache ls) = getAISettings ls
  /\ loadCachedCategories (saveAISettings p key mdl ls) = loadCachedCategories ls.
Proof.
  split; [|split; [|split; [|split]]].
  - unfold loadCachedCategories, clearCategoryCache. by rewrite lookup_delete_eq.
  - unfold loadCachedCategories, cacheCategories. by rewrite lookup_insert_eq.
  - unfold getAISettings, cacheCategories.
    by rewrite !getItem_or_insert_ne by js_neq.
  - unfold getAISettings, clearCategoryCache, getItem_or.
    by rewrite !lookup_delete_ne by js_neq.
  - unfold loadCachedCategories, saveAISettings.
    destruct (str_eqb p (js "gemini")); by rewrite !lookup_insert_ne by js_neq.
Qed.

(** ** parseCategories: a fence inside prose *)

Lemma trimStart_app_keeps a c s :
  is_white_space c = false -> trimStart (a ++ c :: s) = trimStart a ++ c :: s.
Proof.
  intros Hc. induction a as [|x a IH]; cbn [app trimStart].
  - by rewrite Hc.
  - by destruct (is_white_space x).
Qed.

(** [trim] leaves alone what lies around a text that neither begins nor
    ends with whitespace, apart from the blanks at the two ends. *)
Lemma trim_around a c mid z b :
  is_white_space c = false -> is_white_space z = false ->
  trim (a ++ (c :: mid ++ [z]) ++ b)
  = trimStart a ++ (c :: mid ++ [z]) ++ rev (trimStart (rev b)).
Proof.
  intros Hc Hz. unfold trim.
  change ((c :: mid ++ [z]) ++ b) with (c :: (mid ++ [z]) ++ b).
  rewrite trimStart_app_keeps by done.
  change (c :: (mid ++ [z]) ++ b) with ((c :: mid ++ [z]) ++ b).
  rewrite !rev_app_distr.
  assert (rev (c :: mid ++ [z]) = z :: rev (c :: mid)) as Hrev.
  { rewrite app_comm_cons. apply rev_unit. }
  rewrite Hrev. rewrite <- app_assoc. cbn [app].
  rewrite trimStart_app_keeps by done.
  change (z :: rev (c :: mid) ++ ?r) with ((z :: rev (c :: mid)) ++ r).
  rewrite <- Hrev.
  rewrite !rev_app_distr, !rev_involutive. by rewrite <- app_assoc.
Qed.

Lemma no_backtick_trimStart s : no_backtick s -> no_backtick (trimStart s).
Proof.
  unfold no_backtick. induction s as [|c s IH]; [done|]. cbn [trimStart].
  destruct (is_white_space c); [|done]. cbn [forallb].
  rewrite andb_true_iff. intros [_ Hs]. auto.
Qed.

(** The pattern finds nothing to match inside a text without backticks
    and goes on to what follows it. *)
Lemma exec_skips_no_backtick intro s :
  no_backtick intro -> RegExp.exec fence_re (intro ++ s) = RegExp.exec fence_re s.
Proof.
  unfold no_backtick. induction intro as [|c intro IH]; [done|]. cbn [forallb app].
  rewrite andb_true_iff. intros [Hc Hintro].
  rewrite exec_unfold, fence_re_needs_fence; [by apply IH|].
  cbn [fence startsWith]. by destruct (c =? 96).
Qed.

(** The pattern on a fenced text that is followed by more text: it
    captures the text inside the first fence. *)
Lemma fence_re_captures_first tag A mid B outro :
  tag = [] \/ tag = js "json" ->
  blank A -> blank B ->
  ~ contains_fence (91 :: mid ++ [93]) ->
  RegExp.rmatch fence_re
    (fence ++ tag ++ A ++ (91 :: mid ++ [93]) ++ B ++ fence ++ outro) None
    (fun _ cap => Some cap)
  = Some (Some (91 :: mid ++ [93])).
Proof.
  intros Htag HA HB Hfence.
  set (core := 91 :: mid ++ [93]) in *.
  set (final := fun (_ : jsstring) (cap : option jsstring) => Some cap).
  assert (last core = Some 93) as Hlast.
  { unfold core. rewrite app_comm_cons. apply last_snoc. }
  assert (forall cap,
            RegExp.rmatch
              (RegExp.Seq (RegExp.Group (RegExp.LazyStar (RegExp.Class (fun _ => true))))
                 (RegExp.Seq (RegExp.Star (RegExp.Class is_white_space))
                    (RegExp.lits 96 [96; 96])))
              (core ++ B ++ fence ++ outro) cap final
            = Some (Some core)) as Hgroup.
  { intros cap. rewrite rmatch_seq, rmatch_group.
    apply rmatch_lazy_first.
    - intros a b Hab Hb. cbv beta. rewrite rmatch_closing.
      by rewrite (no_early_closing core a b (B ++ fence ++ outro)).
    - cbv beta. rewrite rmatch_closing, trimStart_blank_app by done.
      cbn [trimStart fence is_white_space app]. cbn [startsWith]. cbv beta.
      unfold final. do 2 f_equal.
      apply take_app_length'. rewrite !length_app. cbn [length]. lia. }
  assert (forall cap,
            RegExp.rmatch
              (RegExp.Seq (RegExp.Star (RegExp.Class is_white_space))
                 (RegExp.Seq (RegExp.Group (RegExp.LazyStar (RegExp.Class (fun _ => true))))
                    (RegExp.Seq (RegExp.Star (RegExp.Class is_white_space))
                       (RegExp.lits 96 [96; 96]))))
              (A ++ core ++ B ++ fence ++ outro) cap final
            = Some (Some core)) as Hblanks.
  { intros cap. rewrite rmatch_seq. apply rmatch_star_blank; [done|].
    rewrite rmatch_star_class_stop by done. apply Hgroup. }
  unfold fence_re. cbv zeta. rewrite rmatch_seq, rmatch_lits.
  change (startsWith (fence ++ ?x) (96 :: [96; 96])) with true. cbv iota.
  change (drop (S (length [96; 96])) (fence ++ ?x)) with x.
  rewrite rmatch_seq, rmatch_opt.
  destruct Htag as [-> | ->].
  - cbn [app]. rewrite rmatch_lits.
    change (core ++ B ++ fence ++ outro) with (91 :: (mid ++ [93]) ++ B ++ fence ++ outro) at 1.
    rewrite blank_not_tag by done. apply Hblanks.
  - rewrite rmatch_lits.
    change (startsWith (js "json" ++ ?x) (106 :: js "son")) with true. cbv iota.
    change (drop (S (length (js "son"))) (js "json" ++ ?x)) with x.
    by rewrite Hblanks.
Qed.

(** X21: a reply that wraps its JSON array in a code fence and puts prose
    around the fence is read like the array alone, provided the prose
    before the fence has no backtick and the array text no triple
    backtick; what follows the closing fence does not matter. *)
Theorem X21_fence_inside_prose intro tag before t after outro elems :
  JSON.parse t = Some (JArray elems) ->
  ~ contains_fence t ->
  no_backtick intro ->
  blank before -> blank after ->
  tag = [] \/ tag = js "json" ->
  parseCategories (intro ++ fenced tag before t after ++ outro) = parseCategories t.
Proof.
  intros Hparse Hfence Hintro Hb Ha Htag.
  destruct (parse_array_shape t elems Hparse) as (w1 & mid & w2 & Ht & Hw1 & Hw2).
  apply json_ws_blank in Hw1, Hw2.
  set (core := 91 :: mid ++ [93]).
  assert (t = w1 ++ core ++ w2) as Ht'.
  { rewrite Ht. unfold core. simpl. by rewrite <- app_assoc. }
  assert (~ contains_fence core) as Hcore.
  { intros (x & y & Hxy). apply Hfence. exists (w1 ++ x), (y ++ w2).
    rewrite Ht', Hxy. by rewrite <- !app_assoc. }
  assert (fence_strip t = core) as Hplain.
  { unfold fence_strip. rewrite Ht'. unfold core. rewrite trim_strips by done.
    fold core. by rewrite exec_no_fence. }
  assert (fence_strip (intro ++ fenced tag before t after ++ outro) = core) as Hwrapped.
  { unfold fence_strip, fenced.
    set (inner := [96; 96] ++ tag ++ before ++ t ++ after ++ [96; 96]).
    replace (intro ++ (fence ++ tag ++ before ++ t ++ after ++ fence) ++ outro)
      with (intro ++ (96 :: inner ++ [96]) ++ outro)
      by (unfold inner, fence; cbn [app]; by rewrite <- !app_assoc).
    rewrite trim_around by done.
    rewrite exec_skips_no_backtick by by apply no_backtick_trimStart.
    set (outro' := rev (trimStart (rev outro))).
    replace ((96 :: inner ++ [96]) ++ outro')
      with (fence ++ tag ++ (before ++ w1) ++ core ++ (w2 ++ after) ++ fence ++ outro')
      by (unfold inner, fence; rewrite Ht'; cbn [app]; by rewrite <- !app_assoc).
    rewrite exec_unfold. unfold core.
    by rewrite fence_re_captures_first by auto using blank_app. }
  unfold parseCategories, parseCategories_try. by rewrite Hplain, Hwrapped.
Qed.

Lemma X21_fence_inside_prose_witness :
  parseCategories
    (js "Here is the analysis:" ++ [LF]
       ++ fenced (js "json") [LF] (jsq "[{'index':0,'category':'Auth'}]") [LF]
       ++ [LF] ++ js "Let me know if you need `more` detail.")
  = parseCategories (jsq "[{'index':0,'category':'Auth'}]").
Proof.
  change (js "Here is the analysis:" ++ [LF]
            ++ fenced (js "json") [LF] (jsq "[{'index':0,'category':'Auth'}]") [LF]
            ++ [LF] ++ js "Let me know if you need `more` detail.")
    with ((js "Here is the analysis:" ++ [LF])
            ++ fenced (js "json") [LF] (jsq "[{'index':0,'category':'Auth'}]") [LF]
            ++ ([LF] ++ js "Let me know if you need `more` detail.")).
  apply (X21_fence_inside_prose _ _ _ _ _ _
           [JObject [(js "index", JNumber (num 0)); (js "category", JString (js "Auth"))]]).
  - vm_compute. reflexivity.
  - apply fence_free_correct. vm_compute. reflexivity.
  - reflexivity.
  - reflexivity.
  - reflexivity.
  - right. reflexivity.
Defined.

(** ** Whitespace at the end of a line of an Anthropic stream *)

Lemma is_ws_cases c : JSON.is_ws c = true -> c = 9 \/ c = 10 \/ c = 13 \/ c = 32.
Proof.
  unfold JSON.is_ws. rewrite !orb_true_iff, !N.eqb_eq. tauto.
Qed.

Lemma push_followed {w : jsstring} u r :
  JSON.push u (followed w r) = followed w (JSON.push u r).
Proof. by destruct r as [[t rest]|]. Qed.

Lemma hex4_ws_1 c b c' d : JSON.is_ws c = true -> JSON.hex4 c b c' d = None.
Proof. intros Hc. by destruct (is_ws_cases c Hc) as [-> | [-> | [-> | ->]]]. Qed.

Lemma hex4_ws_2 a c c' d : JSON.is_ws c = true -> JSON.hex4 a c c' d = None.
Proof.
  intros Hc. unfold JSON.hex4. destruct (JSON.hex_digit a); [|done].
  by destruct (is_ws_cases c Hc) as [-> | [-> | [-> | ->]]].
Qed.

Lemma hex4_ws_3 a b c d : JSON.is_ws c = true -> JSON.hex4 a b c d = None.
Proof.
  intros Hc. unfold JSON.hex4.
  destruct (JSON.hex_digit a); [|done]. destruct (JSON.hex_digit b); [|done].
  by destruct (is_ws_cases c Hc) as [-> | [-> | [-> | ->]]].
Qed.

Lemma hex4_ws_4 a b c' c : JSON.is_ws c = true -> JSON.hex4 a b c' c = None.
Proof.
  intros Hc. unfold JSON.hex4.
  destruct (JSON.hex_digit a); [|done]. destruct (JSON.hex_digit b); [|done].
  destruct (JSON.hex_digit c'); [|done].
  by destruct (is_ws_cases c Hc) as [-> | [-> | [-> | ->]]].
Qed.

Lemma parse_chars_ws c : JSON.is_ws c = true -> JSON.parse_chars [c] = None.
Proof. intros Hc. by destruct (is_ws_cases c Hc) as [-> | [-> | [-> | ->]]]. Qed.

Lemma parse_chars_escape_ws c : JSON.is_ws c = true -> JSON.parse_chars [92; c] = None.
Proof. intros Hc. by destruct (is_ws_cases c Hc) as [-> | [-> | [-> | ->]]]. Qed.

(** The characters of a string literal, when a whitespace character is put
    after the text. *)
Lemma parse_chars_snoc c s :
  JSON.is_ws c = true ->
  JSON.parse_chars (s ++ [c]) = followed [c] (JSON.parse_chars s).
Proof.
  intros Hc. remember (length s) as n eqn:Hn. revert s Hn.
  induction n as [n IH] using lt_wf_ind. intros s Hn.
  destruct s as [|x s]; [by apply parse_chars_ws|].
  cbn [app JSON.parse_chars]. destruct (x =? 34); [done|].
  destruct (x =? 92).
  - destruct s as [|e s].
    { pose proof (parse_chars_escape_ws c Hc) as Hesc. cbn [JSON.parse_chars] in Hesc.
      exact Hesc. }
    cbn [app]. simpl in Hn.
    assert (forall u, JSON.push u (JSON.parse_chars (s ++ [c]))
                      = followed [c] (JSON.push u (JSON.parse_chars s))) as Hrec.
    { intros u. rewrite (IH (length s)) by (lia || done). apply push_followed. }
    repeat match goal with
           | |- context [if e =? ?k then _ else _] =>
               destruct (e =? k); [by rewrite ?Hrec|]
           end.
    destruct (e =? 117); [|done].
    destruct s as [|a [|b [|c' [|d s]]]]; cbn [app].
    + done.
    + by rewrite ?hex4_ws_1.
    + done.
    + by rewrite hex4_ws_4.
    + destruct (JSON.hex4 a b c' d); [|done].
      rewrite (IH (length s)) by (simpl in *; lia || done). apply push_followed.
  - destruct (x <? 32); [done|].
    rewrite (IH (length s)) by (simpl in *; lia || done). apply push_followed.
Qed.

Lemma is_ws_not_digit c : JSON.is_ws c = true -> is_digit c = false.
Proof. intros Hc. by destruct (is_ws_cases c Hc) as [-> | [-> | [-> | ->]]]. Qed.

Lemma span_digits_snoc c s :
  JSON.is_ws c = true ->
  JSON.span_digits (s ++ [c])
  = (fst (JSON.span_digits s), snd (JSON.span_digits s) ++ [c]).
Proof.
  intros Hc. induction s as [|x s IH]; cbn [app JSON.span_digits].
  - by rewrite is_ws_not_digit.
  - destruct (is_digit x); [|done]. rewrite IH. by destruct (JSON.span_digits s).
Qed.

Lemma parse_int_snoc c s :
  JSON.is_ws c = true -> JSON.parse_int (s ++ [c]) = followed [c] (JSON.parse_int s).
Proof.
  intros Hc. destruct s as [|x s]; cbn [app JSON.parse_int].
  - by destruct (is_ws_cases c Hc) as [-> | [-> | [-> | ->]]].
  - destruct (x =? 48); [done|]. destruct (is_digit x); [|done].
    rewrite span_digits_snoc by done. by destruct (JSON.span_digits s).
Qed.

Lemma parse_frac_snoc c s :
  JSON.is_ws c = true -> JSON.parse_frac (s ++ [c]) = followed [c] (JSON.parse_frac s).
Proof.
  intros Hc. destruct s as [|x s]; cbn [app JSON.parse_frac].
  - by destruct (is_ws_cases c Hc) as [-> | [-> | [-> | ->]]].
  - destruct (x =? 46); [|done].
    rewrite span_digits_snoc by done. by destruct (JSON.span_digits s) as [[|d ds] r].
Qed.

Lemma parse_exp_snoc c s :
  JSON.is_ws c = true -> JSON.parse_exp (s ++ [c]) = followed [c] (JSON.parse_exp s).
Proof.
  intros Hc. destruct s as [|x s]; cbn [app JSON.parse_exp].
  - by destruct (is_ws_cases c Hc) as [-> | [-> | [-> | ->]]].
  - destruct ((x =? 101) || (x =? 69)); [|done].
    destruct s as [|g s]; cbn [app].
    + by destruct (is_ws_cases c Hc) as [-> | [-> | [-> | ->]]].
    + destruct (g =? 45); [|destruct (g =? 43)].
      * rewrite span_digits_snoc by done. by destruct (JSON.span_digits s) as [[|d ds] r].
      * rewrite span_digits_snoc by done. by destruct (JSON.span_digits s) as [[|d ds] r].
      * change (g :: s ++ [c]) with ((g :: s) ++ [c]).
        rewrite (span_digits_snoc c (g :: s)) by done.
        by destruct (JSON.span_digits (g :: s)) as [[|d ds] r].
Qed.

Lemma parse_number_snoc c s :
  JSON.is_ws c = true ->
  JSON.parse_number (s ++ [c]) = followed [c] (JSON.parse_number s).
Proof.
  intros Hc. unfold JSON.parse_number.
  assert (forall neg s1,
            match JSON.parse_int (s1 ++ [c]) with
            | None => None
            | Some (ip, s2) =>
                match JSON.parse_frac s2 with
                | None => None
                | Some (fp, s3) =>
                    match JSON.parse_exp s3 with
                    | None => None
                    | Some (ex, s4) =>
                        Some (Double.of_decimal neg (number_of_digits (ip ++ fp))
                                (ex - Z.of_nat (length fp)), s4)
                    end
                end
            end
            = followed [c]
                match JSON.parse_int s1 with
                | None => None
                | Some (ip, s2) =>
                    match JSON.parse_frac s2 with
                    | None => None
                    | Some (fp, s3) =>
                        match JSON.parse_exp s3 with
                        | None => None
                        | Some (ex, s4) =>
                            Some (Double.of_decimal neg (number_of_digits (ip ++ fp))
                                    (ex - Z.of_nat (length fp)), s4)
                        end
                    end
                end) as Hrest.
  { intros neg s1. rewrite parse_int_snoc by done.
    destruct (JSON.parse_int s1) as [[ip s2]|]; [|done]. cbn [followed].
    rewrite parse_frac_snoc by done.
    destruct (JSON.parse_frac s2) as [[fp s3]|]; [|done]. cbn [followed].
    rewrite parse_exp_snoc by done.
    by destruct (JSON.parse_exp s3) as [[ex s4]|]. }
  destruct s as [|x s].
  - by destruct (is_ws_cases c Hc) as [-> | [-> | [-> | ->]]].
  - cbn [app]. destruct (x =? 45); [apply Hrest|]. apply (Hrest false (x :: s)).
Qed.

Lemma startsWith_snoc s c p :
  ~ In c p -> startsWith (s ++ [c]) p = startsWith s p.
Proof.
  revert s. induction p as [|x p IH]; intros s Hc; [done|].
  destruct s as [|y s]; cbn [app startsWith].
  - destruct (N.eqb_spec c x) as [-> | _]; [|done]. exfalso. apply Hc. by left.
  - rewrite IH; [done|]. intros Hin. apply Hc. by right.
Qed.

Lemma startsWith_length s p : startsWith s p = true -> (length p <= length s)%nat.
Proof.
  revert s. induction p as [|x p IH]; intros s; [simpl; lia|].
  destruct s as [|y s]; [discriminate|]. cbn [startsWith length].
  intros Hs. apply andb_true_iff in Hs as [_ Hs]. apply IH in Hs. lia.
Qed.

Lemma parse_literal_snoc c s :
  JSON.is_ws c = true ->
  JSON.parse_literal (s ++ [c]) = followed [c] (JSON.parse_literal s).
Proof.
  intros Hc. unfold JSON.parse_literal.
  assert (forall p, In p [js "true"; js "false"; js "null"] ->
            startsWith (s ++ [c]) p = startsWith s p) as Hp.
  { intros p Hp. apply startsWith_snoc.
    destruct (is_ws_cases c Hc) as [-> | [-> | [-> | ->]]];
      repeat (destruct Hp as [<- | Hp]; [vm_compute; intuition discriminate|]);
      destruct Hp. }
  rewrite !Hp by (cbn; tauto).
  destruct (startsWith s (js "true")) eqn:E1.
  { apply startsWith_length in E1. cbn [followed]. by rewrite drop_app_le. }
  destruct (startsWith s (js "false")) eqn:E2.
  { apply startsWith_length in E2. cbn [followed]. by rewrite drop_app_le. }
  destruct (startsWith s (js "null")) eqn:E3; [|done].
  apply startsWith_length in E3. cbn [followed]. by rewrite drop_app_le.
Qed.

Lemma skip_ws_snoc c s :
  JSON.is_ws c = true ->
  JSON.skip_ws (s ++ [c])
  = match JSON.skip_ws s with
    | [] => []
    | x :: r => x :: r ++ [c]
    end.
Proof.
  intros Hc. induction s as [|x s IH]; cbn [app JSON.skip_ws].
  - by rewrite Hc.
  - by destruct (JSON.is_ws x).
Qed.

(** The parser on a text with one more whitespace character at its end:
    what it reads is the same, and the character is left over. *)
Lemma parse_value_snoc c fuel :
  JSON.is_ws c = true ->
  (forall s, JSON.parse_value fuel (s ++ [c]) = followed [c] (JSON.parse_value fuel s))
  /\ (forall s, JSON.parse_elements fuel (s ++ [c])
                = followed [c] (JSON.parse_elements fuel s))
  /\ (forall s, JSON.parse_members fuel (s ++ [c])
                = followed [c] (JSON.parse_members fuel s)).
Proof.
  intros Hc. induction fuel as [|fuel (IHv & IHe & IHm)]; [done|].
  split; [|split]; intros s.
  - cbn [JSON.parse_value]. rewrite skip_ws_snoc by done.
    destruct (JSON.skip_ws s) as [|x r] eqn:Es; [done|].
    destruct (x =? 34).
    { rewrite parse_chars_snoc by done. by destruct (JSON.parse_chars r) as [[t rest]|]. }
    destruct (x =? 91).
    { rewrite skip_ws_snoc by done. destruct (JSON.skip_ws r) as [|x' r']; [done|].
      destruct (x' =? 93); [done|]. rewrite IHe.
      by destruct (JSON.parse_elements fuel r) as [[vs rest]|]. }
    destruct (x =? 123).
    { rewrite skip_ws_snoc by done. destruct (JSON.skip_ws r) as [|x' r']; [done|].
      destruct (x' =? 125); [done|]. rewrite IHm.
      by destruct (JSON.parse_members fuel r) as [[ms rest]|]. }
    destruct ((x =? 45) || is_digit x).
    { change (x :: r ++ [c]) with ((x :: r) ++ [c]). rewrite parse_number_snoc by done.
      by destruct (JSON.parse_number (x :: r)) as [[y rest]|]. }
    change (x :: r ++ [c]) with ((x :: r) ++ [c]). by apply parse_literal_snoc.
  - cbn [JSON.parse_elements]. rewrite IHv.
    destruct (JSON.parse_value fuel s) as [[v r]|]; [|done]. cbn [followed].
    rewrite skip_ws_snoc by done. destruct (JSON.skip_ws r) as [|x r']; [done|].
    destruct (x =? 44).
    { rewrite IHe. by destruct (JSON.parse_elements fuel r') as [[vs rest]|]. }
    by destruct (x =? 93).
  - cbn [JSON.parse_members]. rewrite skip_ws_snoc by done.
    destruct (JSON.skip_ws s) as [|q r0]; [done|].
    destruct (q =? 34); [|done]. rewrite parse_chars_snoc by done.
    destruct (JSON.parse_chars r0) as [[k r1]|]; [|done]. cbn [followed].
    rewrite skip_ws_snoc by done. destruct (JSON.skip_ws r1) as [|c1 r2]; [done|].
    destruct (c1 =? 58); [|done]. rewrite IHv.
    destruct (JSON.parse_value fuel r2) as [[v r3]|]; [|done]. cbn [followed].
    rewrite skip_ws_snoc by done. destruct (JSON.skip_ws r3) as [|x r4]; [done|].
    destruct (x =? 44).
    { rewrite IHm. by destruct (JSON.parse_members fuel r4) as [[ms rest]|]. }
    by destruct (x =? 125).
Qed.

(** With enough fuel the parser fails only where it fails with any fuel. *)
Lemma parse_value_none text n :
  JSON.parse_value (2 * length text + 2) text = None -> JSON.parse_value n text = None.
Proof.
  intros Hnone. destruct (JSON.parse_value n text) as [[v rest]|] eqn:E; [|done].
  apply parse_fuel_enough in E. congruence.
Qed.

(** [JSON.parse] does not mind one more whitespace character at the end. *)
Lemma parse_snoc c text :
  JSON.is_ws c = true -> JSON.parse (text ++ [c]) = JSON.parse text.
Proof.
  intros Hc. unfold JSON.parse.
  rewrite (proj1 (parse_value_snoc c _ Hc)).
  destruct (JSON.parse_value (2 * length text + 2) text) as [[v rest]|] eqn:E.
  - rewrite (proj1 (parse_fuel _) _ _ _ E (2 * length (text ++ [c]) + 2)%nat)
      by (rewrite length_app; simpl; lia).
    cbn [followed]. rewrite skip_ws_snoc by done. by destruct (JSON.skip_ws rest).
  - by rewrite (parse_value_none _ _ E).
Qed.

Lemma parse_trailing_ws w text :
  forallb JSON.is_ws w = true -> JSON.parse (text ++ w) = JSON.parse text.
Proof.
  revert text. induction w as [|c w IH]; intros text Hw.
  - by rewrite app_nil_r.
  - cbn [forallb] in Hw. apply andb_true_iff in Hw as [Hc Hw].
    rewrite (cons_middle c text w), app_assoc, IH by done. by apply parse_snoc.
Qed.

Lemma json_space_drop n w : json_space w -> json_space (drop n w).
Proof.
  unfold json_space. revert n. induction w as [|c w IH]; intros n Hw; [by destruct n|].
  destruct n as [|n]; [done|]. simpl in *. apply andb_true_iff in Hw as [_ Hw]. auto.
Qed.

Lemma parse_json_space w : json_space w -> JSON.parse w = None.
Proof. intros Hw. by rewrite <- (app_nil_l w), parse_trailing_ws. Qed.

Lemma claude_deltas_trailing_space line w :
  json_space w -> claude_deltas (line ++ w) = claude_deltas line.
Proof.
  intros Hw.
  assert (forall payload,
            (if str_eqb payload (js "[DONE]") then []
             else match JSON.parse payload with
                  | Some data =>
                      let text := prop (prop data (js "delta")) (js "text") in
                      if is_string (prop data (js "type")) (js "content_block_delta")
                         && truthy text
                      then fragment text else []
                  | None => []
                  end)
            = match JSON.parse payload with
              | Some data =>
                  let text := prop (prop data (js "delta")) (js "text") in
                  if is_string (prop data (js "type")) (js "content_block_delta")
                     && truthy text
                  then fragment text else []
              | None => []
              end) as Hdone.
  { intros payload. destruct (str_eqb payload (js "[DONE]")) eqn:E; [|done].
    apply str_eqb_eq in E. by subst payload. }
  unfold claude_deltas. cbv zeta. rewrite !Hdone.
  destruct (decide (6 <= length line)%nat) as [Hlen | Hlen].
  - rewrite startsWith_app_l by (by rewrite data_prefix_length).
    destruct (startsWith line (js "data: ")); [|done].
    unfold slice. rewrite drop_app_le by done.
    by rewrite parse_trailing_ws.
  - assert (startsWith line (js "data: ") = false) as ->.
    { destruct (startsWith line (js "data: ")) eqn:E; [|done].
      apply startsWith_app in E. rewrite E, length_app, data_prefix_length in Hlen.
      lia. }
    destruct (startsWith (line ++ w) (js "data: ")); [|done].
    unfold slice. rewrite drop_app_ge by lia.
    by rewrite parse_json_space by by apply json_space_drop.
Qed.

(** X22: the Anthropic reader ignores JSON whitespace at the end of a line,
    such as the carriage return of a CRLF line ending: the line does to the
    accumulated text what it does without it, whether its payload is JSON,
    the [[DONE]] sentinel or neither. *)
Theorem X22_claude_trailing_whitespace (line w : jsstring) (st : stream) :
  json_space w -> claude_line (line ++ w) st = claude_line line st.
Proof.
  intros Hw. by rewrite !claude_line_spec, claude_deltas_trailing_space.
Qed.

Lemma X22_claude_trailing_whitespace_witness :
  claude_line
    (jsq "data: {'type':'content_block_delta','delta':{'text':'Hi'}}" ++ [13])
    (MkStream [] [])
  = (MkStream (js "Hi") [js "Hi"], Normal tt).
Proof.
  rewrite (X22_claude_trailing_whitespace _ [13] (MkStream [] []) eq_refl).
  vm_compute. reflexivity.
Defined.

(** ** Lines that carry nothing *)

Lemma startsWith_prefix p s : startsWith (p ++ s) p = true.
Proof. induction p as [|c p IH]; [done|]. cbn [app startsWith]. by rewrite N.eqb_refl. Qed.

(** A well-formed line contributes its text. *)
Lemma claude_deltas_delta_line t : t <> [] -> claude_deltas (delta_line t) = [t].
Proof.
  intros Ht. unfold claude_deltas, delta_line.
  rewrite startsWith_prefix. cbv zeta. unfold slice.
  change 6%nat with (length (js "data: ")). rewrite drop_app_length.
  set (event := JObject _).
  assert (str_eqb (compact event) (js "[DONE]") = false) as ->.
  { apply str_eqb_neq. intros Hdone. by vm_compute in Hdone. }
  rewrite parse_compact by reflexivity. unfold event.
  destruct t as [|c t]; [done|]. vm_compute. reflexivity.
Qed.

(** C4: a [data: ] line whose payload is [[DONE]], is empty, or is not JSON
    leaves the Anthropic reader's state as it was and throws nothing.  In
    a stream that has such a line, in whatever chunk, the read loop does
    what the other lines make it do, those of later chunks included; in
    particular a well-formed line that follows it appends its text and
    reports it.  No content of any line stops the read loop before the
    stream ends.  For both Anthropic entry points the [onUpdate] calls and
    the text returned are those of the other lines. *)
Theorem C4_ignored_payloads (payload : jsstring) :
  payload = js "[DONE]" \/ payload = [] \/ JSON.parse payload = None ->
  let ignored := js "data: " ++ payload in
  (forall st, claude_line ignored st = (st, Normal tt))
  /\ (forall decoder pieces ending st before after,
        lines_read decoder pieces = before ++ ignored :: after ->
        read_loop claude_line decoder pieces ending st
        = (advanced st (flat_map claude_deltas (before ++ after)), ending))
  /\ (forall decoder pieces ending st before t,
        t <> [] ->
        lines_read decoder pieces = before ++ [ignored; delta_line t] ->
        let reached := advanced st (flat_map claude_deltas before) in
        read_loop claude_line decoder pieces ending st
        = (MkStream (fullText reached ++ t) (updates reached ++ [fullText reached ++ t]),
           ending))
  /\ (forall decoder pieces ending st,
        snd (read_loop claude_line decoder pieces ending st) = ending)
  /\ (forall pieces before after apiKey model request systemPrompt userPrompt,
        lines_read new_TextDecoder pieces = before ++ ignored :: after ->
        accumulates (flat_map claude_deltas (before ++ after))
          (streamExplanationFromClaude (respond (delivered pieces)) apiKey model request)
        /\ accumulates (flat_map claude_deltas (before ++ after))
             (streamExplanationFromClaudeWithSystem (respond (delivered pieces))
                apiKey model systemPrompt userPrompt)).
Proof.
  intros Hbad ignored.
  assert (claude_deltas ignored = []) as Hnone.
  { unfold ignored, claude_deltas.
    rewrite startsWith_prefix. cbv zeta. unfold slice.
    change 6%nat with (length (js "data: ")). rewrite drop_app_length.
    destruct Hbad as [-> | [-> | ->]]; [done | done |].
    by destruct (str_eqb payload (js "[DONE]")). }
  assert (forall before after,
            flat_map claude_deltas (before ++ ignored :: after)
            = flat_map claude_deltas (before ++ after)) as Hskip.
  { intros before after. rewrite !flat_map_app. cbn [flat_map]. by rewrite Hnone. }
  split; [|split; [|split; [|split]]].
  - intros st. by rewrite claude_line_spec, Hnone, advanced_nil.
  - intros decoder pieces ending st before after Hlines.
    by rewrite (read_loop_spec _ _ claude_line_spec), Hlines, Hskip.
  - intros decoder pieces ending st before t Ht Hlines. cbv zeta.
    rewrite (read_loop_spec _ _ claude_line_spec), Hlines, Hskip.
    rewrite flat_map_app. cbn [flat_map]. rewrite claude_deltas_delta_line by done.
    rewrite <- advanced_app. unfold advanced at 1. cbn [concat cumulative_from app].
    by rewrite !app_nil_r.
  - intros decoder pieces ending st.
    by rewrite (read_loop_spec _ _ claude_line_spec).
  - intros pieces before after apiKey model request systemPrompt userPrompt Hlines.
    rewrite <- Hskip, <- Hlines. fold (observed claude_deltas pieces).
    split;
      apply (stream_accumulates claude_line claude_deltas (delivered pieces)
               (MkBody pieces (Normal tt)) _ _ claude_line_spec eq_refl eq_refl).
Qed.

Lemma C4_ignored_payloads_witness :
  let pieces :=
    [bytesq "data: {'type':'content_block_delta','delta':{'text':'so far '}}" ++ [x0a]
       ++ bytesq "data: {'type':'content_block_del";
     bytesq "data: [DONE]" ++ [x0a]
       ++ bytesq "data: {'type':'content_block_delta','delta':{'text':'ok'}}" ++ [x0a]] in
  streamExplanationFromClaude (respond (delivered pieces)) (js "k") (js "m") []
  = MkOutcome [Fetch (anthropic_request (js "k") (js "m") 1024 explain_system_prompt
                        (js "Explain this HTTP request:" ++ [LF; LF]));
               OnUpdate (js "so far "); OnUpdate (js "so far ok")]
      (Normal (js "so far ok")).
Proof.
  intros pieces.
  destruct (C4_ignored_payloads (jsq "{'type':'content_block_del"))
    as (_ & Hloop & _).
  { right. right. vm_compute. reflexivity. }
  unfold streamExplanationFromClaude, stream_response, respond, delivered.
  cbn [ok negb response_body chunks ending].
  rewrite (Hloop new_TextDecoder pieces (Normal tt) (MkStream [] [])
             [jsq "data: {'type':'content_block_delta','delta':{'text':'so far '}}"]
             [js "data: [DONE]";
              jsq "data: {'type':'content_block_delta','delta':{'text':'ok'}}"; []])
    by (vm_compute; reflexivity).
  vm_compute. reflexivity.
Defined.

(** ** A text that has no string *)

Lemma fragment_unconvertible members :
  lookup_member (js "toString") members <> None -> fragment (JObject members) = [].
Proof.
  intros Hown. unfold fragment. cbn [ToString].
  by destruct (lookup_member (js "toString") members).
Qed.

Lemma part_deltas_unconvertible texts members others :
  Forall (fun t => t <> []) texts ->
  lookup_member (js "toString") members <> None ->
  part_deltas (map text_part texts ++ JObject [(js "text", JObject members)] :: others)
  = texts.
Proof.
  intros Htexts Hown. induction Htexts as [|t texts Ht _ IH].
  - cbn [map app part_deltas].
    change (prop (JObject [(js "text", JObject members)]) (js "text"))
      with (JObject members).
    cbn [truthy ToString]. by destruct (lookup_member (js "toString") members).
  - cbn [map app part_deltas text_part]. rewrite IH.
    change (prop (text_part t) (js "text")) with (JString t).
    cbn [truthy ToString].
    destruct (str_eqb t []) eqn:E; [by apply str_eqb_eq in E | done].
Qed.

(** X25: a text that is an object with a member of its own named
    [toString] (no function, in what [JSON.parse] yields) cannot be added
    to the accumulated text: the addition throws a [TypeError], which the
    [catch] of the line swallows.  In the Anthropic reader the line then
    changes nothing; in the Gemini reader the parts before it contribute
    their text and the parts after it are lost.  Neither reader calls
    [onUpdate] for it or throws. *)
Theorem X25_text_without_string members :
  lookup_member (js "toString") members <> None ->
  (forall payload ms ds st,
     JSON.parse payload = Some (JObject ms) ->
     lookup_member (js "type") ms = Some (JString (js "content_block_delta")) ->
     lookup_member (js "delta") ms = Some (JObject ds) ->
     lookup_member (js "text") ds = Some (JObject members) ->
     claude_line (js "data: " ++ payload) st = (st, Normal tt))
  /\ (forall payload ms more fs cs texts others st,
        JSON.parse (trim payload) = Some (JObject ms) ->
        lookup_member (js "candidates") ms = Some (JArray (JObject fs :: more)) ->
        lookup_member (js "content") fs = Some (JObject cs) ->
        lookup_member (js "parts") cs
        = Some (JArray (map text_part texts
                          ++ JObject [(js "text", JObject members)] :: others)) ->
        Forall (fun t => t <> []) texts ->
        gemini_line (js "data: " ++ payload) st
        = (MkStream (fullText st ++ concat texts)
             (updates st ++ cumulative_from (fullText st) texts), Normal tt)).
Proof.
  intros Hown. split.
  - intros payload ms ds st Hparse Htype Hdelta Htext.
    rewrite claude_line_spec.
    assert (claude_deltas (js "data: " ++ payload) = []) as ->;
      [|by rewrite advanced_nil].
    unfold claude_deltas.
    change (startsWith (js "data: " ++ payload) (js "data: ")) with true.
    change (slice 6 (js "data: " ++ payload)) with payload. cbv zeta.
    destruct (str_eqb payload (js "[DONE]")); [done|]. rewrite Hparse.
    assert (prop (JObject ms) (js "delta") = JObject ds) as ->.
    { unfold prop, get. by rewrite Hdelta. }
    assert (prop (JObject ds) (js "text") = JObject members) as ->.
    { unfold prop, get. by rewrite Htext. }
    rewrite fragment_unconvertible by done.
    by destruct (_ && _).
  - intros payload ms more fs cs texts others st Hparse Hcand Hcontent Hparts Htexts.
    rewrite gemini_line_spec. f_equal.
    assert (gemini_deltas (js "data: " ++ payload) = texts) as ->; [|done].
    unfold gemini_deltas.
    change (startsWith (js "data: " ++ payload) (js "data: ")) with true.
    change (slice 6 (js "data: " ++ payload)) with payload. cbv zeta.
    destruct (str_eqb (trim payload) []) eqn:E.
    { apply str_eqb_eq in E. rewrite E in Hparse. discriminate Hparse. }
    rewrite Hparse.
    assert (prop (JObject ms) (js "candidates") = JArray (JObject fs :: more)) as ->.
    { unfold prop, get. by rewrite Hcand. }
    change (prop (JArray (JObject fs :: more)) (js "0")) with (JObject fs).
    assert (prop (JObject fs) (js "content") = JObject cs) as ->.
    { unfold prop, get. by rewrite Hcontent. }
    assert (prop (JObject cs) (js "parts")
            = JArray (map text_part texts
                        ++ JObject [(js "text", JObject members)] :: others)) as ->.
    { unfold prop, get. by rewrite Hparts. }
    cbn [truthy andb iterate]. by apply part_deltas_unconvertible.
Qed.

Lemma X25_text_without_string_witness :
  claude_line
    (jsq "data: {'type':'content_block_delta','delta':{'text':{'toString':1}}}")
    (MkStream (js "so far") [js "so far"])
  = (MkStream (js "so far") [js "so far"], Normal tt).
Proof.
  apply (proj1 (X25_text_without_string [(js "toString", JNumber (num 1))]
                  ltac:(discriminate))
           (jsq "{'type':'content_block_delta','delta':{'text':{'toString':1}}}")
           [(js "type", JString (js "content_block_delta"));
            (js "delta", JObject [(js "text", JObject [(js "toString", JNumber (num 1))])])]
           [(js "text", JObject [(js "toString", JNumber (num 1))])]).
  - vm_compute. reflexivity.
  - reflexivity.
  - reflexivity.
  - reflexivity.
Defined.

(** ** A rejected fetch *)

(** X23: when [fetch] itself is rejected (no connection, say), every entry
    point throws that very rejection without calling [onUpdate], and so
    does the analysis of a configured user, which reports neither
    [streaming] nor [parsing] nor [complete]. *)
Theorem X23_fetch_rejection_propagates `{Host} (e : exn) ls requests
    key mdl request systemPrompt userPrompt prov :
  fails_with (streamExplanation (rejecting e) key mdl request prov) e
  /\ fails_with (streamExplanationWithSystem (rejecting e) key mdl
                   systemPrompt userPrompt prov) e
  /\ (apiKey (getAISettings ls) <> [] ->
      exists req,
        analyzeAttackSurface ls (rejecting e) requests true
        = MkAnalysis
            [OnProgress (BuildingPrompt (min 50 (length requests)));
             OnProgress (Analyzing (min 50 (length requests)));
             Fetch req]
            (Throw e)).
Proof.
  assert (forall systemPrompt userPrompt a m p,
            exists req,
              streamExplanationWithSystem (rejecting e) a m systemPrompt userPrompt p
              = MkOutcome [Fetch req] (Throw e)) as Hcall.
  { intros sp up a m p.
    destruct (streamExplanationWithSystem_entry a m sp up p) as [req ->].
    by exists req. }
  split; [|split].
  - destruct (streamExplanation_entry key mdl request prov) as [req ->]. by split.
  - destruct (Hcall systemPrompt userPrompt key mdl prov) as [req ->]. by split.
  - intros Hkey. unfold analyzeAttackSurface.
    apply str_eqb_neq in Hkey. rewrite Hkey. cbv zeta.
    destruct (Hcall analysis_system_prompt (buildAnalysisPrompt (take 50 requests))
                (apiKey (getAISettings ls)) (model (getAISettings ls))
                (provider (getAISettings ls))) as [req ->].
    exists req. cbn. by rewrite length_take.
Qed.

Lemma X23_fetch_rejection_witness :
  exists req,
    analyzeAttackSurface (H := ascii_host) (<[js "anthropic_api_key" := js "sk-key"]> ∅)
      (rejecting TypeError) [MkEntry None; MkEntry None] true
    = MkAnalysis
        [OnProgress (BuildingPrompt 2); OnProgress (Analyzing 2); Fetch req]
        (Throw TypeError).
Proof.
  apply (proj2 (proj2 (X23_fetch_rejection_propagates (H := ascii_host) TypeError
                         (<[js "anthropic_api_key" := js "sk-key"]> ∅)
                         [MkEntry None; MkEntry None] [] [] [] [] [] []))).
  js_neq.
Defined.

(** ** The credentials of the other provider *)

Lemma getItem_or_agree (ls ls' : Storage) k d :
  ls' !! k = ls !! k -> getItem_or ls' k d = getItem_or ls k d.
Proof. unfold getItem_or. by intros ->. Qed.

(** X24: what is stored for the provider that is not the active one is
    never used: two storages that differ only in the key and the model of
    the inactive provider give the same settings, and the analysis does the
    same on both, request sent included. *)
Theorem X24_inactive_credentials_unused `{Host} (ls ls' : Storage) :
  (forall k, ~ In k (inactive_keys ls) -> ls' !! k = ls !! k) ->
  getAISettings ls' = getAISettings ls
  /\ forall net requests onProgress,
       analyzeAttackSurface ls' net requests onProgress
       = analyzeAttackSurface ls net requests onProgress.
Proof.
  intros Hsame.
  assert (getAISettings ls' = getAISettings ls) as Hsettings.
  { revert Hsame. unfold inactive_keys, getAISettings.
    destruct (str_eqb (getItem_or ls (js "ai_provider") (js "anthropic")) (js "gemini"))
      eqn:E; cbn [provider]; intros Hsame.
    - change (str_eqb (js "gemini") (js "gemini")) with true in Hsame.
      rewrite (getItem_or_agree ls ls' (js "ai_provider")), E.
      + f_equal; apply getItem_or_agree, Hsame; cbn [In]; intros [Hk | [Hk | []]];
          vm_compute in Hk; discriminate Hk.
      + apply Hsame. cbn [In]. intros [Hk | [Hk | []]]; vm_compute in Hk; discriminate Hk.
    - change (str_eqb (js "anthropic") (js "gemini")) with false in Hsame.
      rewrite (getItem_or_agree ls ls' (js "ai_provider")), E.
      + f_equal; apply getItem_or_agree, Hsame; cbn [In]; intros [Hk | [Hk | []]];
          vm_compute in Hk; discriminate Hk.
      + apply Hsame. cbn [In]. intros [Hk | [Hk | []]]; vm_compute in Hk; discriminate Hk. }
  split; [exact Hsettings|].
  intros net requests onProgress. unfold analyzeAttackSurface. by rewrite Hsettings.
Qed.

Lemma X24_inactive_credentials_witness :
  analyzeAttackSurface (H := ascii_host)
    (<[js "gemini_api_key" := js "AIza-secret"]> (<[js "anthropic_api_key" := js "sk-key"]> ∅))
    (respond (delivered [])) [MkEntry None] true
  = analyzeAttackSurface (H := ascii_host) (<[js "anthropic_api_key" := js "sk-key"]> ∅)
      (respond (delivered [])) [MkEntry None] true.
Proof.
  apply (X24_inactive_credentials_unused (H := ascii_host)).
  intros k Hk. apply lookup_insert_ne. intros <-. apply Hk. left. reflexivity.
Defined.
